(** * English Flashcards frontend: a model of the React client

    The client is a single-page React application: [App] checks the session
    and signs the user in, [MainFlashcard] loads topics, entries and entry
    details, keeps the "Your topics" list in [localStorage], runs a debounced
    global search and drops entry-detail responses that arrive out of order;
    [TopicModal] lets the user pick, add and reset topics.

    Components are embedded as reducers: each event handler, each effect and
    each continuation after an [await] is a function on the component state
    that also returns the HTTP requests it issues.  Ids and indices are JS
    numbers that hold integers, modelled by [Z]; strings are [string]. *)

From Stdlib Require Import Ascii.
From stdpp Require Import base numbers option list strings pretty gmap.

Local Open Scope Z_scope.
Set Warnings "-register-all".

(** ** JavaScript values *)

(** A [number | null] used as a condition: [null] and [0] are falsy. *)
Definition truthy (x : option Z) : bool :=
  match x with
  | Some n => negb (n =? 0)
  | None => false
  end.

(** A string used as a condition: only the empty string is falsy. *)
Definition nonEmpty (s : string) : bool := negb (String.eqb s "").

(** [a ?? b] *)
Definition orElse {A : Type} (a b : option A) : option A :=
  match a with
  | Some _ => a
  | None => b
  end.

(** [xs[i]] for an index held in a number: [undefined] out of range. *)
Definition at_index {A : Type} (xs : list A) (i : Z) : option A :=
  if i <? 0 then None else xs !! Z.to_nat i.

(** [xs.findIndex(p)]: the first position that satisfies [p], [-1] if none. *)
Fixpoint findIndex {A : Type} (p : A -> bool) (xs : list A) : Z :=
  match xs with
  | [] => -1
  | x :: rest =>
      if p x then 0
      else let i := findIndex p rest in if i <? 0 then -1 else i + 1
  end.

(** [xs.find(p)] *)
Fixpoint find {A : Type} (p : A -> bool) (xs : list A) : option A :=
  match xs with
  | [] => None
  | x :: rest => if p x then Some x else find p rest
  end.

(** A number holding an integer, as a template literal prints it. *)
Definition toString (n : Z) : string := pretty n.
Arguments toString : simpl never.

(** [xs.includes(x)] on an array of numbers. *)
Definition includes (xs : list Z) (x : Z) : bool := bool_decide (x ∈ xs).

(** [s.includes(sub)] on strings: [sub] occurs somewhere in [s]. *)
Fixpoint str_includes (s sub : string) : bool :=
  String.prefix sub s ||
  match s with
  | EmptyString => false
  | String _ rest => str_includes rest sub
  end.

(** What a [catch (e)] clause reads of the thrown value: [e?.message]. *)
Record Thrown := Throw { message : option string }.

(** [new Error(msg)] *)
Definition Error (msg : string) : Thrown := Throw (Some msg).

(** [e?.message ?? fallback] *)
Definition messageOr (e : Thrown) (fallback : string) : string :=
  default fallback (message e).

(** A settled promise. *)
Inductive Settled (T : Type) : Type :=
| Fulfilled (v : T)
| Rejected (e : Thrown).
Arguments Fulfilled {T} v.
Arguments Rejected {T} e.

(** A value produced by [JSON.parse]; numbers are integers in this model. *)
Inductive JSON : Type :=
| JNull
| JBool (b : bool)
| JNum (n : Z)
| JStr (s : string)
| JArr (items : list JSON)
| JObj (fields : list (string * JSON)).

(** [JSON.stringify(ids)] for an array of integers: ["[1,2,3]"]. *)
Definition JSON_stringify (ids : list Z) : string :=
  "[" +:+ String.concat "," (toString <$> ids) +:+ "]".
Arguments JSON_stringify : simpl never.

(** [o.length] read from an object literal: the last field of that name. *)
Fixpoint field (name : string) (fields : list (string * JSON)) : option JSON :=
  match fields with
  | [] => None
  | (k, v) :: rest =>
      match field name rest with
      | Some w => Some w
      | None => if String.eqb k name then Some v else None
      end
  end.

(** [v.length === 0] for a parsed value that the code treats as an array;
    [None] when reading [.length] throws (on [null]). *)
Definition lengthIsZero (v : JSON) : option bool :=
  match v with
  | JNull => None
  | JArr items => Some (bool_decide (items = []))
  | JStr s => Some (negb (nonEmpty s))
  | JObj fields =>
      Some match field "length" fields with
           | Some (JNum 0) => true
           | _ => false
           end
  | JBool _ | JNum _ => Some false
  end.

(** The numbers among the items of an array that satisfy [keep]; other items
    never compare equal to a topic id.  [None] when [v] has no [filter]
    method. *)
Definition filterNumbers (keep : Z -> bool) (v : JSON) : option (list Z) :=
  match v with
  | JArr items =>
      Some (omap (fun item => match item with
                              | JNum n => if keep n then Some n else None
                              | _ => None
                              end) items)
  | _ => None
  end.

(** ** The platform

    Browser built-ins and build-time configuration the client relies on. *)
Class Platform := {
  (** [import.meta.env.VITE_API_URL || "http://localhost:8000"] *)
  API_URL : string;
  (** [String.prototype.trim] *)
  trim : string -> string;
  (** [String.prototype.toLowerCase] *)
  toLowerCase : string -> string;
  (** [encodeURIComponent]; [None] when it throws [URIError] *)
  encodeURIComponent : string -> option string;
  (** [JSON.parse]; [None] when it throws [SyntaxError] *)
  JSON_parse : string -> option JSON;
  (** the [TypeError] raised when array code runs on a value that is not an
      array *)
  notAnArray : JSON -> Thrown
}.

(** ** Records exchanged with the backend *)

Module Topic.
Record t := mk { id : Z; name : string; is_suggested : bool }.
#[global] Instance eq_dec : EqDecision t.
Proof. solve_decision. Defined.
End Topic.

Module EntryOut.
Record t := mk { id : Z; headword : string; meaning_en : string; meaning_es : string }.
#[global] Instance eq_dec : EqDecision t.
Proof. solve_decision. Defined.
End EntryOut.

Module ExampleOut.
Record t := mk { id : Z; text_en : string; rank : Z }.
End ExampleOut.

(** [EntryOut & { examples }] *)
Module EntryDetail.
Record t := mk { entry : EntryOut.t; examples : list ExampleOut.t }.
End EntryDetail.

(** [EntryOut & { primary_topic?, topic_ids? }]; [primary_topic] is
    [{ id, name }]. *)
Module SearchEntry.
Record t := mk {
  entry : EntryOut.t;
  primary_topic : option (Z * string);
  topic_ids : option (list Z)
}.
Definition id (item : t) : Z := EntryOut.id (entry item).
#[global] Instance eq_dec : EqDecision t.
Proof. solve_decision. Defined.
End SearchEntry.

(** [AuthUser] of App.tsx *)
Module AuthUser.
Record t := mk { id : Z; email : string; name : option string; avatar_url : option string }.
End AuthUser.

(** ** api/client.ts *)

Inductive Method := GET | POST.

Record Request := {
  method : Method;
  url : string;
  credentials : string;
  headers : list (string * string);
  body : option JSON  (* the value whose JSON text is sent *)
}.

Record Response (T : Type) := {
  ok : bool;
  status : Z;
  json : Settled T  (* [res.json()] *)
}.
Arguments ok {T} _.
Arguments status {T} _.
Arguments json {T} _.

Section Model.
Context `{!Platform}.

(** The [fetch] call of [apiGet(path)]. *)
Definition apiGet_fetch (path : string) : Request :=
  {| method := GET; url := API_URL +:+ path; credentials := "include";
     headers := []; body := None |}.

(** The [fetch] call of [apiPost(path, body)]. *)
Definition apiPost_fetch (path : string) (b : option JSON) : Request :=
  {| method := POST; url := API_URL +:+ path; credentials := "include";
     headers := [("Content-Type", "application/json")]; body := b |}.

(** [apiGet] after [await fetch(...)]: how the promise it returned settles,
    given how the [fetch] settled. *)
Definition apiGet {T : Type} (fetched : Settled (Response T)) : Settled T :=
  match fetched with
  | Rejected e => Rejected e
  | Fulfilled res =>
      if negb (ok res) then Rejected (Error ("API error " +:+ toString (status res)))
      else json res
  end.

(** [apiPost] after [await fetch(...)]. *)
Definition apiPost {T : Type} (fetched : Settled (Response T)) : Settled T :=
  match fetched with
  | Rejected e => Rejected e
  | Fulfilled res =>
      if negb (ok res) then Rejected (Error ("API error " +:+ toString (status res)))
      else json res
  end.

(** ** components/TopicModal.tsx *)

(** The modal's own state: its search box and the "See all topics" toggle. *)
Record ModalState := { modal_q : string; showAll : bool }.

(** [new Map(topics.map((t) => [t.id, t]))]: a later topic replaces an earlier
    one with the same id. *)
Definition byId (topics : list Topic.t) : gmap Z Topic.t :=
  foldl (fun m t => <[Topic.id t := t]> m) ∅ topics.

Definition matchesQuery (s : string) (t : Topic.t) : bool :=
  str_includes (toLowerCase (Topic.name t)) s.

Definition filteredAll (topics : list Topic.t) (q : string) : list Topic.t :=
  let s := toLowerCase (trim q) in
  if negb (nonEmpty s) then topics else List.filter (matchesQuery s) topics.

Definition suggested (topics : list Topic.t) (yourTopicIds : list Z) (q : string)
  : list Topic.t :=
  let set : gset Z := list_to_set yourTopicIds in
  List.filter (fun t => Topic.is_suggested t && negb (bool_decide (Topic.id t ∈ set)))
              (filteredAll topics q).

Definition yourTopics (topics : list Topic.t) (yourTopicIds : list Z) (q : string)
  : list Topic.t :=
  let items := omap (fun id => byId topics !! id) yourTopicIds in
  let s := toLowerCase (trim q) in
  if negb (nonEmpty s) then items else List.filter (matchesQuery s) items.

Definition allToShow (topics : list Topic.t) (yourTopicIds : list Z) (q : string)
  : list Topic.t :=
  let set : gset Z := list_to_set yourTopicIds in
  List.filter (fun t => negb (bool_decide (Topic.id t ∈ set))) (filteredAll topics q).

(** The topics that carry a "+ Add" button: the first six suggestions and,
    when "See all topics" is on, every topic not yet in the list. *)
Definition addButtons (topics : list Topic.t) (yourTopicIds : list Z) (m : ModalState)
  : list Topic.t :=
  take 6 (suggested topics yourTopicIds (modal_q m)) ++
  (if showAll m then allToShow topics yourTopicIds (modal_q m) else []).

(** ** pages/MainFlashcard.tsx *)

Definition YOUR_TOPICS_KEY : string := "your_topic_ids_v1".

(** A pending [window.setTimeout] of the search effect: the trimmed query its
    callback captured and the time from which it may run. *)
Record Timer := { timer_q : string; due : Z }.

(** The three places that fetch [/entries/{id}] under the request counter. *)
Inductive DetailSite :=
| CardDetail     (* effect 3: the current entry changed *)
| JumpFallback   (* the pending-jump effect, entry not in the list *)
| SearchFallback (* [selectSearchResult], entry not in the list *).

(** What awaits the response of a request. *)
Inductive Continuation :=
| AfterTopics
| AfterEntries
| AfterDetail (site : DetailSite) (requestId : Z)
| AfterSearch.

#[global] Instance DetailSite_eq_dec : EqDecision DetailSite.
Proof. solve_decision. Defined.

#[global] Instance Continuation_eq_dec : EqDecision Continuation.
Proof. solve_decision. Defined.

Record Call := { request : Request; continuation : Continuation }.

(** The [useState] and [useRef] cells of [MainFlashcard] in source order,
    followed by what the component touches in the browser.  The cell of its
    [Flashcard3D] child, which is mounted only while a card is on screen, is
    kept beside this state, in [Screen]. *)
Record State := mkState {
  isFlipped : bool;
  isTopicModalOpen : bool;
  topics : list Topic.t;
  selectedTopicId : option Z;
  yourTopicIds : list Z;
  entries : list EntryOut.t;
  currentIndex : Z;
  entryDetail : option EntryDetail.t;
  loading : bool;
  errMsg : option string;
  searchQuery : string;
  searchResults : list SearchEntry.t;
  searchOpen : bool;
  searchLoading : bool;
  entryDetailReqRef : Z;
  pendingJumpEntryId : option Z;
  (** identity of the array object held in [entries]: every [setEntries]
      installs a fresh array, which is what the dependency lists compare *)
  entriesRef : nat;
  (** state of the [TopicModal] child *)
  modal : ModalState;
  (** the browser's [localStorage] *)
  localStorage : gmap string string;
  (** the timeout of the search effect, while it is pending *)
  searchTimer : option Timer;
  (** the browser clock, in milliseconds *)
  now : Z
}.

(** A piece of component code: it updates the state and issues calls. *)
Definition Action : Type := State -> State * list Call.

Definition skip : Action := fun s => (s, []).

Definition andThen (a b : Action) : Action :=
  fun s =>
    let '(s1, c1) := a s in
    let '(s2, c2) := b s1 in
    (s2, c1 ++ c2).

Definition update (f : State -> State) : Action := fun s => (f s, []).

(** [await apiGet(path)]: the request goes out, [k] runs when it settles. *)
Definition await (r : Request) (k : Continuation) : Action :=
  fun s => (s, [{| request := r; continuation := k |}]).

Notation "a >> b" := (andThen a b) (at level 62, right associativity).

(** [if (x) yes(x) else no] on a [number | null]. *)
Definition ifTruthy (x : option Z) (yes : Z -> Action) (no : Action) : Action :=
  match x with
  | Some n => if n =? 0 then no else yes n
  | None => no
  end.

(** *** State setters *)

Definition setIsFlipped (v : bool) : Action :=
  update (fun s =>
    mkState
      v (isTopicModalOpen s) (topics s) (selectedTopicId s) (yourTopicIds s)
      (entries s) (currentIndex s) (entryDetail s) (loading s) (errMsg s)
      (searchQuery s) (searchResults s) (searchOpen s) (searchLoading s)
      (entryDetailReqRef s) (pendingJumpEntryId s) (entriesRef s) (modal s)
      (localStorage s) (searchTimer s) (now s)).

Definition setIsTopicModalOpen (v : bool) : Action :=
  update (fun s =>
    mkState
      (isFlipped s) v (topics s) (selectedTopicId s) (yourTopicIds s)
      (entries s) (currentIndex s) (entryDetail s) (loading s) (errMsg s)
      (searchQuery s) (searchResults s) (searchOpen s) (searchLoading s)
      (entryDetailReqRef s) (pendingJumpEntryId s) (entriesRef s) (modal s)
      (localStorage s) (searchTimer s) (now s)).

Definition setTopics (v : list Topic.t) : Action :=
  update (fun s =>
    mkState
      (isFlipped s) (isTopicModalOpen s) v (selectedTopicId s) (yourTopicIds s)
      (entries s) (currentIndex s) (entryDetail s) (loading s) (errMsg s)
      (searchQuery s) (searchResults s) (searchOpen s) (searchLoading s)
      (entryDetailReqRef s) (pendingJumpEntryId s) (entriesRef s) (modal s)
      (localStorage s) (searchTimer s) (now s)).

Definition setSelectedTopicId (v : option Z) : Action :=
  update (fun s =>
    mkState
      (isFlipped s) (isTopicModalOpen s) (topics s) v (yourTopicIds s)
      (entries s) (currentIndex s) (entryDetail s) (loading s) (errMsg s)
      (searchQuery s) (searchResults s) (searchOpen s) (searchLoading s)
      (entryDetailReqRef s) (pendingJumpEntryId s) (entriesRef s) (modal s)
      (localStorage s) (searchTimer s) (now s)).

Definition setYourTopicIds (v : list Z) : Action :=
  update (fun s =>
    mkState
      (isFlipped s) (isTopicModalOpen s) (topics s) (selectedTopicId s) v
      (entries s) (currentIndex s) (entryDetail s) (loading s) (errMsg s)
      (searchQuery s) (searchResults s) (searchOpen s) (searchLoading s)
      (entryDetailReqRef s) (pendingJumpEntryId s) (entriesRef s) (modal s)
      (localStorage s) (searchTimer s) (now s)).

(** [setEntries(list)]: the list is a new array object. *)
Definition setEntries (v : list EntryOut.t) : Action :=
  update (fun s =>
    mkState
      (isFlipped s) (isTopicModalOpen s) (topics s) (selectedTopicId s)
      (yourTopicIds s) v (currentIndex s) (entryDetail s) (loading s)
      (errMsg s) (searchQuery s) (searchResults s) (searchOpen s)
      (searchLoading s) (entryDetailReqRef s) (pendingJumpEntryId s)
      (S (entriesRef s)) (modal s) (localStorage s) (searchTimer s) (now s)).

Definition setCurrentIndex (v : Z) : Action :=
  update (fun s =>
    mkState
      (isFlipped s) (isTopicModalOpen s) (topics s) (selectedTopicId s)
      (yourTopicIds s) (entries s) v (entryDetail s) (loading s) (errMsg s)
      (searchQuery s) (searchResults s) (searchOpen s) (searchLoading s)
      (entryDetailReqRef s) (pendingJumpEntryId s) (entriesRef s) (modal s)
      (localStorage s) (searchTimer s) (now s)).

Definition setEntryDetail (v : option EntryDetail.t) : Action :=
  update (fun s =>
    mkState
      (isFlipped s) (isTopicModalOpen s) (topics s) (selectedTopicId s)
      (yourTopicIds s) (entries s) (currentIndex s) v (loading s) (errMsg s)
      (searchQuery s) (searchResults s) (searchOpen s) (searchLoading s)
      (entryDetailReqRef s) (pendingJumpEntryId s) (entriesRef s) (modal s)
      (localStorage s) (searchTimer s) (now s)).

Definition setLoading (v : bool) : Action :=
  update (fun s =>
    mkState
      (isFlipped s) (isTopicModalOpen s) (topics s) (selectedTopicId s)
      (yourTopicIds s) (entries s) (currentIndex s) (entryDetail s) v
      (errMsg s) (searchQuery s) (searchResults s) (searchOpen s)
      (searchLoading s) (entryDetailReqRef s) (pendingJumpEntryId s)
      (entriesRef s) (modal s) (localStorage s) (searchTimer s) (now s)).

Definition setErrMsg (v : option string) : Action :=
  update (fun s =>
    mkState
      (isFlipped s) (isTopicModalOpen s) (topics s) (selectedTopicId s)
      (yourTopicIds s) (entries s) (currentIndex s) (entryDetail s) (loading s)
      v (searchQuery s) (searchResults s) (searchOpen s) (searchLoading s)
      (entryDetailReqRef s) (pendingJumpEntryId s) (entriesRef s) (modal s)
      (localStorage s) (searchTimer s) (now s)).

Definition setSearchQuery (v : string) : Action :=
  update (fun s =>
    mkState
      (isFlipped s) (isTopicModalOpen s) (topics s) (selectedTopicId s)
      (yourTopicIds s) (entries s) (currentIndex s) (entryDetail s) (loading s)
      (errMsg s) v (searchResults s) (searchOpen s) (searchLoading s)
      (entryDetailReqRef s) (pendingJumpEntryId s) (entriesRef s) (modal s)
      (localStorage s) (searchTimer s) (now s)).

Definition setSearchResults (v : list SearchEntry.t) : Action :=
  update (fun s =>
    mkState
      (isFlipped s) (isTopicModalOpen s) (topics s) (selectedTopicId s)
      (yourTopicIds s) (entries s) (currentIndex s) (entryDetail s) (loading s)
      (errMsg s) (searchQuery s) v (searchOpen s) (searchLoading s)
      (entryDetailReqRef s) (pendingJumpEntryId s) (entriesRef s) (modal s)
      (localStorage s) (searchTimer s) (now s)).

Definition setSearchOpen (v : bool) : Action :=
  update (fun s =>
    mkState
      (isFlipped s) (isTopicModalOpen s) (topics s) (selectedTopicId s)
      (yourTopicIds s) (entries s) (currentIndex s) (entryDetail s) (loading s)
      (errMsg s) (searchQuery s) (searchResults s) v (searchLoading s)
      (entryDetailReqRef s) (pendingJumpEntryId s) (entriesRef s) (modal s)
      (localStorage s) (searchTimer s) (now s)).

Definition setSearchLoading (v : bool) : Action :=
  update (fun s =>
    mkState
      (isFlipped s) (isTopicModalOpen s) (topics s) (selectedTopicId s)
      (yourTopicIds s) (entries s) (currentIndex s) (entryDetail s) (loading s)
      (errMsg s) (searchQuery s) (searchResults s) (searchOpen s) v
      (entryDetailReqRef s) (pendingJumpEntryId s) (entriesRef s) (modal s)
      (localStorage s) (searchTimer s) (now s)).

(** [entryDetailReqRef.current = v] *)
Definition setEntryDetailReqRef (v : Z) : Action :=
  update (fun s =>
    mkState
      (isFlipped s) (isTopicModalOpen s) (topics s) (selectedTopicId s)
      (yourTopicIds s) (entries s) (currentIndex s) (entryDetail s) (loading s)
      (errMsg s) (searchQuery s) (searchResults s) (searchOpen s)
      (searchLoading s) v (pendingJumpEntryId s) (entriesRef s) (modal s)
      (localStorage s) (searchTimer s) (now s)).

Definition setPendingJumpEntryId (v : option Z) : Action :=
  update (fun s =>
    mkState
      (isFlipped s) (isTopicModalOpen s) (topics s) (selectedTopicId s)
      (yourTopicIds s) (entries s) (currentIndex s) (entryDetail s) (loading s)
      (errMsg s) (searchQuery s) (searchResults s) (searchOpen s)
      (searchLoading s) (entryDetailReqRef s) v (entriesRef s) (modal s)
      (localStorage s) (searchTimer s) (now s)).

Definition setModal (v : ModalState) : Action :=
  update (fun s =>
    mkState
      (isFlipped s) (isTopicModalOpen s) (topics s) (selectedTopicId s)
      (yourTopicIds s) (entries s) (currentIndex s) (entryDetail s) (loading s)
      (errMsg s) (searchQuery s) (searchResults s) (searchOpen s)
      (searchLoading s) (entryDetailReqRef s) (pendingJumpEntryId s)
      (entriesRef s) v (localStorage s) (searchTimer s) (now s)).

Definition setLocalStorage (v : gmap string string) : Action :=
  update (fun s =>
    mkState
      (isFlipped s) (isTopicModalOpen s) (topics s) (selectedTopicId s)
      (yourTopicIds s) (entries s) (currentIndex s) (entryDetail s) (loading s)
      (errMsg s) (searchQuery s) (searchResults s) (searchOpen s)
      (searchLoading s) (entryDetailReqRef s) (pendingJumpEntryId s)
      (entriesRef s) (modal s) v (searchTimer s) (now s)).

Definition setSearchTimer (v : option Timer) : Action :=
  update (fun s =>
    mkState
      (isFlipped s) (isTopicModalOpen s) (topics s) (selectedTopicId s)
      (yourTopicIds s) (entries s) (currentIndex s) (entryDetail s) (loading s)
      (errMsg s) (searchQuery s) (searchResults s) (searchOpen s)
      (searchLoading s) (entryDetailReqRef s) (pendingJumpEntryId s)
      (entriesRef s) (modal s) (localStorage s) v (now s)).

Definition setNow (v : Z) : Action :=
  update (fun s =>
    mkState
      (isFlipped s) (isTopicModalOpen s) (topics s) (selectedTopicId s)
      (yourTopicIds s) (entries s) (currentIndex s) (entryDetail s) (loading s)
      (errMsg s) (searchQuery s) (searchResults s) (searchOpen s)
      (searchLoading s) (entryDetailReqRef s) (pendingJumpEntryId s)
      (entriesRef s) (modal s) (localStorage s) (searchTimer s) v).


(** [entryDetailReqRef.current += 1] *)
Definition bumpRequestId : Action :=
  fun s => setEntryDetailReqRef (entryDetailReqRef s + 1) s.

(** [const requestId = ++entryDetailReqRef.current; ...] *)
Definition withNextRequestId (k : Z -> Action) : Action :=
  bumpRequestId >> (fun s => k (entryDetailReqRef s) s).

(** [if (requestId !== entryDetailReqRef.current) return;] in front of [a]. *)
Definition unlessStale (requestId : Z) (a : Action) : Action :=
  fun s => if bool_decide (requestId = entryDetailReqRef s) then a s else skip s.

Definition localStorage_setItem (key value : string) : Action :=
  fun s => setLocalStorage (<[key := value]> (localStorage s)) s.

Definition localStorage_removeItem (key : string) : Action :=
  fun s => setLocalStorage (delete key (localStorage s)) s.

(** [window.setTimeout(callback, delay)], the callback holding [q]. *)
Definition window_setTimeout (q : string) (delay : Z) : Action :=
  fun s => setSearchTimer (Some {| timer_q := q; due := now s + delay |}) s.

(** [window.clearTimeout(handle)] *)
Definition window_clearTimeout : Action := setSearchTimer None.

(** *** Your topics *)

Definition addToYourTopics (topicId : Z) : Action :=
  fun s =>
    let prev := yourTopicIds s in
    if includes prev topicId then skip s
    else
      let next := prev ++ [topicId] in
      (localStorage_setItem YOUR_TOPICS_KEY (JSON_stringify next) >>
       setYourTopicIds next) s.

(** [(mixed ?? t[0])?.id ?? null], where [mixed] is the first topic whose
    lower-cased name is ["mixed"]. *)
Definition defaultTopicId (t : list Topic.t) : option Z :=
  let mixed := find (fun x => String.eqb (toLowerCase (Topic.name x)) "mixed") t in
  Topic.id <$> orElse mixed (head t).

Definition resetYourTopics (render : State) : Action :=
  localStorage_removeItem YOUR_TOPICS_KEY >>
  ifTruthy (defaultTopicId (topics render))
    (fun defaultId =>
       let next := [defaultId] in
       setYourTopicIds next >>
       localStorage_setItem YOUR_TOPICS_KEY (JSON_stringify next) >>
       setSelectedTopicId (Some defaultId))
    (setYourTopicIds [] >> setSelectedTopicId None) >>
  setIsTopicModalOpen false.

(** *** Effect 1: load topics once *)

Definition effectTopics : Action :=
  setLoading true >> setErrMsg None >> await (apiGet_fetch "/topics") AfterTopics.

(** [raw ? JSON.parse(raw) : []], with [[]] when the parse throws. *)
Definition parseSaved (raw : option string) : JSON :=
  match raw with
  | Some text => if nonEmpty text then default (JArr []) (JSON_parse text) else JArr []
  | None => JArr []
  end.

Definition topicsFailed (e : Thrown) : Action :=
  setErrMsg (Some (messageOr e "Failed to load topics")).

(** The body of the [try] after [await apiGet("/topics")] resolved with [t]. *)
Definition topicsLoaded (t : list Topic.t) : Action :=
  setTopics t >>
  fun s =>
    let defaultId := defaultTopicId t in
    let raw := localStorage s !! YOUR_TOPICS_KEY in
    let savedIds := parseSaved raw in
    match lengthIsZero savedIds with
    | None => topicsFailed (notAnArray savedIds) s
    | Some isEmpty =>
        let validSet : gset Z := list_to_set (Topic.id <$> t) in
        let keep := fun id => bool_decide (id ∈ validSet) in
        let finish := fun (write : Action) (saved : JSON) =>
          match filterNumbers keep saved with
          | None => write >> topicsFailed (notAnArray saved)
          | Some ids =>
              write >> setYourTopicIds ids >>
              setSelectedTopicId (orElse (head ids) defaultId)
          end in
        (if isEmpty
         then ifTruthy defaultId
                (fun d => finish (localStorage_setItem YOUR_TOPICS_KEY
                                    (JSON_stringify [d]))
                                 (JArr [JNum d]))
                (finish skip savedIds)
         else finish skip savedIds) s
    end.

Definition topicsSettled (fetched : Settled (Response (list Topic.t))) : Action :=
  match apiGet fetched with
  | Fulfilled t => topicsLoaded t
  | Rejected e => topicsFailed e
  end >>
  setLoading false.

(** *** Effect 2: load entries whenever the topic changes *)

Definition effectEntries (render : State) : Action :=
  ifTruthy (selectedTopicId render)
    (fun topicId =>
       setLoading true >> setErrMsg None >> setIsFlipped false >>
       await (apiGet_fetch ("/entries?topic_id=" +:+ toString topicId +:+ "&limit=2000"))
             AfterEntries)
    skip.

Definition entriesSettled (fetched : Settled (Response (list EntryOut.t))) : Action :=
  match apiGet fetched with
  | Fulfilled list => setEntries list >> setCurrentIndex 0
  | Rejected e => setErrMsg (Some (messageOr e "Failed to load entries"))
  end >>
  setLoading false.

(** *** Pending jump: after entries load, go to the entry picked in search *)

Definition effectJump (render : State) : Action :=
  ifTruthy (pendingJumpEntryId render)
    (fun pending =>
       if bool_decide (entries render = []) then skip
       else
         let idx := findIndex (fun e => EntryOut.id e =? pending) (entries render) in
         if 0 <=? idx
         then setIsFlipped false >> setCurrentIndex idx >> setPendingJumpEntryId None
         else
           withNextRequestId (fun requestId =>
             setLoading true >> setErrMsg None >>
             await (apiGet_fetch ("/entries/" +:+ toString pending))
                   (AfterDetail JumpFallback requestId)))
    skip.

Definition jumpDetailSettled (requestId : Z)
    (fetched : Settled (Response EntryDetail.t)) : Action :=
  match apiGet fetched with
  | Fulfilled detail =>
      unlessStale requestId (setEntryDetail (Some detail) >> setIsFlipped false)
  | Rejected e =>
      unlessStale requestId (setErrMsg (Some (messageOr e "Failed to open entry")))
  end >>
  unlessStale requestId (setLoading false >> setPendingJumpEntryId None).

(** *** Effect 3: load the entry detail whenever the current entry changes *)

Definition effectDetail (render : State) : Action :=
  match at_index (entries render) (currentIndex render) with
  | None => setEntryDetail None
  | Some current =>
      withNextRequestId (fun requestId =>
        let currentId := EntryOut.id current in
        setLoading true >> setErrMsg None >>
        await (apiGet_fetch ("/entries/" +:+ toString currentId))
              (AfterDetail CardDetail requestId))
  end.

Definition cardDetailSettled (requestId : Z)
    (fetched : Settled (Response EntryDetail.t)) : Action :=
  match apiGet fetched with
  | Fulfilled detail => unlessStale requestId (setEntryDetail (Some detail))
  | Rejected e =>
      unlessStale requestId
        (setErrMsg (Some (messageOr e "Failed to load entry detail")))
  end >>
  unlessStale requestId (setLoading false).

(** *** Search, debounced *)

(** The effect on [searchQuery]; its cleanup, [window.clearTimeout(handle)],
    runs before the next run of the effect (see [runEffects]). *)
Definition effectSearch (render : State) : Action :=
  let q := trim (searchQuery render) in
  if negb (nonEmpty q) then setSearchResults [] >> setSearchOpen false
  else window_setTimeout q 250.

(** The timeout callback, up to its [await]. *)
Definition searchTimeout (q : string) : Action :=
  setSearchLoading true >>
  match encodeURIComponent q with
  | Some encoded =>
      await (apiGet_fetch ("/entries/search?q=" +:+ encoded +:+ "&limit=20")) AfterSearch
  | None =>
      (* [encodeURIComponent] threw inside the [try] *)
      setSearchResults [] >> setSearchOpen true >> setSearchLoading false
  end.

Definition searchSettled (fetched : Settled (Response (list SearchEntry.t))) : Action :=
  match apiGet fetched with
  | Fulfilled res => setSearchResults res >> setSearchOpen true
  | Rejected _ => setSearchResults [] >> setSearchOpen true
  end >>
  setSearchLoading false.

(** [selectSearchResult(item)] up to its [await]. *)
Definition selectSearchResult (render : State) (item : SearchEntry.t) : Action :=
  setSearchOpen false >> setSearchQuery "" >>
  let targetTopicId := fst <$> SearchEntry.primary_topic item in
  let inCurrentTopic :=
    let idx := findIndex (fun e => EntryOut.id e =? SearchEntry.id item)
                         (entries render) in
    if 0 <=? idx then setIsFlipped false >> setCurrentIndex idx
    else
      withNextRequestId (fun requestId =>
        setLoading true >> setErrMsg None >>
        await (apiGet_fetch ("/entries/" +:+ toString (SearchEntry.id item)))
              (AfterDetail SearchFallback requestId)) in
  match targetTopicId with
  | Some target =>
      if truthy targetTopicId && bool_decide (targetTopicId ≠ selectedTopicId render)
      then
        setPendingJumpEntryId (Some (SearchEntry.id item)) >>
        setIsFlipped false >>
        setEntryDetail None >> bumpRequestId >>
        addToYourTopics target >>
        setSelectedTopicId (Some target)
      else inCurrentTopic
  | None => inCurrentTopic
  end.

Definition searchDetailSettled (requestId : Z)
    (fetched : Settled (Response EntryDetail.t)) : Action :=
  match apiGet fetched with
  | Fulfilled detail =>
      unlessStale requestId (setEntryDetail (Some detail) >> setIsFlipped false)
  | Rejected e =>
      unlessStale requestId (setErrMsg (Some (messageOr e "Failed to open entry")))
  end >>
  unlessStale requestId (setLoading false).

(** *** Card navigation *)

Definition canPrev (render : State) : bool := 0 <? currentIndex render.

Definition canNext (render : State) : bool :=
  currentIndex render <? Z.of_nat (length (entries render)) - 1.

Definition goPrev (render : State) : Action :=
  if negb (canPrev render) then skip
  else
    setIsFlipped false >>
    fun s => setCurrentIndex (Z.max 0 (currentIndex s - 1)) s.

Definition goNext (render : State) : Action :=
  if negb (canNext render) then skip
  else
    setIsFlipped false >>
    fun s =>
      setCurrentIndex
        (Z.min (Z.of_nat (length (entries render)) - 1) (currentIndex s + 1)) s.

(** [{errMsg && ...}]: the error banner is on screen. *)
Definition errorShown (s : State) : bool :=
  match errMsg s with
  | Some m => nonEmpty m
  | None => false
  end.

(** [{!errMsg && cardView && ...}]: the card and its Prev/Next row are on
    screen; [cardView] is non-null exactly when [entryDetail] is. *)
Definition cardShown (s : State) : bool :=
  negb (errorShown s) && bool_decide (is_Some (entryDetail s)).

(** *** Rendering: which effects run after an update

    After the state changed, React renders and runs, in source order, the
    effects whose dependency list changed since the previous render.  The
    bodies read the rendered state [cur]; their updates go to the state
    being built.  [entries] is compared as an object. *)

Definition changed {A : Type} `{EqDecision A} (dep : State -> A) (prev cur : State)
  : bool :=
  negb (bool_decide (dep prev = dep cur)).

Definition runEffects (prev cur : State) : Action :=
  (if changed selectedTopicId prev cur then effectEntries cur else skip) >>
  (if changed pendingJumpEntryId prev cur || changed entriesRef prev cur
   then effectJump cur else skip) >>
  (if changed entriesRef prev cur || changed currentIndex prev cur
   then effectDetail cur else skip) >>
  (if changed searchQuery prev cur
   then window_clearTimeout >> effectSearch cur else skip).

(** Render after render until no dependency changes; [rerender_settles]
    shows that two rounds are always enough. *)
Fixpoint rerender (rounds : nat) (prev cur : State) : State * list Call :=
  match rounds with
  | O => (cur, [])
  | S rounds' =>
      let '(next, calls) := runEffects prev cur cur in
      let '(final, more) := rerender rounds' cur next in
      (final, calls ++ more)
  end.

(** The state a handler leaves, committed: effects have run. *)
Definition commit (prev : State) (handled : State * list Call) : State * list Call :=
  let '(final, more) := rerender 2 prev (fst handled) in
  (final, snd handled ++ more).

(** *** Mounting *)

Definition initialState (storage : gmap string string) (clock : Z) : State :=
  {| isFlipped := false; isTopicModalOpen := false; topics := [];
     selectedTopicId := None; yourTopicIds := []; entries := [];
     currentIndex := 0; entryDetail := None; loading := true; errMsg := None;
     searchQuery := ""; searchResults := []; searchOpen := false;
     searchLoading := false; entryDetailReqRef := 0;
     pendingJumpEntryId := None; entriesRef := O;
     modal := {| modal_q := ""; showAll := false |};
     localStorage := storage; searchTimer := None; now := clock |}.

(** The first render runs every effect. *)
Definition mountEffects (render : State) : Action :=
  effectTopics >> effectEntries render >> effectJump render >>
  effectDetail render >> effectSearch render.

Definition mount (storage : gmap string string) (clock : Z) : State * list Call :=
  let render := initialState storage clock in
  commit render (mountEffects render render).

(** *** Events *)

Inductive Event :=
(* the network *)
| TopicsSettled (fetched : Settled (Response (list Topic.t)))
| EntriesSettled (fetched : Settled (Response (list EntryOut.t)))
| DetailSettled (site : DetailSite) (requestId : Z)
                (fetched : Settled (Response EntryDetail.t))
| SearchSettled (fetched : Settled (Response (list SearchEntry.t)))
(* the clock *)
| TimePasses (ms : Z)
| TimerFires
(* the search box *)
| SearchInput (value : string)
| SearchFocus
| DocMouseDown (insideSearch : bool)
| ClickSearchResult (item : SearchEntry.t)
(* the card *)
| ClickFlip
| ClickPrev
| ClickNext
(* the topic modal *)
| ClickSelectTopicButton
| ModalClose
| ModalSearchInput (value : string)
| ModalToggleShowAll
| ModalClickYourTopic (topicId : Z)
| ModalClickAdd (topicId : Z)
| ModalClickReset.

Definition detailSettled (site : DetailSite) :=
  match site with
  | CardDetail => cardDetailSettled
  | JumpFallback => jumpDetailSettled
  | SearchFallback => searchDetailSettled
  end.

(** The handler of an event; an event whose control is not on screen, or a
    timer that is not due, does nothing. *)
Definition handle (ev : Event) (render : State) : Action :=
  match ev with
  | TopicsSettled fetched => topicsSettled fetched
  | EntriesSettled fetched => entriesSettled fetched
  | DetailSettled site requestId fetched => detailSettled site requestId fetched
  | SearchSettled fetched => searchSettled fetched
  | TimePasses ms =>
      if 0 <=? ms then fun s => setNow (now s + ms) s else skip
  | TimerFires =>
      match searchTimer render with
      | Some timer =>
          if due timer <=? now render
          then setSearchTimer None >> searchTimeout (timer_q timer)
          else skip
      | None => skip
      end
  | SearchInput value => setSearchQuery value
  | SearchFocus =>
      if nonEmpty (trim (searchQuery render)) then setSearchOpen true else skip
  | DocMouseDown insideSearch =>
      if insideSearch then skip else setSearchOpen false
  | ClickSearchResult item =>
      if (searchOpen render || searchLoading render) && negb (searchLoading render)
         && bool_decide (item ∈ searchResults render)
      then selectSearchResult render item
      else skip
  | ClickFlip =>
      if cardShown render
      then fun s => setIsFlipped (negb (isFlipped s)) s
      else skip
  | ClickPrev =>
      if cardShown render && canPrev render then goPrev render else skip
  | ClickNext =>
      if cardShown render && canNext render then goNext render else skip
  | ClickSelectTopicButton => setIsTopicModalOpen true
  | ModalClose =>
      if isTopicModalOpen render then setIsTopicModalOpen false else skip
  | ModalSearchInput value =>
      if isTopicModalOpen render
      then setModal {| modal_q := value; showAll := showAll (modal render) |}
      else skip
  | ModalToggleShowAll =>
      if isTopicModalOpen render
      then setModal {| modal_q := modal_q (modal render);
                       showAll := negb (showAll (modal render)) |}
      else skip
  | ModalClickYourTopic topicId =>
      if isTopicModalOpen render
         && bool_decide (topicId ∈ Topic.id <$>
              yourTopics (topics render) (yourTopicIds render) (modal_q (modal render)))
      then setSelectedTopicId (Some topicId) >> setIsTopicModalOpen false
      else skip
  | ModalClickAdd topicId =>
      if isTopicModalOpen render
         && bool_decide (topicId ∈ Topic.id <$>
              addButtons (topics render) (yourTopicIds render) (modal render))
      then addToYourTopics topicId
      else skip
  | ModalClickReset =>
      if isTopicModalOpen render then resetYourTopics render else skip
  end.

(** One event: its handler, then rendering and effects. *)
Definition step (s : State) (ev : Event) : State * list Call :=
  commit s (handle ev s s).

(** A run of events, with the calls each one issued. *)
Fixpoint run (s : State) (evs : list Event) : State * list Call :=
  match evs with
  | [] => (s, [])
  | ev :: rest =>
      let '(s1, calls) := step s ev in
      let '(s2, more) := run s1 rest in
      (s2, calls ++ more)
  end.

(** ** App.tsx *)

Record AppState := {
  checkingSession : bool;
  authLoading : bool;
  authError : option string;
  user : option AuthUser.t
}.

Inductive AppContinuation := AfterMe | AfterGoogle | AfterLogout.

Record AppCall := { app_request : Request; app_continuation : AppContinuation }.

Definition AppAction : Type := AppState -> AppState * list AppCall.

Definition appInitial : AppState :=
  {| checkingSession := true; authLoading := false; authError := None; user := None |}.

(** The session check that runs once when [App] mounts. *)
Definition appMount : AppState * list AppCall :=
  (appInitial, [{| app_request := apiGet_fetch "/auth/me"; app_continuation := AfterMe |}]).

Definition meSettled (fetched : Settled (Response AuthUser.t)) : AppAction :=
  fun s =>
    let u := match apiGet fetched with
             | Fulfilled me => Some me
             | Rejected _ => None
             end in
    ({| checkingSession := false; authLoading := authLoading s;
        authError := authError s; user := u |}, []).

(** [handleGoogleCredential(credential)] up to its [await]. *)
Definition handleGoogleCredential (credential : string) : AppAction :=
  fun s =>
    ({| checkingSession := checkingSession s; authLoading := true;
        authError := None; user := user s |},
     [{| app_request :=
           apiPost_fetch "/auth/google" (Some (JObj [("credential", JStr credential)]));
         app_continuation := AfterGoogle |}]).

Definition googleSettled (fetched : Settled (Response AuthUser.t)) : AppAction :=
  fun s =>
    match apiPost fetched with
    | Fulfilled loggedUser =>
        ({| checkingSession := checkingSession s; authLoading := false;
            authError := authError s; user := Some loggedUser |}, [])
    | Rejected _ =>
        ({| checkingSession := checkingSession s; authLoading := false;
            authError := Some "Could not sign in with Google. Please try again.";
            user := user s |}, [])
    end.

(** [handleLogout()] up to its [await]. *)
Definition handleLogout : AppAction :=
  fun s =>
    (s, [{| app_request := apiPost_fetch "/auth/logout" None;
            app_continuation := AfterLogout |}]).

(** The [finally] of [handleLogout]: the user is dropped either way. *)
Definition logoutSettled (fetched : Settled (Response bool)) : AppAction :=
  fun s =>
    ({| checkingSession := checkingSession s; authLoading := authLoading s;
        authError := authError s; user := None |}, []).

Inductive AppEvent :=
| MeSettled (fetched : Settled (Response AuthUser.t))
(* pages/Landing.tsx: the Google Identity callback, [res.credential] *)
| GoogleCallback (credential : option string)
| GoogleSettled (fetched : Settled (Response AuthUser.t))
(* [onLogout], handed to [MainFlashcard] *)
| Logout
| LogoutSettled (fetched : Settled (Response bool)).

(** [Landing] is on screen when the session check is over and nobody is
    signed in, [MainFlashcard] when somebody is.  [Landing] hands its callback
    to Google Identity when it renders, which is not before the session check
    is over; nothing takes the callback back when [Landing] leaves the screen,
    so that from then on it may be called whatever is on screen.  [onLogout]
    is called from [MainFlashcard] only. *)
Definition appStep (s : AppState) (ev : AppEvent) : AppState * list AppCall :=
  match ev with
  | MeSettled fetched => meSettled fetched s
  | GoogleCallback credential =>
      if negb (checkingSession s)
      then
        match trim <$> credential with
        | Some c => if nonEmpty c then handleGoogleCredential c s else (s, [])
        | None => (s, [])
        end
      else (s, [])
  | GoogleSettled fetched => googleSettled fetched s
  | Logout =>
      if negb (checkingSession s) && bool_decide (is_Some (user s))
      then handleLogout s
      else (s, [])
  | LogoutSettled fetched => logoutSettled fetched s
  end.

End Model.

Notation "a >> b" := (andThen a b) (at level 62, right associativity).

(** ** A platform to run the model on

    Built-ins that agree with the browser's on ASCII text; they serve to
    evaluate the model on concrete inputs. *)

Module Sample.

Fixpoint dropSpaces (s : string) : string :=
  match s with
  | String c rest => if Ascii.is_space c then dropSpaces rest else s
  | EmptyString => EmptyString
  end.

Definition trimSpaces (s : string) : string :=
  String.rev (dropSpaces (String.rev (dropSpaces s))).

Definition lowerChar (c : ascii) : ascii :=
  let n := N_of_ascii c in
  if ((65 <=? n) && (n <=? 90))%N then ascii_of_N (n + 32) else c.

Fixpoint lowerCase (s : string) : string :=
  match s with
  | String c rest => String (lowerChar c) (lowerCase rest)
  | EmptyString => EmptyString
  end.

(** Characters [encodeURIComponent] leaves alone: [A-Z a-z 0-9 - _ . ! ~ * ' ( )]. *)
Definition unreserved (c : ascii) : bool :=
  let n := N_of_ascii c in
  (((65 <=? n) && (n <=? 90)) || ((97 <=? n) && (n <=? 122))
   || ((48 <=? n) && (n <=? 57)))%N
  || bool_decide (c ∈ ["-"; "_"; "."; "!"; "~"; "*"; "'"; "("; ")"]%char).

Definition hexDigit (n : N) : ascii :=
  (if n <? 10 then ascii_of_N (48 + n) else ascii_of_N (55 + n))%N.

Fixpoint percentEncode (s : string) : string :=
  match s with
  | String c rest =>
      (if unreserved c then String c EmptyString
       else String "%" (String (hexDigit (N_of_ascii c / 16))
                          (String (hexDigit (N_of_ascii c mod 16)) EmptyString)))
      +:+ percentEncode rest
  | EmptyString => EmptyString
  end.

Fixpoint readDigits (s : string) (acc : Z) (seen : bool) : option (Z * string) :=
  match s with
  | String c rest =>
      match Ascii.is_nat c with
      | Some d => readDigits rest (10 * acc + Z.of_nat d) true
      | None => if seen then Some (acc, s) else None
      end
  | EmptyString => if seen then Some (acc, s) else None
  end.

Definition readInt (s : string) : option (Z * string) :=
  match s with
  | String "-" rest => prod_map Z.opp id <$> readDigits rest 0 false
  | _ => readDigits s 0 false
  end.

Fixpoint readItems (fuel : nat) (s : string) : option (list Z) :=
  match fuel with
  | O => None
  | S fuel' =>
      match readInt s with
      | Some (n, String "," rest) => cons n <$> readItems fuel' rest
      | Some (n, String "]" EmptyString) => Some [n]
      | _ => None
      end
  end.

(** [JSON.parse] on the texts the client writes, arrays of integer literals
    without blanks; every other text is refused. *)
Definition parseIds (s : string) : option JSON :=
  match s with
  | String "[" (String "]" EmptyString) => Some (JArr [])
  | String "[" rest => (fun ids => JArr (JNum <$> ids)) <$> readItems (String.length s) rest
  | _ => None
  end.

Definition platform : Platform :=
  {| API_URL := "http://localhost:8000";
     trim := trimSpaces;
     toLowerCase := lowerCase;
     encodeURIComponent := fun s => Some (percentEncode s);
     JSON_parse := parseIds;
     notAnArray := fun _ => Error "savedIds.filter is not a function" |}.

End Sample.


(** * What the components show

    The values the components compute for rendering: the card of
    [MainFlashcard] and its header, the screens of [App], and the text
    [Flashcard3D] hands to the speech synthesis. *)

(** [CardView] of MainFlashcard.tsx *)
Module CardView.
Record t := mk {
  id : Z;
  headword : string;
  meaningEn : string;
  meaningEs : string;
  exampleFront : string;
  exampleBack : string
}.
End CardView.

(** [Flashcard] of data/flashcards.ts: the [card] prop of [Flashcard3D]. *)
Module Flashcard.
Record t := mk {
  id : string;
  headword : string;
  exampleFront : string;
  meaningEn : string;
  meaningEs : string;
  exampleBack : string
}.
End Flashcard.

(** The double quote character. *)
Definition dquote : ascii := "034"%char.

Definition isQuote (c : ascii) : bool := Ascii.eqb c dquote.

(** The template literal that puts [text] between double quotes. *)
Definition quoted (text : string) : string :=
  String dquote (text +:+ String dquote EmptyString).

(** [text ? quoted : ""] *)
Definition quotedIfAny (text : string) : string :=
  if nonEmpty text then quoted text else "".

(** ** pages/MainFlashcard.tsx: the card view *)

(** One step of a stable sort by rank: [x] goes behind every example whose
    rank is not greater. *)
Fixpoint insertByRank (x : ExampleOut.t) (sorted : list ExampleOut.t)
  : list ExampleOut.t :=
  match sorted with
  | [] => [x]
  | y :: rest =>
      if ExampleOut.rank y <=? ExampleOut.rank x
      then y :: insertByRank x rest
      else x :: sorted
  end.

(** [[...examples].sort((a, b) => a.rank - b.rank)]: [Array.prototype.sort]
    is stable, examples of equal rank keep their order. *)
Definition sortByRank (examples : list ExampleOut.t) : list ExampleOut.t :=
  foldl (fun sorted x => insertByRank x sorted) [] examples.

(** The body of the [cardView] memo for a detail that is not null. *)
Definition cardViewOf (detail : EntryDetail.t) : CardView.t :=
  let sorted := sortByRank (EntryDetail.examples detail) in
  let ex1 := default "" (ExampleOut.text_en <$> sorted !! 0%nat) in
  let ex2 := default "" (orElse (ExampleOut.text_en <$> sorted !! 1%nat)
                                (ExampleOut.text_en <$> sorted !! 0%nat)) in
  {| CardView.id := EntryOut.id (EntryDetail.entry detail);
     CardView.headword := EntryOut.headword (EntryDetail.entry detail);
     CardView.meaningEn := EntryOut.meaning_en (EntryDetail.entry detail);
     CardView.meaningEs := EntryOut.meaning_es (EntryDetail.entry detail);
     CardView.exampleFront := quotedIfAny ex1;
     CardView.exampleBack := quotedIfAny ex2 |}.

(** The [card] prop [MainFlashcard] hands to [Flashcard3D]. *)
Definition flashcardOf (v : CardView.t) : Flashcard.t :=
  {| Flashcard.id := toString (CardView.id v);
     Flashcard.headword := CardView.headword v;
     Flashcard.exampleFront := CardView.exampleFront v;
     Flashcard.meaningEn := CardView.meaningEn v;
     Flashcard.meaningEs := CardView.meaningEs v;
     Flashcard.exampleBack := CardView.exampleBack v |}.

(** ** components/Flashcard3D.tsx *)

(** [s] without the double quotes it starts with. *)
Fixpoint dropQuotes (s : string) : string :=
  match s with
  | String c rest => if isQuote c then dropQuotes rest else s
  | EmptyString => EmptyString
  end.

(** [s] without the double quotes it ends with. *)
Fixpoint dropEndQuotes (s : string) : string :=
  match s with
  | String c rest =>
      match dropEndQuotes rest with
      | EmptyString => if isQuote c then EmptyString else String c EmptyString
      | kept => String c kept
      end
  | EmptyString => EmptyString
  end.

(** [stripQuotes(s)]: every match of the pattern is replaced by nothing; the
    pattern matches a run of double quotes at the start of [s] or one at its
    end, and the scan goes from left to right, so the run at the start goes
    first. *)
Definition stripQuotes (s : string) : string := dropEndQuotes (dropQuotes s).

(** The texts the two "Listen example" buttons hand to [onSpeak]. *)
Definition spokenFront (card : Flashcard.t) : string :=
  stripQuotes (Flashcard.exampleFront card).

Definition spokenBack (card : Flashcard.t) : string :=
  stripQuotes (Flashcard.exampleBack card).

(** ** components/Flashcard3D.tsx: the component *)

(** The props of [Flashcard3D] that carry data. *)
Module CardProps.
Record t := mk { card : Flashcard.t; flipped : bool }.
End CardProps.

(** A mounted [Flashcard3D]: the props of its last render and its
    [useState] cell. *)
Module Card3D.
Record t := mk { props : CardProps.t; showSpanish : bool }.
End Card3D.

(** The dependency list of its effect: [[card.id, flipped]]. *)
Definition cardDeps (p : CardProps.t) : string * bool :=
  (Flashcard.id (CardProps.card p), CardProps.flipped p).

(** One render of [MainFlashcard] as [Flashcard3D] sees it.  Without an
    element the component is unmounted and its state is lost.  A component
    that mounts starts from [useState(false)] and runs its effect; one that
    is mounted already runs the effect when a dependency changed.  The
    effect is [setShowSpanish(false)]. *)
Definition renderCard (element : option CardProps.t) (mounted : option Card3D.t)
  : option Card3D.t :=
  match element with
  | None => None
  | Some p =>
      match mounted with
      | None => Some (Card3D.mk p false)
      | Some c =>
          if bool_decide (cardDeps (Card3D.props c) = cardDeps p)
          then Some (Card3D.mk p (Card3D.showSpanish c))
          else Some (Card3D.mk p false)
      end
  end.

Section View.
Context `{!Platform}.

(** ** pages/MainFlashcard.tsx: what is rendered *)

(** The [cardView] memo. *)
Definition cardView (s : State) : option CardView.t := cardViewOf <$> entryDetail s.

(** The [selectedTopic] memo:
    [topics.find((t) => t.id === selectedTopicId) ?? null]. *)
Definition selectedTopic (s : State) : option Topic.t :=
  find (fun t => bool_decide (Some (Topic.id t) = selectedTopicId s)) (topics s).

(** The badge with the selected topic, a dash when there is none. *)
Definition topicBadge (s : State) : string :=
  default "—" (Topic.name <$> selectedTopic s).

(** The counter between "Prev" and "Next". *)
Definition positionLabel (s : State) : string :=
  if bool_decide (entries s = []) then "0 / 0"
  else toString (currentIndex s + 1) +:+ " / "
         +:+ toString (Z.of_nat (length (entries s))).

(** ** components/Flashcard3D.tsx in [MainFlashcard] *)

(** [Boolean(card.meaningEs?.trim())] *)
Definition hasSpanish (card : Flashcard.t) : bool :=
  nonEmpty (trim (Flashcard.meaningEs card)).

(** The [Flashcard3D] element in what [MainFlashcard] renders; there is none
    while [errMsg] is truthy or [cardView] is null. *)
Definition cardElement (s : State) : option CardProps.t :=
  if errorShown s then None
  else (fun v => CardProps.mk (flashcardOf v) (isFlipped s)) <$> cardView s.

(** [MainFlashcard] with its [Flashcard3D], if one is mounted. *)
Record Screen := { main : State; card3D : option Card3D.t }.

(** The states [MainFlashcard] renders in one step: what the handler left,
    and what each of the two rounds of effects left. *)
Definition renders (s : State) (ev : Event) : list State :=
  let handled := (handle ev s s).1 in
  let first := (runEffects s handled handled).1 in
  let second := (runEffects handled first first).1 in
  [handled; first; second].

Inductive ScreenEvent :=
| OfMain (ev : Event)
(* the button that shows or hides the Spanish meaning *)
| ClickShowSpanish.

Definition screenStep (sc : Screen) (ev : ScreenEvent) : Screen * list Call :=
  match ev with
  | OfMain e =>
      ({| main := (step (main sc) e).1;
          card3D := foldl (fun mounted s => renderCard (cardElement s) mounted)
                          (card3D sc) (renders (main sc) e) |},
       (step (main sc) e).2)
  | ClickShowSpanish =>
      match card3D sc with
      | Some c =>
          if hasSpanish (CardProps.card (Card3D.props c))
          then ({| main := main sc;
                   card3D := Some (Card3D.mk (Card3D.props c)
                                             (negb (Card3D.showSpanish c))) |}, [])
          else (sc, [])
      | None => (sc, [])
      end
  end.

Fixpoint screenRun (sc : Screen) (evs : list ScreenEvent) : Screen * list Call :=
  match evs with
  | [] => (sc, [])
  | ev :: rest =>
      let '(sc1, calls) := screenStep sc ev in
      let '(sc2, more) := screenRun sc1 rest in
      (sc2, calls ++ more)
  end.

(** [Flashcard3D] is mounted with the props of the element on screen. *)
Definition cardMounted (sc : Screen) : Prop :=
  Card3D.props <$> card3D sc = cardElement (main sc).

(** Whether the Spanish meaning is shown, if the card is mounted. *)
Definition spanishShown (sc : Screen) : option bool :=
  Card3D.showSpanish <$> card3D sc.

(** ** App.tsx: what is rendered *)

(** [user.name || user.email] *)
Definition userName (u : AuthUser.t) : string :=
  match AuthUser.name u with
  | Some n => if nonEmpty n then n else AuthUser.email u
  | None => AuthUser.email u
  end.

Inductive AppScreen :=
| CheckingSession
| MainScreen (name : string)
| LandingScreen (loading : bool) (error : option string).

(** The child of [Frame]. *)
Definition appScreen (s : AppState) : AppScreen :=
  if checkingSession s then CheckingSession
  else match user s with
       | Some u => MainScreen (userName u)
       | None => LandingScreen (authLoading s) (authError s)
       end.

End View.
(** * Vocabulary of the properties *)

Section Vocabulary.
Context `{!Platform}.

(** ** Relations on actions *)

(** A relation between the state before, the calls issued and the state
    after is compositional when it holds of doing nothing and follows a
    sequence of actions. *)
Class Compositional (R : State -> list Call -> State -> Prop) : Prop := {
  comp_skip : forall s, R s [] s;
  comp_seq : forall s c1 s1 c2 s2, R s c1 s1 -> R s1 c2 s2 -> R s (c1 ++ c2) s2
}.

Definition respects (R : State -> list Call -> State -> Prop) (a : Action) : Prop :=
  forall s, R s (a s).2 (a s).1.

(** Frame: the action leaves [f] alone. *)
Definition keeps {A : Type} (f : State -> A) : State -> list Call -> State -> Prop :=
  fun s _ s' => f s' = f s.

(** Every call issued satisfies [P]. *)
Definition issuesOnly (P : Call -> Prop) : State -> list Call -> State -> Prop :=
  fun _ calls _ => Forall P calls.

(** The state invariant [I] is kept. *)
Definition maintains (I : State -> Prop) : State -> list Call -> State -> Prop :=
  fun s _ s' => I s -> I s'.

(** The dependency lists of the effects, as one value. *)
Definition deps (s : State) : option Z * option Z * nat * Z * string :=
  (selectedTopicId s, pendingJumpEntryId s, entriesRef s, currentIndex s,
   searchQuery s).

(** What the effects of a render over [cur] do to the dependencies: they
    leave them as they are, or a jump was pending and is not any more. *)
Definition jumpSettles (cur : State) : State -> list Call -> State -> Prop :=
  fun s _ s' =>
    deps s' = deps s \/
    (truthy (pendingJumpEntryId cur) = true /\ pendingJumpEntryId s' = None).

(** ** Card position *)

(** The index points into the list, or is 0 on an empty list. *)
Definition indexInBounds (s : State) : Prop :=
  0 ≤ currentIndex s ≤ Z.max 0 (Z.of_nat (length (entries s)) - 1).

Definition cardPosition (s : State) : list EntryOut.t * Z :=
  (entries s, currentIndex s).

(** While the effects of one render run, the list they read is the list in
    the state, and the index stays in bounds. *)
Definition rendersInBounds (render : State) : State -> list Call -> State -> Prop :=
  fun s _ s' =>
    entries s = entries render ->
    entries s' = entries render /\ (indexInBounds s -> indexInBounds s').

(** ** Request ids of entry-detail fetches *)

Definition detailId (k : Continuation) : option Z :=
  match k with
  | AfterDetail _ requestId => Some requestId
  | _ => None
  end.

(** The request ids of the detail fetches among [calls], in issue order. *)
Definition detailIds (calls : list Call) : list Z :=
  omap (fun c => detailId (continuation c)) calls.

(** [ids] climbs strictly from above [lo] up to at most [hi]. *)
Fixpoint ascending (lo : Z) (ids : list Z) (hi : Z) : Prop :=
  match ids with
  | [] => lo ≤ hi
  | r :: rest => lo < r /\ ascending r rest hi
  end.

(** Request ids are handed out in increasing order, above the counter
    before and up to the counter after. *)
Definition handsOutIds : State -> list Call -> State -> Prop :=
  fun s calls s' => ascending (entryDetailReqRef s) (detailIds calls) (entryDetailReqRef s').

(** ** Search *)

Definition isSearchCall (c : Call) : Prop := continuation c = AfterSearch.

#[global] Instance isSearchCall_dec (c : Call) : Decision (isSearchCall c).
Proof. unfold isSearchCall. solve_decision. Defined.

(** The request of a search for the trimmed query [q]. *)
Definition searchRequest (q : string) (r : Request) : Prop :=
  exists encoded,
    encodeURIComponent q = Some encoded /\
    r = apiGet_fetch ("/entries/search?q=" +:+ encoded +:+ "&limit=20").

(** The timeout the search effect sets at time [opened] for the query in the
    state; none when the trimmed query is empty. *)
Definition debounceTimer (opened : Z) (s : State) : option Timer :=
  if nonEmpty (trim (searchQuery s))
  then Some {| timer_q := trim (searchQuery s); due := opened + 250 |}
  else None.

(** The state is in the debounce window opened at time [opened] for its
    query: that time has come, and the timeout of the window is pending, or
    it has [fired] and no timeout is pending. *)
Definition inWindow (opened : Z) (fired : bool) (s : State) : Prop :=
  opened ≤ now s /\
  searchTimer s = if fired then None else debounceTimer opened s.

Definition searchCalls (calls : list Call) : list Call :=
  List.filter (fun c => bool_decide (isSearchCall c)) calls.

(** The call that fetches the search for the encoded query. *)
Definition searchCall (encoded : string) : Call :=
  {| request := apiGet_fetch ("/entries/search?q=" +:+ encoded +:+ "&limit=20");
     continuation := AfterSearch |}.

(** The timeout is pending and its time has come. *)
Definition timerDue (s : State) : bool :=
  match searchTimer s with
  | Some timer => due timer <=? now s
  | None => false
  end.

(** What the search part of the component shows and waits for. *)
Definition searchPanel (s : State) : option Timer * list SearchEntry.t * bool :=
  (searchTimer s, searchResults s, searchOpen s).

Definition searchClock (s : State) : string * Z := (searchQuery s, now s).

(** The clock does not run backwards. *)
Definition clockAdvances : State -> list Call -> State -> Prop :=
  fun s _ s' => now s ≤ now s'.

(** The search query is the same after each event of the run. *)
Fixpoint queryStays (s : State) (evs : list Event) : Prop :=
  match evs with
  | [] => True
  | ev :: rest =>
      searchQuery (step s ev).1 = searchQuery s /\ queryStays (step s ev).1 rest
  end.

(** ** Endpoints

    The REST endpoints as the interface section lists them. *)
Inductive Endpoint :=
| GET_topics
| GET_entries (topic_id limit : Z)
| GET_entry (id : Z)
| GET_entries_search (q : string) (limit : Z)
| POST_auth_google
| GET_auth_me
| POST_auth_logout.

Definition endpointMethod (e : Endpoint) : Method :=
  match e with
  | POST_auth_google | POST_auth_logout => POST
  | _ => GET
  end.

Definition endpointPath (e : Endpoint) : string :=
  match e with
  | GET_topics => "/topics"
  | GET_entries topic_id limit =>
      "/entries?topic_id=" +:+ toString topic_id +:+ "&limit=" +:+ toString limit
  | GET_entry id => "/entries/" +:+ toString id
  | GET_entries_search q limit =>
      "/entries/search?q=" +:+ q +:+ "&limit=" +:+ toString limit
  | POST_auth_google => "/auth/google"
  | GET_auth_me => "/auth/me"
  | POST_auth_logout => "/auth/logout"
  end.

(** The query of a search request is the output of [encodeURIComponent]. *)
Definition wellFormed (e : Endpoint) : Prop :=
  match e with
  | GET_entries_search q _ => exists text, encodeURIComponent text = Some q
  | _ => True
  end.

(** Request [r] goes to endpoint [e]. *)
Definition consumes (r : Request) (e : Endpoint) : Prop :=
  method r = endpointMethod e /\ url r = API_URL +:+ endpointPath e /\ wellFormed e.

Definition toListedEndpoint (r : Request) : Prop := exists e, consumes r e.

(** A run of [App] events, with the calls each one issued. *)
Fixpoint appRun (s : AppState) (evs : list AppEvent) : AppState * list AppCall :=
  match evs with
  | [] => (s, [])
  | ev :: rest =>
      let '(s1, calls) := appStep s ev in
      let '(s2, more) := appRun s1 rest in
      (s2, calls ++ more)
  end.

(** The requests [MainFlashcard] issues in some execution: when it mounts or
    in the events that follow. *)
Definition issuedByMainFlashcard (r : Request) : Prop :=
  exists storage clock evs,
    r ∈ request <$> ((mount storage clock).2 ++ (run (mount storage clock).1 evs).2).

(** The requests [App] issues in some execution. *)
Definition issuedByApp (r : Request) : Prop :=
  exists evs, r ∈ app_request <$> (appMount.2 ++ (appRun appMount.1 evs).2).

Definition issued (r : Request) : Prop := issuedByMainFlashcard r \/ issuedByApp r.

(** ** Failures *)

(** The text shown when a detail fetch fails with a value that has no
    message. *)
Definition detailFailureText (site : DetailSite) : string :=
  match site with
  | CardDetail => "Failed to load entry detail"
  | JumpFallback | SearchFallback => "Failed to open entry"
  end.

(** ** Topics *)

(** What the topic effects and handlers decide, and the effects leave alone. *)
Definition topicChoice (s : State)
  : list Topic.t * option Z * list Z * gmap string string :=
  (topics s, selectedTopicId s, yourTopicIds s, localStorage s).

(** The topics, "Your topics" and what is stored. *)
Definition topicStore (s : State) : list Topic.t * list Z * gmap string string :=
  (topics s, yourTopicIds s, localStorage s).

(** Nothing usable is saved under the key: it is missing, its text does not
    parse, or it parses to an empty array. *)
Definition nothingSaved (s : State) : Prop :=
  localStorage s !! YOUR_TOPICS_KEY = None \/
  exists text,
    localStorage s !! YOUR_TOPICS_KEY = Some text /\
    (JSON_parse text = None \/ JSON_parse text = Some (JArr [])).

Definition isMixed (x : Topic.t) : Prop := toLowerCase (Topic.name x) = "mixed".

(** The state "Your topics" starts from: the one default topic [d], selected
    and stored. *)
Definition singleDefault (d : Z) (s : State) : Prop :=
  yourTopicIds s = [d] /\ selectedTopicId s = Some d /\
  localStorage s !! YOUR_TOPICS_KEY = Some (JSON_stringify [d]).


(** The events whose handlers write "Your topics" or the storage. *)
Definition touchesYourTopics (ev : Event) : bool :=
  match ev with
  | TopicsSettled _ | ClickSearchResult _ | ModalClickAdd _ | ModalClickReset => true
  | _ => false
  end.

Definition isTopicsLoad (ev : Event) : Prop :=
  exists fetched, ev = TopicsSettled fetched.


(** The topic a search result points to, if any, is a known topic. *)
Definition resultTopicKnown (s : State) (ev : Event) : Prop :=
  match ev with
  | ClickSearchResult item =>
      match SearchEntry.primary_topic item with
      | Some (topicId, _) => topicId ∈ Topic.id <$> topics s
      | None => True
      end
  | _ => True
  end.

(** The call that loads the entries of topic [t]. *)
Definition entriesCall (t : Z) : Call :=
  {| request := apiGet_fetch ("/entries?topic_id=" +:+ toString t +:+ "&limit=2000");
     continuation := AfterEntries |}.

(** ** Your topics *)

(** Every id in "Your topics" is the id of a topic the app knows. *)
Definition yoursAreKnown (s : State) : Prop :=
  forall id, id ∈ yourTopicIds s -> id ∈ Topic.id <$> topics s.

(** The numbers among the items of a parsed array. *)
Definition numbersOf (v : JSON) : list Z :=
  default [] (filterNumbers (fun _ => true) v).

(** The list saved under the key, as the load reads it, holds no id twice. *)
Definition savedWithoutDuplicates (storage : gmap string string) : Prop :=
  NoDup (numbersOf (parseSaved (storage !! YOUR_TOPICS_KEY))).


(** A fulfilled response with status 200 and body [v]. *)
Definition respond {T : Type} (v : T) : Settled (Response T) :=
  Fulfilled {| ok := true; status := 200; json := Fulfilled v |}.

(** A response with an error status. *)
Definition respondError {T : Type} (code : Z) : Settled (Response T) :=
  Fulfilled {| ok := false; status := code;
               json := Rejected (Error "Unexpected end of JSON input") |}.

End Vocabulary.


(** * A session

    Concrete data for the examples that close the development: topics,
    entries, and a few sessions of the component on the platform of module
    [Sample]. *)

Module Session.

#[local] Existing Instance Sample.platform.

Definition mixed : Topic.t := Topic.mk 1 "Mixed" false.
Definition travel : Topic.t := Topic.mk 2 "Travel" true.
Definition cat : EntryOut.t := EntryOut.mk 5 "cat" "a small animal" "gato".
Definition dog : EntryOut.t := EntryOut.mk 6 "dog" "a loyal animal" "perro".

Definition catDetail : EntryDetail.t :=
  EntryDetail.mk cat [ExampleOut.mk 1 "The cat sleeps." 1].

(** A search result whose primary topic is [idioms], a topic the server
    added after the page loaded its topics. *)
Definition idiom : SearchEntry.t :=
  SearchEntry.mk (EntryOut.mk 9 "cat nap" "a short sleep" "siesta")
                 (Some (7, "Idioms")) (Some [7]).

(** A search result of a topic the page knows. *)
Definition trip : SearchEntry.t :=
  SearchEntry.mk (EntryOut.mk 8 "trip" "a journey" "viaje")
                 (Some (2, "Travel")) (Some [2]).

(** The component after mounting with an empty storage. *)
Definition started : State := (mount ∅ 0).1.

Definition topicsArrive : Event := TopicsSettled (respond [mixed; travel]).

(** The topics have arrived. *)
Definition loaded : State := (step started topicsArrive).1.

Definition dogDetail : EntryDetail.t :=
  EntryDetail.mk dog [ExampleOut.mk 2 "The dog barks." 1].

(** The first card is shown; the user goes to the second card and back
    before the detail of the second card has arrived. *)
Definition browsing : list Event :=
  [topicsArrive; EntriesSettled (respond [cat; dog]);
   DetailSettled CardDetail 1 (respond catDetail); ClickNext; ClickPrev].

(** The user types a query, waits and gets [results]. *)
Definition searching (text : string) (results : list SearchEntry.t) : list Event :=
  [SearchInput text; TimePasses 250; TimerFires; SearchSettled (respond results)].

(** The search of the user fails with status 500. *)
Definition searchFails : list Event :=
  [SearchInput "cat"; TimePasses 250; TimerFires; SearchSettled (respondError 500)].

(** The user types and waits, and waits again. *)
Definition waiting : list Event :=
  [TimePasses 100; TimePasses 150; TimerFires; TimePasses 300; TimerFires].


(** The only topic of the server has id 0. *)
Definition zeroArrives : Event := TopicsSettled (respond [Topic.mk 0 "Mixed" false]).

(** An entry with three examples, the second and the third of rank 1. *)
Definition napDetail : EntryDetail.t :=
  EntryDetail.mk (EntryOut.mk 9 "cat nap" "a short sleep" "siesta")
    [ExampleOut.mk 11 "He naps at noon." 2;
     ExampleOut.mk 12 "A short nap helps." 1;
     ExampleOut.mk 13 "Cats nap a lot." 1].

(** The card of the first entry is on screen. *)
Definition shown : State :=
  (run started [topicsArrive; EntriesSettled (respond [cat; dog]);
                DetailSettled CardDetail 1 (respond catDetail)]).1.

(** The same with [Flashcard3D]: the card of the first entry is mounted. *)
Definition onScreen : Screen :=
  (screenRun {| main := started; card3D := None |}
     [OfMain topicsArrive; OfMain (EntriesSettled (respond [cat; dog]));
      OfMain (DetailSettled CardDetail 1 (respond catDetail))]).1.

(** The user turned the card over and asked for the Spanish meaning. *)
Definition reading : Screen :=
  (screenRun onScreen [OfMain ClickFlip; ClickShowSpanish]).1.

(** The topic modal is open. *)
Definition choosing : State := (step loaded ClickSelectTopicButton).1.

(** The search for "trip" found an entry of topic 2 that is not in the list
    on screen. *)
Definition found : State := (run shown (searching "trip" [trip])).1.

Definition tripDetail : EntryDetail.t :=
  EntryDetail.mk (SearchEntry.entry trip) [ExampleOut.mk 3 "Have a nice trip." 1].

(** The same, the entry being in the list on screen as well. *)
Definition foundOnScreen : State :=
  (run started ([topicsArrive; EntriesSettled (respond [cat; SearchEntry.entry trip]);
                 DetailSettled CardDetail 1 (respond catDetail)]
                ++ searching "trip" [trip])).1.

(** A search result of the selected topic that is in the list, and one
    without a topic that is not. *)
Definition dogResult : SearchEntry.t := SearchEntry.mk dog (Some (1, "Mixed")) (Some [1]).

Definition owlResult : SearchEntry.t :=
  SearchEntry.mk (EntryOut.mk 7 "owl" "a night bird" "buho") None None.

Definition foundBoth : State := (run shown (searching "o" [dogResult; owlResult])).1.

(** A storage that remembers topic 1 twice. *)
Definition doubled : gmap string string := {[ YOUR_TOPICS_KEY := "[1,1]" ]}.

(** A storage that remembers the topics 2 and 1, in this order. *)
Definition reordered : gmap string string := {[ YOUR_TOPICS_KEY := "[2,1]" ]}.

(** [App] with nobody signed in, and with a user. *)
Definition ana : AuthUser.t := AuthUser.mk 1 "ana@example.com" (Some "Ana") None.

Definition landing : AppState := (appStep appMount.1 (MeSettled (respondError 401))).1.

Definition signedIn : AppState := (appStep appMount.1 (MeSettled (respond ana))).1.

End Session.

(** * More vocabulary *)

Section MoreVocabulary.
Context `{!Platform}.

(** ** The card view *)

(** The first and the last character of a string. *)
Definition firstChar (s : string) : option ascii :=
  match s with
  | String c _ => Some c
  | EmptyString => None
  end.

Fixpoint lastChar (s : string) : option ascii :=
  match s with
  | String c rest =>
      match lastChar rest with
      | None => Some c
      | found => found
      end
  | EmptyString => None
  end.

(** No double quote at either end. *)
Definition bareEnds (s : string) : Prop :=
  firstChar s ≠ Some dquote /\ lastChar s ≠ Some dquote.

(** Sorted by rank: every example is followed by examples of the same or a
    greater rank only. *)
Fixpoint byRank (examples : list ExampleOut.t) : Prop :=
  match examples with
  | [] => True
  | x :: rest =>
      Forall (fun e => ExampleOut.rank x ≤ ExampleOut.rank e) rest /\ byRank rest
  end.

(** ** The selected topic *)

(** The selected topic, if any, is a topic the app knows. *)
Definition selectionKnown (s : State) : Prop :=
  forall t, selectedTopicId s = Some t -> t ∈ Topic.id <$> topics s.

(** The topics and the selected one. *)
Definition selection (s : State) : list Topic.t * option Z :=
  (topics s, selectedTopicId s).

(** ** The jump to a search result *)

(** The dropdown shows [item] among its results, so that it can be clicked. *)
Definition resultOnScreen (s : State) (item : SearchEntry.t) : Prop :=
  searchOpen s = true /\ searchLoading s = false /\ item ∈ searchResults s.

(** The call that fetches the detail of entry [id] for the card, with
    request id [requestId]. *)
Definition cardDetailCall (id requestId : Z) : Call :=
  {| request := apiGet_fetch ("/entries/" +:+ toString id);
     continuation := AfterDetail CardDetail requestId |}.

(** The call that fetches the detail of entry [id] for a pending jump, the
    entry not being in the list, with request id [requestId]. *)
Definition jumpFallbackCall (id requestId : Z) : Call :=
  {| request := apiGet_fetch ("/entries/" +:+ toString id);
     continuation := AfterDetail JumpFallback requestId |}.

(** What the effects of a click on a search result leave alone: the
    dependencies, the detail on the card and the list. *)
Definition shownCard (s : State)
  : (option Z * option Z * nat * Z * string) * option EntryDetail.t * list EntryOut.t :=
  (deps s, entryDetail s, entries s).

(** The index, the list it points into and the pending jump. *)
Definition jumpState (s : State) : list EntryOut.t * Z * option Z :=
  (entries s, currentIndex s, pendingJumpEntryId s).

(** The topic a search result points to is none, or the selected one. *)
Definition resultInTopic (s : State) (item : SearchEntry.t) : Prop :=
  match SearchEntry.primary_topic item with
  | Some (t, _) => t = 0 \/ selectedTopicId s = Some t
  | None => True
  end.

(** The call that fetches the detail of entry [id] for a search result that
    is not in the list, with request id [requestId]. *)
Definition searchFallbackCall (id requestId : Z) : Call :=
  {| request := apiGet_fetch ("/entries/" +:+ toString id);
     continuation := AfterDetail SearchFallback requestId |}.

(** No error, and loading. *)
Definition loadingCleanly (s : State) : Prop := errMsg s = None /\ loading s = true.

(** What the search effect and the detail effect leave alone. *)
Definition topicAndList (s : State)
  : option Z * list Z * gmap string string * list EntryOut.t * option Z :=
  (selectedTopicId s, yourTopicIds s, localStorage s, entries s, pendingJumpEntryId s).

(** What a move to the card at [index] does, the detail of entry [e] being
    fetched with the next request id. *)
Definition moved (s : State) (index : Z) (e : EntryOut.t) (r : State * list Call) : Prop :=
  currentIndex r.1 = index /\ entries r.1 = entries s /\ isFlipped r.1 = false /\
  entryDetailReqRef r.1 = entryDetailReqRef s + 1 /\
  entryDetail r.1 = entryDetail s /\ errMsg r.1 = None /\ loading r.1 = true /\
  r.2 = [{| request := apiGet_fetch ("/entries/" +:+ toString (EntryOut.id e));
            continuation := AfterDetail CardDetail (entryDetailReqRef s + 1) |}].


End MoreVocabulary.
(** * Properties *)

(** ** Reasoning about actions *)

Section Actions.
Context `{!Platform}.


#[global] Instance keeps_compositional {A : Type} (f : State -> A) :
  Compositional (keeps f).
Proof. split; unfold keeps; [done | intros; congruence]. Qed.

#[global] Instance issuesOnly_compositional (P : Call -> Prop) :
  Compositional (issuesOnly P).
Proof.
  split; unfold issuesOnly; [by constructor | intros; by apply Forall_app].
Qed.

#[global] Instance maintains_compositional (I : State -> Prop) :
  Compositional (maintains I).
Proof. split; unfold maintains; auto. Qed.

Lemma andThen_eq (a b : Action) (s : State) :
  (a >> b) s = ((b (a s).1).1, (a s).2 ++ (b (a s).1).2).
Proof.
  unfold andThen. destruct (a s) as [s1 c1]. cbn [fst snd].
  destruct (b s1); reflexivity.
Qed.

Lemma respects_skip R `{!Compositional R} : respects R skip.
Proof. intros s. apply comp_skip. Qed.

Lemma respects_andThen R `{!Compositional R} (a b : Action) :
  respects R a -> respects R b -> respects R (a >> b).
Proof.
  intros Ha Hb s. rewrite andThen_eq. cbn [fst snd].
  eapply comp_seq; [apply Ha | apply Hb].
Qed.

Lemma respects_ifTruthy R `{!Compositional R} x yes no :
  (forall n, x = Some n -> n ≠ 0 -> respects R (yes n)) ->
  respects R no ->
  respects R (ifTruthy x yes no).
Proof.
  intros Hyes Hno. destruct x as [n|]; cbn; [|done].
  destruct (Z.eqb_spec n 0); [done|]. by apply Hyes.
Qed.

Lemma rerender_eq (n : nat) (prev cur : State) :
  rerender (S n) prev cur =
    ((rerender n cur (runEffects prev cur cur).1).1,
     (runEffects prev cur cur).2 ++ (rerender n cur (runEffects prev cur cur).1).2).
Proof.
  cbn [rerender]. destruct (runEffects prev cur cur) as [next calls].
  cbn [fst snd]. destruct (rerender n cur next); reflexivity.
Qed.

Lemma step_eq (s : State) (ev : Event) :
  step s ev =
    ((rerender 2 s (handle ev s s).1).1,
     (handle ev s s).2 ++ (rerender 2 s (handle ev s s).1).2).
Proof. unfold step, commit. destruct (rerender 2 s _); reflexivity. Qed.

Lemma run_eq (s : State) (ev : Event) (evs : list Event) :
  run s (ev :: evs) =
    ((run (step s ev).1 evs).1, (step s ev).2 ++ (run (step s ev).1 evs).2).
Proof.
  cbn [run]. destruct (step s ev) as [s1 c]. cbn [fst snd].
  destruct (run s1 evs); reflexivity.
Qed.

Lemma run_cons_fst (s : State) (ev : Event) (evs : list Event) :
  (run s (ev :: evs)).1 = (run (step s ev).1 evs).1.
Proof. by rewrite run_eq. Qed.

Lemma run_cons_snd (s : State) (ev : Event) (evs : list Event) :
  (run s (ev :: evs)).2 = (step s ev).2 ++ (run (step s ev).1 evs).2.
Proof. by rewrite run_eq. Qed.

Lemma run_nil (s : State) : run s [] = (s, []).
Proof. reflexivity. Qed.

Lemma run_single (s : State) (ev : Event) : run s [ev] = step s ev.
Proof. rewrite run_eq. cbn [run fst snd]. rewrite app_nil_r. by destruct (step s ev). Qed.

Lemma run_app (s : State) (evs1 evs2 : list Event) :
  run s (evs1 ++ evs2) =
    ((run (run s evs1).1 evs2).1, (run s evs1).2 ++ (run (run s evs1).1 evs2).2).
Proof.
  revert s. induction evs1 as [|ev evs1 IH]; intros s.
  - cbn. by destruct (run s evs2).
  - rewrite <- app_comm_cons, !run_eq, IH. cbn [fst snd]. by rewrite app_assoc.
Qed.

Lemma respects_rerender R `{!Compositional R} :
  (forall prev cur, respects R (runEffects prev cur)) ->
  forall n prev cur, R cur (rerender n prev cur).2 (rerender n prev cur).1.
Proof.
  intros He n. induction n as [|n IH]; intros prev cur.
  - apply comp_skip.
  - rewrite rerender_eq. cbn [fst snd]. eapply comp_seq; [apply He | apply IH].
Qed.

Lemma respects_step R `{!Compositional R} :
  (forall ev render, respects R (handle ev render)) ->
  (forall prev cur, respects R (runEffects prev cur)) ->
  forall s ev, R s (step s ev).2 (step s ev).1.
Proof.
  intros Hh He s ev. rewrite step_eq. cbn [fst snd].
  eapply comp_seq; [apply Hh | by apply respects_rerender].
Qed.

Lemma respects_run R `{!Compositional R} :
  (forall ev render, respects R (handle ev render)) ->
  (forall prev cur, respects R (runEffects prev cur)) ->
  forall evs s, R s (run s evs).2 (run s evs).1.
Proof.
  intros Hh He evs. induction evs as [|ev evs IH]; intros s.
  - apply comp_skip.
  - rewrite run_eq. cbn [fst snd].
    eapply comp_seq; [exact (respects_step R Hh He s ev) | apply IH].
Qed.

End Actions.

(** Splitting an action along its sequencing and its branches. *)
Ltac split_action :=
  repeat match goal with
  | |- respects _ (_ >> _) => apply respects_andThen; [tc_solve | |]
  | |- respects _ skip => apply respects_skip; tc_solve
  | |- respects _ (ifTruthy _ _ _) =>
      apply respects_ifTruthy; [tc_solve | intros ? ? ? |]
  | |- respects _ (if ?c then _ else _) => destruct c eqn:?
  | |- respects _ (match ?x with _ => _ end) => destruct x eqn:?
  end.

(** A state made explicit, so that every field read computes. *)
Ltac explode_state s :=
  let f1 := fresh "flipped" in
  let f2 := fresh "modalOpen" in
  let f3 := fresh "topicList" in
  let f4 := fresh "selected" in
  let f5 := fresh "yours" in
  let f6 := fresh "entryList" in
  let f7 := fresh "index" in
  let f8 := fresh "detail" in
  let f9 := fresh "busy" in
  let f10 := fresh "err" in
  let f11 := fresh "query" in
  let f12 := fresh "results" in
  let f13 := fresh "opened" in
  let f14 := fresh "searching" in
  let f15 := fresh "reqRef" in
  let f16 := fresh "pending" in
  let f17 := fresh "listRef" in
  let f18 := fresh "modalSt" in
  let f19 := fresh "storage" in
  let f20 := fresh "timer" in
  let f21 := fresh "clock" in
  destruct s as
    [f1 f2 f3 f4 f5 f6 f7 f8 f9 f10 f11 f12 f13 f14 f15 f16 f17 f18 f19 f20 f21].

Ltac explode_states :=
  repeat match goal with s : State |- _ => explode_state s end.

(** Unfolding the code of the component down to state updates. *)
Ltac unfold_actions :=
  cbv beta iota zeta delta
    [andThen update skip await ifTruthy unlessStale negb
     bumpRequestId withNextRequestId
     localStorage_setItem localStorage_removeItem
     window_setTimeout window_clearTimeout
     setIsFlipped setIsTopicModalOpen setTopics setSelectedTopicId
     setYourTopicIds setEntries setCurrentIndex setEntryDetail setLoading
     setErrMsg setSearchQuery setSearchResults setSearchOpen setSearchLoading
     setEntryDetailReqRef setPendingJumpEntryId setModal setLocalStorage
     setSearchTimer setNow
     addToYourTopics resetYourTopics effectTopics topicsFailed topicsLoaded
     topicsSettled effectEntries entriesSettled effectJump jumpDetailSettled
     effectDetail cardDetailSettled effectSearch searchTimeout searchSettled
     selectSearchResult searchDetailSettled goPrev goNext detailSettled
     isFlipped isTopicModalOpen topics selectedTopicId yourTopicIds entries
     currentIndex entryDetail loading errMsg searchQuery searchResults
     searchOpen searchLoading entryDetailReqRef pendingJumpEntryId entriesRef
     modal localStorage searchTimer now] in *;
  cbn [fst snd] in *.

(** A case split on a test of the goal that contains no other test. *)
Ltac case_test :=
  match goal with
  | |- context [match ?x with _ => _ end] =>
      lazymatch x with
      | context [match _ with _ => _ end] => fail
      | _ => destruct x eqn:?
      end
  end.

(** Running an action symbolically: unfold, then split on each test. *)
Ltac run_action :=
  explode_states; repeat (unfold_actions; try case_test; simplify_eq).

(** An action that leaves a field alone, by running it. *)
Ltac frame :=
  split_action;
  try (intros ?; unfold keeps; run_action; reflexivity).

Section Properties.
Context `{!Platform}.

(** ** Effects that have nothing to do *)

Lemma changed_same {A : Type} `{EqDecision A} (dep : State -> A) (prev cur : State) :
  dep prev = dep cur -> changed dep prev cur = false.
Proof. intros Heq. unfold changed. by rewrite bool_decide_eq_true_2. Qed.

Lemma runEffects_same_deps (prev cur s : State) :
  deps prev = deps cur -> runEffects prev cur s = (s, []).
Proof.
  unfold deps. intros [= H1 H2 H3 H4 H5]. unfold runEffects.
  rewrite !changed_same by done. reflexivity.
Qed.

Lemma rerender_same_deps (n : nat) (prev cur : State) :
  deps prev = deps cur -> rerender n prev cur = (cur, []).
Proof.
  revert prev. induction n as [|n IH]; intros prev Hd; [done|].
  rewrite rerender_eq, runEffects_same_deps by done. cbn [fst snd].
  by rewrite IH.
Qed.

Lemma commit_same_deps (prev : State) (handled : State * list Call) :
  deps prev = deps handled.1 -> commit prev handled = handled.
Proof.
  intros Hd. unfold commit. rewrite rerender_same_deps by done.
  destruct handled. cbn. by rewrite app_nil_r.
Qed.

Lemma commit_fst (prev : State) (handled : State * list Call) :
  (commit prev handled).1 = (rerender 2 prev handled.1).1.
Proof. unfold commit. by destruct (rerender 2 prev handled.1). Qed.

Lemma commit_snd (prev : State) (handled : State * list Call) :
  (commit prev handled).2 = handled.2 ++ (rerender 2 prev handled.1).2.
Proof. unfold commit. by destruct (rerender 2 prev handled.1). Qed.

(** ** Two rounds of effects are enough *)

#[global] Instance jumpSettles_compositional (cur : State) :
  Compositional (jumpSettles cur).
Proof.
  split; unfold jumpSettles, deps.
  - intros s. by left.
  - intros s c1 s1 c2 s2 [H1 | [Ht H1]] [H2 | [Ht' H2]]; try (right; by split).
    + left. congruence.
    + right. split; [done|]. injection H2 as _ -> _ _ _. exact H1.
Qed.

(** Only the jump effect changes a dependency, when a jump is pending, and
    then no jump is pending any more. *)
Lemma effectJump_jumpSettles (cur : State) :
  respects (jumpSettles cur) (effectJump cur).
Proof.
  intros s. unfold effectJump, jumpSettles, deps, truthy. run_action.
  all: first [by left | by right].
Qed.

Lemma runEffects_jumpSettles (prev cur : State) :
  respects (jumpSettles cur) (runEffects prev cur).
Proof.
  unfold runEffects. split_action; try apply effectJump_jumpSettles.
  all: unfold effectEntries, effectDetail, effectSearch; split_action.
  all: intros s; unfold jumpSettles, deps; run_action; by left.
Qed.

(** A third round finds the dependencies as the second round left them. *)
Lemma rerender_settles (n : nat) (prev cur : State) :
  rerender (S (S n)) prev cur = rerender 2 prev cur.
Proof.
  rewrite !(rerender_eq (S _)), !(rerender_eq _ cur).
  set (s1 := (runEffects prev cur cur).1).
  set (s2 := (runEffects cur s1 s1).1).
  assert (Hsteady : deps s1 = deps s2).
  { destruct (runEffects_jumpSettles cur s1 s1) as [Hd | [Htruthy _]]; [done|].
    destruct (runEffects_jumpSettles prev cur cur) as [Hd | [_ Hnone]].
    - unfold s2. by rewrite runEffects_same_deps.
    - fold s1 in Hnone. by rewrite Hnone in Htruthy. }
  by rewrite !rerender_same_deps.
Qed.

(** ** Adding to "Your topics" *)

Lemma addToYourTopics_known (topicId : Z) (s : State) :
  topicId ∈ yourTopicIds s -> addToYourTopics topicId s = (s, []).
Proof.
  intros Hin. unfold addToYourTopics, includes.
  by rewrite bool_decide_eq_true_2.
Qed.

Lemma addToYourTopics_new (topicId : Z) (s : State) :
  topicId ∉ yourTopicIds s ->
  yourTopicIds (addToYourTopics topicId s).1 = yourTopicIds s ++ [topicId] /\
  localStorage (addToYourTopics topicId s).1 =
    <[YOUR_TOPICS_KEY := JSON_stringify (yourTopicIds s ++ [topicId])]> (localStorage s) /\
  (addToYourTopics topicId s).2 = [].
Proof.
  intros Hin. unfold addToYourTopics, includes.
  rewrite bool_decide_eq_false_2 by done. by explode_state s.
Qed.

(** ** The card index stays in bounds *)

Lemma findIndex_bounds {A : Type} (p : A -> bool) (xs : list A) :
  findIndex p xs = -1 \/ 0 ≤ findIndex p xs < Z.of_nat (length xs).
Proof.
  induction xs as [|x xs IH]; cbn [findIndex length]; [by left|].
  destruct (p x); [right; lia|].
  destruct (Z.ltb_spec (findIndex p xs) 0); [by left | right; lia].
Qed.

#[global] Instance rendersInBounds_compositional (render : State) :
  Compositional (rendersInBounds render).
Proof.
  split; unfold rendersInBounds.
  - intros s Hs. by split.
  - intros s c1 s1 c2 s2 H1 H2 Hs. destruct (H1 Hs) as [Hs1 Hi1].
    destruct (H2 Hs1) as [Hs2 Hi2]. split; [done | auto].
Qed.

(** A found index, tested non-negative, points into the list. *)
Ltac found_index :=
  match goal with H : (0 <=? _) = true |- _ => apply Z.leb_le in H end;
  match goal with
  | |- context [findIndex ?p ?l] => destruct (findIndex_bounds p l)
  end;
  lia.

Lemma effectJump_inBounds (render : State) :
  respects (rendersInBounds render) (effectJump render).
Proof.
  unfold effectJump. split_action.
  all: intros s; unfold rendersInBounds, indexInBounds; run_action;
    intros Hent; (split; [exact Hent|]); try done.
  intros _. subst. found_index.
Qed.

Lemma runEffects_inBounds (prev cur : State) :
  respects (rendersInBounds cur) (runEffects prev cur).
Proof.
  unfold runEffects. split_action; try apply effectJump_inBounds.
  all: unfold effectEntries, effectDetail, effectSearch; split_action.
  all: intros s; unfold rendersInBounds, indexInBounds; run_action;
    intros Hent; (split; [exact Hent|]); try done.
Qed.

Lemma mountEffects_inBounds (render : State) :
  respects (rendersInBounds render) (mountEffects render).
Proof.
  unfold mountEffects. split_action; try apply effectJump_inBounds.
  all: unfold effectTopics, effectEntries, effectDetail, effectSearch; split_action.
  all: intros s; unfold rendersInBounds, indexInBounds; run_action;
    intros Hent; (split; [exact Hent|]); try done.
Qed.

Lemma goPrev_inBounds (s : State) :
  indexInBounds s -> indexInBounds (goPrev s s).1.
Proof.
  unfold indexInBounds, goPrev, canPrev. intros Hb.
  destruct (Z.ltb_spec 0 (currentIndex s)); cbn [negb]; [|done].
  run_action. lia.
Qed.

Lemma goNext_inBounds (s : State) :
  indexInBounds s -> indexInBounds (goNext s s).1.
Proof.
  unfold indexInBounds, goNext, canNext. intros Hb.
  destruct (Z.ltb_spec (currentIndex s) (Z.of_nat (length (entries s)) - 1));
    cbn [negb]; [|done].
  run_action. lia.
Qed.

Lemma keeps_position_inBounds (a : Action) (s : State) :
  respects (keeps cardPosition) a -> indexInBounds s -> indexInBounds (a s).1.
Proof.
  intros Ha. specialize (Ha s). unfold keeps, cardPosition in Ha.
  unfold indexInBounds. by injection Ha as -> ->.
Qed.

Lemma selectSearchResult_inBounds (s : State) (item : SearchEntry.t) :
  indexInBounds s -> indexInBounds (selectSearchResult s item s).1.
Proof.
  unfold indexInBounds, selectSearchResult. intros Hb.
  run_action; try done. all: found_index.
Qed.

Lemma handle_inBounds (ev : Event) (s : State) :
  indexInBounds s -> indexInBounds (handle ev s s).1.
Proof.
  intros Hb. destruct ev; cbn [handle].
  all: try (apply keeps_position_inBounds; [|done];
            unfold detailSettled, cardPosition; frame; fail).
  - unfold indexInBounds in *. run_action; try done. lia.
  - repeat case_match; try done. by apply selectSearchResult_inBounds.
  - repeat case_match; try done. by apply goPrev_inBounds.
  - repeat case_match; try done. by apply goNext_inBounds.
Qed.

Lemma rerender_inBounds (n : nat) (prev cur : State) :
  indexInBounds cur -> indexInBounds (rerender n prev cur).1.
Proof.
  revert prev cur. induction n as [|n IH]; intros prev cur Hb; [done|].
  rewrite rerender_eq. cbn [fst snd]. apply IH.
  destruct (runEffects_inBounds prev cur cur eq_refl) as [_ Hb']. auto.
Qed.

Lemma step_inBounds (s : State) (ev : Event) :
  indexInBounds s -> indexInBounds (step s ev).1.
Proof.
  intros Hb. rewrite step_eq. cbn [fst snd].
  by apply rerender_inBounds, handle_inBounds.
Qed.

Lemma run_inBounds (evs : list Event) (s : State) :
  indexInBounds s -> indexInBounds (run s evs).1.
Proof.
  revert s. induction evs as [|ev evs IH]; intros s Hb; [done|].
  rewrite run_eq. cbn [fst snd]. by apply IH, step_inBounds.
Qed.

Lemma mount_inBounds (storage : gmap string string) (clock : Z) :
  indexInBounds (mount storage clock).1.
Proof.
  unfold mount. rewrite commit_fst. apply rerender_inBounds.
  destruct (mountEffects_inBounds (initialState storage clock)
              (initialState storage clock) eq_refl) as [_ Hb].
  apply Hb. unfold indexInBounds. cbn. lia.
Qed.

(** C9. Card navigation keeps the index in bounds: in every state the
    component reaches with a non-empty entries list, the index is within
    [0, entries.length - 1] and [goPrev] and [goNext] leave it there; [goPrev]
    does nothing at index 0, [goNext] nothing at the last index, and otherwise
    they move the index by exactly one and unflip the card. *)
Theorem navigation_keeps_index_in_bounds
    (storage : gmap string string) (clock : Z) (evs : list Event) :
  let s := (run (mount storage clock).1 evs).1 in
  let last := Z.of_nat (length (entries s)) - 1 in
  entries s ≠ [] ->
  0 ≤ currentIndex s ≤ last /\
  0 ≤ currentIndex (goPrev s s).1 ≤ last /\
  0 ≤ currentIndex (goNext s s).1 ≤ last /\
  entries (goPrev s s).1 = entries s /\
  entries (goNext s s).1 = entries s /\
  (currentIndex s = 0 -> goPrev s s = (s, [])) /\
  (currentIndex s = last -> goNext s s = (s, [])) /\
  (currentIndex s ≠ 0 ->
     currentIndex (goPrev s s).1 = currentIndex s - 1 /\
     isFlipped (goPrev s s).1 = false) /\
  (currentIndex s ≠ last ->
     currentIndex (goNext s s).1 = currentIndex s + 1 /\
     isFlipped (goNext s s).1 = false).
Proof.
  intros s last Hne.
  assert (Hb : indexInBounds s) by apply run_inBounds, mount_inBounds.
  assert (Hlen : 0 ≤ last).
  { subst last. destruct (entries s); [done | cbn [length]; lia]. }
  clearbody s. unfold indexInBounds in Hb. fold last in Hb.
  unfold goPrev, goNext, canPrev, canNext. fold last.
  destruct (Z.ltb_spec 0 (currentIndex s));
    destruct (Z.ltb_spec (currentIndex s) last); cbn [negb].
  all: subst last; explode_state s; unfold_actions.
  all: split_and!; try done; try lia; intros; split; (done || lia).
Qed.

(** ** Request ids of the entry-detail fetches *)

Lemma ascending_weaken (lo lo' hi : Z) (ids : list Z) :
  lo ≤ lo' -> ascending lo' ids hi -> ascending lo ids hi.
Proof. destruct ids as [|r rest]; cbn; [lia | intros ? [? ?]; split; [lia | done]]. Qed.

Lemma ascending_app (lo mid hi : Z) (ids1 ids2 : list Z) :
  ascending lo ids1 mid -> ascending mid ids2 hi -> ascending lo (ids1 ++ ids2) hi.
Proof.
  revert lo. induction ids1 as [|r rest IH]; intros lo; cbn.
  - intros Hle. by apply ascending_weaken.
  - intros [Hlt Hrest] H2. split; [done | by apply IH].
Qed.

Lemma ascending_bounds (lo hi : Z) (ids : list Z) :
  ascending lo ids hi -> lo ≤ hi /\ forall r, r ∈ ids -> lo < r ≤ hi.
Proof.
  revert lo. induction ids as [|r rest IH]; intros lo; cbn.
  - intros Hle. split; [done|]. intros r Hr. by apply not_elem_of_nil in Hr.
  - intros [Hlt Hrest]. destruct (IH _ Hrest) as [Hle Hall]. split; [lia|].
    intros r' [->|Hin]%elem_of_cons; [lia|]. specialize (Hall _ Hin). lia.
Qed.

Lemma ascending_later (lo hi r r' : Z) (before after : list Z) :
  ascending lo (before ++ r :: after) hi -> r' ∈ after -> r < r' ≤ hi.
Proof.
  revert lo. induction before as [|b before IH]; intros lo; cbn.
  - intros [_ Hrest] Hin. destruct (ascending_bounds _ _ _ Hrest) as [_ Hall]. auto.
  - intros [_ Hrest]. by apply (IH b).
Qed.

Lemma detailIds_continuations (calls : list Call) :
  detailIds calls = omap detailId (continuation <$> calls).
Proof.
  unfold detailIds. induction calls as [|c calls IH]; [done|].
  cbn. rewrite IH. reflexivity.
Qed.

Lemma detailIds_app (c1 c2 : list Call) :
  detailIds (c1 ++ c2) = detailIds c1 ++ detailIds c2.
Proof. unfold detailIds. apply omap_app. Qed.

#[global] Instance handsOutIds_compositional : Compositional handsOutIds.
Proof.
  split; unfold handsOutIds.
  - intros s. cbn. lia.
  - intros s c1 s1 c2 s2 H1 H2. rewrite detailIds_app. by eapply ascending_app.
Qed.

(** Running an action and checking the ids it hands out. *)
Ltac hands_out :=
  split_action;
  try (intros ?; unfold handsOutIds; run_action; cbn; lia).

Lemma runEffects_handsOutIds (prev cur : State) :
  respects handsOutIds (runEffects prev cur).
Proof.
  unfold runEffects. split_action.
  all: unfold effectEntries, effectJump, effectDetail, effectSearch; hands_out.
Qed.

Lemma handle_handsOutIds (ev : Event) (render : State) :
  respects handsOutIds (handle ev render).
Proof.
  destruct ev; cbn [handle]; unfold detailSettled; hands_out.
Qed.

Lemma run_handsOutIds (evs : list Event) (s : State) :
  ascending (entryDetailReqRef s) (detailIds (run s evs).2)
            (entryDetailReqRef (run s evs).1).
Proof.
  apply (respects_run handsOutIds handle_handsOutIds runEffects_handsOutIds).
Qed.

Lemma detailSettled_stale (site : DetailSite) (r : Z)
    (fetched : Settled (Response EntryDetail.t)) (s : State) :
  r ≠ entryDetailReqRef s -> detailSettled site r fetched s = (s, []).
Proof.
  intros Hne. destruct site; cbn [detailSettled].
  all: run_action; try done.
  all: by match goal with H : bool_decide _ = true |- _ =>
            apply bool_decide_eq_true_1 in H end.
Qed.

Lemma step_stale (site : DetailSite) (r : Z)
    (fetched : Settled (Response EntryDetail.t)) (s : State) :
  r ≠ entryDetailReqRef s -> step s (DetailSettled site r fetched) = (s, []).
Proof.
  intros Hne. unfold step. cbn [handle].
  rewrite detailSettled_stale by done. by apply commit_same_deps.
Qed.

(** C1. Stale-response suppression: a response to an [/entries/{id}] fetch
    whose request id is no longer the value of the request counter changes
    nothing, whether the fetch succeeded or failed, so [entryDetail], [errMsg]
    and [loading] stay as they are; and once a later detail fetch has been
    issued, the earlier request id is no longer the counter. *)
Theorem stale_detail_response_is_discarded :
  (forall (s : State) (site : DetailSite) (r : Z) fetched,
     r ≠ entryDetailReqRef s ->
     step s (DetailSettled site r fetched) = (s, [])) /\
  (forall (s : State) (evs : list Event) (site site' : DetailSite) (r r' : Z)
          (before after : list Continuation) fetched,
     continuation <$> (run s evs).2 = before ++ AfterDetail site r :: after ->
     AfterDetail site' r' ∈ after ->
     let s' := (run s evs).1 in
     r ≠ entryDetailReqRef s' /\
     step s' (DetailSettled site r fetched) = (s', []) /\
     entryDetail (step s' (DetailSettled site r fetched)).1 = entryDetail s' /\
     errMsg (step s' (DetailSettled site r fetched)).1 = errMsg s' /\
     loading (step s' (DetailSettled site r fetched)).1 = loading s').
Proof.
  split; [intros; by apply step_stale|].
  intros s evs site site' r r' before after fetched Hcalls Hin s'.
  assert (Hne : r ≠ entryDetailReqRef s').
  { pose proof (run_handsOutIds evs s) as Hasc.
    assert (Hids : detailIds (run s evs).2 =
                   omap detailId before ++ r :: omap detailId after).
    { by rewrite detailIds_continuations, Hcalls, omap_app. }
    rewrite Hids in Hasc.
    assert (Hr' : r' ∈ omap detailId after).
    { apply list_elem_of_omap. by exists (AfterDetail site' r'). }
    pose proof (ascending_later _ _ _ _ _ _ Hasc Hr'). subst s'. lia. }
  rewrite step_stale by done. done.
Qed.

(** ** What the effects leave alone *)

Lemma runEffects_keeps_topicChoice (prev cur : State) :
  respects (keeps topicChoice) (runEffects prev cur).
Proof.
  unfold runEffects. split_action.
  all: unfold effectEntries, effectJump, effectDetail, effectSearch, topicChoice; frame.
Qed.

Lemma rerender_keeps_topicChoice (n : nat) (prev cur : State) :
  topicChoice (rerender n prev cur).1 = topicChoice cur.
Proof.
  apply (respects_rerender (keeps topicChoice) runEffects_keeps_topicChoice).
Qed.

Lemma step_topicChoice (s : State) (ev : Event) :
  topicChoice (step s ev).1 = topicChoice (handle ev s s).1.
Proof. rewrite step_eq. cbn [fst snd]. apply rerender_keeps_topicChoice. Qed.

Lemma runEffects_keeps_unflipped (prev cur : State) :
  respects (maintains (fun s => isFlipped s = false)) (runEffects prev cur).
Proof.
  unfold runEffects. split_action.
  all: unfold effectEntries, effectJump, effectDetail, effectSearch; split_action.
  all: intros ?; unfold maintains; run_action; done.
Qed.

Lemma rerender_keeps_unflipped (n : nat) (prev cur : State) :
  isFlipped cur = false -> isFlipped (rerender n prev cur).1 = false.
Proof.
  apply (respects_rerender (maintains (fun s => isFlipped s = false))
           runEffects_keeps_unflipped).
Qed.

(** ** Selecting a topic *)

Lemma runEffects_topic_changed (prev cur acc : State) (t : Z) :
  t ≠ 0 ->
  selectedTopicId cur = Some t ->
  selectedTopicId prev ≠ Some t ->
  entriesCall t ∈ (runEffects prev cur acc).2 /\
  isFlipped (runEffects prev cur acc).1 = false.
Proof.
  intros Ht Hcur Hprev. unfold runEffects.
  assert (Hch : changed selectedTopicId prev cur = true).
  { unfold changed. rewrite bool_decide_eq_false_2; [done | congruence]. }
  rewrite Hch, andThen_eq. cbn [fst snd].
  assert (Hfirst : entriesCall t ∈ (effectEntries cur acc).2 /\
                   isFlipped (effectEntries cur acc).1 = false).
  { unfold effectEntries. rewrite Hcur. cbn [ifTruthy].
    destruct (Z.eqb_spec t 0); [done|]. explode_state acc. unfold_actions.
    split; [|done]. apply list_elem_of_singleton. reflexivity. }
  destruct Hfirst as [Hcall Hflip]. split.
  - apply elem_of_app. by left.
  - revert Hflip. generalize (effectEntries cur acc).1. intros s Hs.
    repeat (rewrite andThen_eq; cbn [fst snd]).
    repeat match goal with
    | |- context [if ?c then _ else _] => destruct c
    end.
    all: unfold effectJump, effectDetail, effectSearch; run_action; done.
Qed.

Lemma entriesSettled_respond (list : list EntryOut.t) (s : State) :
  let s' := (entriesSettled (respond list) s).1 in
  entries s' = list /\ currentIndex s' = 0 /\ loading s' = false /\
  isFlipped s' = isFlipped s /\ pendingJumpEntryId s' = pendingJumpEntryId s /\
  (entriesSettled (respond list) s).2 = [].
Proof. explode_state s. unfold entriesSettled, respond, apiGet. by unfold_actions. Qed.

Lemma effectJump_idle (render s : State) :
  truthy (pendingJumpEntryId render) = false -> effectJump render s = (s, []).
Proof.
  unfold effectJump, ifTruthy, truthy.
  destruct (pendingJumpEntryId render) as [n|]; [|done].
  destruct (n =? 0); done.
Qed.

Lemma runEffects_keeps_position (prev cur : State) :
  truthy (pendingJumpEntryId cur) = false ->
  respects (keeps cardPosition) (runEffects prev cur).
Proof.
  intros Hp. unfold runEffects. split_action.
  all: try (intros s; rewrite effectJump_idle by done; reflexivity).
  all: unfold effectEntries, effectDetail, effectSearch, cardPosition; frame.
Qed.

Lemma runEffects_keeps_pending_idle (prev cur : State) :
  truthy (pendingJumpEntryId cur) = false ->
  respects (keeps pendingJumpEntryId) (runEffects prev cur).
Proof.
  intros Hp. unfold runEffects. split_action.
  all: try (intros s; rewrite effectJump_idle by done; reflexivity).
  all: unfold effectEntries, effectDetail, effectSearch; frame.
Qed.

Lemma step_entries_loaded (s : State) (list : list EntryOut.t) :
  let s' := (step s (EntriesSettled (respond list))).1 in
  entries s' = list /\
  (isFlipped s = false -> isFlipped s' = false) /\
  (truthy (pendingJumpEntryId s) = false -> currentIndex s' = 0).
Proof.
  intros s'. subst s'. rewrite step_eq. cbn [fst snd handle].
  destruct (entriesSettled_respond list s) as (He & Hi & _ & Hf & Hp & _).
  set (s1 := (entriesSettled (respond list) s).1) in *.
  split_and!.
  - assert (Hr : forall n prev cur, entries (rerender n prev cur).1 = entries cur).
    { intros n prev cur.
      apply (respects_rerender (keeps entries)). clear.
      intros prev cur. unfold runEffects. split_action.
      all: unfold effectEntries, effectJump, effectDetail, effectSearch; frame. }
    by rewrite Hr.
  - intros Hs. apply rerender_keeps_unflipped. congruence.
  - intros Hidle. rewrite <- Hp in Hidle.
    rewrite rerender_eq. cbn [fst snd].
    pose proof (runEffects_keeps_position s s1 Hidle s1) as H1.
    pose proof (runEffects_keeps_pending_idle s s1 Hidle s1) as H1p.
    unfold keeps in H1, H1p.
    set (s2 := (runEffects s s1 s1).1) in *.
    rewrite rerender_eq. cbn [fst snd rerender].
    assert (Hidle2 : truthy (pendingJumpEntryId s2) = false) by by rewrite H1p.
    pose proof (runEffects_keeps_position s1 s2 Hidle2 s2) as H2.
    unfold keeps, cardPosition in H1, H2. congruence.
Qed.

(** A step that changes the selected topic to a non-zero id fetches the
    entries of that topic and leaves the card unflipped. *)
Lemma step_topic_changed (s : State) (ev : Event) (t : Z) :
  t ≠ 0 ->
  selectedTopicId s ≠ Some t ->
  selectedTopicId (step s ev).1 = Some t ->
  entriesCall t ∈ (step s ev).2 /\ isFlipped (step s ev).1 = false.
Proof.
  intros Ht Hold Hnew.
  assert (Hh : selectedTopicId (handle ev s s).1 = Some t).
  { pose proof (step_topicChoice s ev) as Hc. unfold topicChoice in Hc.
    injection Hc as _ Hc _ _. congruence. }
  rewrite step_eq. cbn [fst snd]. rewrite rerender_eq. cbn [fst snd].
  destruct (runEffects_topic_changed s (handle ev s s).1 (handle ev s s).1 t
              Ht Hh Hold) as [Hcall Hflip].
  split.
  - apply elem_of_app. right. apply elem_of_app. by left.
  - by apply rerender_keeps_unflipped.
Qed.

Lemma step_flip (s : State) :
  step s ClickFlip =
    if cardShown s then ((setIsFlipped (negb (isFlipped s)) s).1, []) else (s, []).
Proof.
  unfold step. cbn [handle].
  destruct (cardShown s); rewrite commit_same_deps; by explode_state s.
Qed.

Lemma runEffects_keeps_flip (prev cur : State) :
  selectedTopicId prev = selectedTopicId cur ->
  truthy (pendingJumpEntryId cur) = false ->
  respects (keeps isFlipped) (runEffects prev cur).
Proof.
  intros Hsel Hp. unfold runEffects. rewrite (changed_same selectedTopicId) by done.
  split_action.
  all: try (intros s; rewrite effectJump_idle by done; reflexivity).
  all: unfold effectDetail, effectSearch; frame.
Qed.

(** The entries arrive while no jump is pending: the card keeps its side. *)
Lemma step_entries_keeps_flip (s : State) (list : list EntryOut.t) :
  truthy (pendingJumpEntryId s) = false ->
  isFlipped (step s (EntriesSettled (respond list))).1 = isFlipped s.
Proof.
  intros Hidle. rewrite step_eq. cbn [fst snd handle].
  destruct (entriesSettled_respond list s) as (_ & _ & _ & Hf & Hp & _).
  assert (Hsel : selectedTopicId s = selectedTopicId (entriesSettled (respond list) s).1)
    by by explode_state s.
  revert Hf Hp Hsel. generalize (entriesSettled (respond list) s).1.
  intros s1 Hf Hp Hsel. rewrite <- Hp in Hidle.
  rewrite rerender_eq. cbn [fst snd].
  pose proof (runEffects_keeps_flip s s1 Hsel Hidle s1) as H1.
  pose proof (runEffects_keeps_pending_idle s s1 Hidle s1) as H1p.
  pose proof (runEffects_keeps_topicChoice s s1 s1) as H1t.
  unfold keeps, topicChoice in H1, H1p, H1t.
  assert (Hsel2 : selectedTopicId s1 = selectedTopicId (runEffects s s1 s1).1)
    by congruence.
  revert H1 H1p Hsel2. generalize (runEffects s s1 s1).1. intros s2 H1 H1p Hsel2.
  rewrite rerender_eq. cbn [fst snd rerender].
  assert (Hidle2 : truthy (pendingJumpEntryId s2) = false) by by rewrite H1p.
  pose proof (runEffects_keeps_flip s1 s2 Hsel2 Hidle2 s2) as H2.
  unfold keeps in H2. congruence.
Qed.

(** A fulfilled entries response acts through the list it carries. *)
Lemma step_entries_fulfilled (s : State) fetched (list : list EntryOut.t) :
  apiGet fetched = Fulfilled list ->
  step s (EntriesSettled fetched) = step s (EntriesSettled (respond list)) /\
  entriesSettled fetched s = entriesSettled (respond list) s.
Proof.
  intros Hget. unfold step. cbn [handle]. unfold entriesSettled. by rewrite Hget.
Qed.

(** C2 (amended). Selecting a topic resets the card index to 0: when an
    event changes the selected topic to a topic id [t] that is non-null and
    non-zero, the entries of [t] are fetched with limit 2000 and the card is
    unflipped at once.  Whenever the fetch then succeeds, whatever happened
    in between, [entries] is the list received and [currentIndex] is set to
    0; when no search jump is pending [currentIndex] stays 0 and the response
    leaves [isFlipped] as it is at that moment.  So the card is unflipped
    after the response when it arrives next, and is flipped when the user
    flipped the card still on screen while the list was loading. *)
Theorem selecting_topic_resets_index (s : State) (ev : Event) (t : Z) :
  t ≠ 0 ->
  selectedTopicId s ≠ Some t ->
  selectedTopicId (step s ev).1 = Some t ->
  let s1 := (step s ev).1 in
  (entriesCall t ∈ (step s ev).2 /\ isFlipped s1 = false) /\
  (forall (between : list Event) fetched (list : list EntryOut.t),
     apiGet fetched = Fulfilled list ->
     let arrival := (run s1 between).1 in
     let s2 := (step arrival (EntriesSettled fetched)).1 in
     currentIndex (entriesSettled fetched arrival).1 = 0 /\
     entries s2 = list /\
     (isFlipped arrival = false -> isFlipped s2 = false) /\
     (truthy (pendingJumpEntryId arrival) = false ->
        currentIndex s2 = 0 /\ isFlipped s2 = isFlipped arrival)) /\
  (forall fetched (list : list EntryOut.t),
     apiGet fetched = Fulfilled list ->
     let s2 := (step s1 (EntriesSettled fetched)).1 in
     entries s2 = list /\ isFlipped s2 = false /\
     (truthy (pendingJumpEntryId s1) = false -> currentIndex s2 = 0)) /\
  (forall fetched (list : list EntryOut.t),
     apiGet fetched = Fulfilled list ->
     cardShown s1 = true -> truthy (pendingJumpEntryId s1) = false ->
     let s2 := (run s1 [ClickFlip; EntriesSettled fetched]).1 in
     isFlipped (step s1 ClickFlip).1 = true /\
     entries s2 = list /\ currentIndex s2 = 0 /\ isFlipped s2 = true).
Proof.
  intros Ht Hold Hnew s1.
  destruct (step_topic_changed s ev t Ht Hold Hnew) as [Hcall Hflip]. fold s1 in Hflip.
  assert (Hany : forall (arrival : State) fetched (list : list EntryOut.t),
            apiGet fetched = Fulfilled list ->
            let s2 := (step arrival (EntriesSettled fetched)).1 in
            currentIndex (entriesSettled fetched arrival).1 = 0 /\
            entries s2 = list /\
            (isFlipped arrival = false -> isFlipped s2 = false) /\
            (truthy (pendingJumpEntryId arrival) = false ->
               currentIndex s2 = 0 /\ isFlipped s2 = isFlipped arrival)).
  { intros arrival fetched list Hget s2. subst s2.
    destruct (step_entries_fulfilled arrival fetched list Hget) as [-> ->].
    destruct (step_entries_loaded arrival list) as (He & Hf & Hi).
    destruct (entriesSettled_respond list arrival) as (_ & Hi0 & _).
    split_and!; [done | done | done |].
    intros Hidle. split; [by apply Hi | by apply step_entries_keeps_flip]. }
  split_and!.
  - done.
  - done.
  - intros between fetched list Hget. by apply Hany.
  - intros fetched list Hget s2. destruct (Hany s1 fetched list Hget) as (_ & He & Hf & Hi).
    split_and!; [done | by apply Hf |]. intros Hidle. by apply Hi.
  - intros fetched list Hget Hshown Hidle s2. subst s2.
    rewrite run_cons_fst, run_single.
    assert (Hflipped : isFlipped (step s1 ClickFlip).1 = true /\
                       pendingJumpEntryId (step s1 ClickFlip).1 = pendingJumpEntryId s1).
    { rewrite step_flip, Hshown. revert Hflip. clear. explode_state s1.
      unfold_actions. by intros ->. }
    destruct Hflipped as [Hflipped Hpending].
    destruct (Hany (step s1 ClickFlip).1 fetched list Hget) as (_ & He & _ & Hi).
    destruct Hi as [Hzero Hside]; [by rewrite Hpending|].
    split_and!; [done | done | done | congruence].
Qed.

(** ** Failed fetches *)

Lemma runEffects_pending_cleared (prev cur s : State) :
  selectedTopicId prev = selectedTopicId cur ->
  entriesRef prev = entriesRef cur ->
  currentIndex prev = currentIndex cur ->
  searchQuery prev = searchQuery cur ->
  pendingJumpEntryId cur = None ->
  runEffects prev cur s = (s, []).
Proof.
  intros H1 H2 H3 H4 H5. unfold runEffects.
  rewrite !(changed_same selectedTopicId), !(changed_same entriesRef),
    !(changed_same currentIndex), !(changed_same searchQuery) by done.
  rewrite orb_false_r. cbn [orb].
  unfold effectJump. rewrite H5. cbn [ifTruthy].
  by destruct (changed pendingJumpEntryId prev cur).
Qed.

Lemma commit_pending_cleared (prev : State) (handled : State * list Call) :
  selectedTopicId prev = selectedTopicId handled.1 ->
  entriesRef prev = entriesRef handled.1 ->
  currentIndex prev = currentIndex handled.1 ->
  searchQuery prev = searchQuery handled.1 ->
  pendingJumpEntryId handled.1 = None ->
  commit prev handled = handled.
Proof.
  intros H1 H2 H3 H4 H5. unfold commit.
  rewrite rerender_eq, runEffects_pending_cleared by done. cbn [fst snd].
  rewrite rerender_same_deps by done. destruct handled. cbn. by rewrite app_nil_r.
Qed.

Lemma step_topics_rejected (s : State) fetched (e : Thrown) :
  apiGet fetched = Rejected e ->
  let r := step s (TopicsSettled fetched) in
  errMsg r.1 = Some (messageOr e "Failed to load topics") /\
  loading r.1 = false /\ r.2 = [].
Proof.
  intros Hrej r. subst r. unfold step. cbn [handle]. unfold topicsSettled.
  rewrite Hrej. rewrite commit_same_deps; by explode_state s.
Qed.

Lemma step_entries_rejected (s : State) fetched (e : Thrown) :
  apiGet fetched = Rejected e ->
  let r := step s (EntriesSettled fetched) in
  errMsg r.1 = Some (messageOr e "Failed to load entries") /\
  loading r.1 = false /\ r.2 = [].
Proof.
  intros Hrej r. subst r. unfold step. cbn [handle]. unfold entriesSettled.
  rewrite Hrej. rewrite commit_same_deps; by explode_state s.
Qed.

Lemma step_detail_rejected (s : State) (site : DetailSite) fetched (e : Thrown) :
  apiGet fetched = Rejected e ->
  let r := step s (DetailSettled site (entryDetailReqRef s) fetched) in
  errMsg r.1 = Some (messageOr e (detailFailureText site)) /\
  loading r.1 = false /\ r.2 = [].
Proof.
  intros Hrej r. subst r. unfold step. cbn [handle].
  destruct site; cbn [detailSettled detailFailureText];
    unfold cardDetailSettled, jumpDetailSettled, searchDetailSettled;
    rewrite Hrej.
  1,3: rewrite commit_same_deps;
    explode_state s; unfold_actions; rewrite ?bool_decide_eq_true_2 by done; done.
  rewrite commit_pending_cleared;
    explode_state s; unfold_actions; rewrite ?bool_decide_eq_true_2 by done; done.
Qed.

Lemma step_search_rejected (s : State) fetched (e : Thrown) :
  apiGet fetched = Rejected e ->
  let r := step s (SearchSettled fetched) in
  errMsg r.1 = errMsg s /\ searchResults r.1 = [] /\ searchOpen r.1 = true /\
  searchLoading r.1 = false /\ r.2 = [].
Proof.
  intros Hrej r. subst r. unfold step. cbn [handle]. unfold searchSettled.
  rewrite Hrej. rewrite commit_same_deps; by explode_state s.
Qed.

(** The banner shows the message that was set, unless it is empty. *)
Lemma errorShown_message (s : State) (text : string) :
  errMsg s = Some text -> errorShown s = nonEmpty text.
Proof. unfold errorShown. by intros ->. Qed.

Lemma messageOr_nonEmpty (e : Thrown) (fallback : string) :
  message e ≠ Some "" -> nonEmpty fallback = true ->
  nonEmpty (messageOr e fallback) = true.
Proof.
  unfold messageOr. destruct (message e) as [text|]; cbn; [|by intros _ ->].
  intros Htext _. unfold nonEmpty. destruct (String.eqb_spec text ""); [|done].
  by subst.
Qed.

(** C5 (amended). [apiGet] and [apiPost] reject with the message
    "API error {status}" when a response arrives that is not ok; on an
    ok response they settle as reading its JSON body does, and when [fetch]
    itself rejects they reject with its error.  A rejected load of the topics,
    of the entries or of an entry detail whose request id is still current
    sets [errMsg] to the error's message (to a fixed text if it has none),
    clears [loading] and issues no further request; the error banner then
    shows that message, unless the message is the empty string, which sets
    [errMsg] to a falsy value and shows no banner.  A rejected search fetch
    leaves [errMsg] alone: it empties [searchResults] and opens the dropdown. *)
Theorem fetch_failures_surface :
  (forall (T : Type) (res : Response T),
     ok res = false ->
     apiGet (Fulfilled res) = Rejected (Error ("API error " +:+ toString (status res))) /\
     apiPost (Fulfilled res) = Rejected (Error ("API error " +:+ toString (status res)))) /\
  (forall (T : Type) (res : Response T),
     ok res = true ->
     apiGet (Fulfilled res) = json res /\ apiPost (Fulfilled res) = json res) /\
  (forall (T : Type) (e : Thrown),
     apiGet (@Rejected (Response T) e) = Rejected e /\
     apiPost (@Rejected (Response T) e) = Rejected e) /\
  (forall (e : Thrown) (msg fallback : string),
     message e = Some msg -> messageOr e fallback = msg) /\
  (forall (s : State) fetched (e : Thrown),
     apiGet fetched = Rejected e ->
     let r := step s (TopicsSettled fetched) in
     let text := messageOr e "Failed to load topics" in
     errMsg r.1 = Some text /\ loading r.1 = false /\ r.2 = [] /\
     errorShown r.1 = nonEmpty text /\
     (message e ≠ Some "" -> errorShown r.1 = true) /\
     (message e = Some "" -> errorShown r.1 = false)) /\
  (forall (s : State) fetched (e : Thrown),
     apiGet fetched = Rejected e ->
     let r := step s (EntriesSettled fetched) in
     let text := messageOr e "Failed to load entries" in
     errMsg r.1 = Some text /\ loading r.1 = false /\ r.2 = [] /\
     errorShown r.1 = nonEmpty text /\
     (message e ≠ Some "" -> errorShown r.1 = true) /\
     (message e = Some "" -> errorShown r.1 = false)) /\
  (forall (s : State) (site : DetailSite) fetched (e : Thrown),
     apiGet fetched = Rejected e ->
     let r := step s (DetailSettled site (entryDetailReqRef s) fetched) in
     let text := messageOr e (detailFailureText site) in
     errMsg r.1 = Some text /\ loading r.1 = false /\ r.2 = [] /\
     errorShown r.1 = nonEmpty text /\
     (message e ≠ Some "" -> errorShown r.1 = true) /\
     (message e = Some "" -> errorShown r.1 = false)) /\
  (forall (s : State) fetched (e : Thrown),
     apiGet fetched = Rejected e ->
     let r := step s (SearchSettled fetched) in
     errMsg r.1 = errMsg s /\ searchResults r.1 = [] /\ searchOpen r.1 = true /\
     searchLoading r.1 = false /\ r.2 = []).
Proof.
  assert (Hshown : forall (r : State * list Call) (e : Thrown) (fallback : string),
            nonEmpty fallback = true ->
            errMsg r.1 = Some (messageOr e fallback) /\ loading r.1 = false /\ r.2 = [] ->
            errMsg r.1 = Some (messageOr e fallback) /\ loading r.1 = false /\ r.2 = [] /\
            errorShown r.1 = nonEmpty (messageOr e fallback) /\
            (message e ≠ Some "" -> errorShown r.1 = true) /\
            (message e = Some "" -> errorShown r.1 = false)).
  { intros r e fallback Hfallback (Herr & Hloading & Hcalls).
    pose proof (errorShown_message _ _ Herr) as Hbanner.
    split_and!; try done.
    - intros Htext. rewrite Hbanner. by apply messageOr_nonEmpty.
    - intros Htext. rewrite Hbanner. unfold messageOr. by rewrite Htext. }
  split_and!.
  - intros T res Hok. unfold apiGet, apiPost. by rewrite Hok.
  - intros T res Hok. unfold apiGet, apiPost. by rewrite Hok.
  - done.
  - intros e msg fallback Hm. unfold messageOr. by rewrite Hm.
  - intros s fetched e Hrej. apply Hshown; [done|]. by apply step_topics_rejected.
  - intros s fetched e Hrej. apply Hshown; [done|]. by apply step_entries_rejected.
  - intros s site fetched e Hrej. apply Hshown; [by destruct site|].
    by apply step_detail_rejected.
  - apply step_search_rejected.
Qed.

(** ** The default topic *)

Lemma find_Some_split {A : Type} (p : A -> bool) (xs : list A) (m : A) :
  find p xs = Some m <->
  exists before after,
    xs = before ++ m :: after /\ p m = true /\ forall x, x ∈ before -> p x = false.
Proof.
  induction xs as [|x xs IH]; cbn [find].
  - split; [done|]. intros (before & after & Heq & _). by destruct before.
  - destruct (p x) eqn:Hpx.
    + split.
      * intros [= ->]. exists [], xs. split_and!; [done | done |].
        intros y Hy. by apply not_elem_of_nil in Hy.
      * intros (before & after & Heq & Hpm & Hbefore).
        destruct before as [|b before]; cbn in Heq; injection Heq as -> ->; [done|].
        rewrite Hbefore in Hpx; [done | left].
    + rewrite IH. split.
      * intros (before & after & -> & Hpm & Hbefore).
        exists (x :: before), after. split_and!; [done | done |].
        intros y [->|Hy]%elem_of_cons; auto.
      * intros (before & after & Heq & Hpm & Hbefore).
        destruct before as [|b before]; cbn in Heq; injection Heq as -> ->.
        -- congruence.
        -- exists before, after. split_and!; [done | done |].
           intros y Hy. apply Hbefore. by right.
Qed.

Lemma find_None_all {A : Type} (p : A -> bool) (xs : list A) :
  (forall x, x ∈ xs -> p x = false) -> find p xs = None.
Proof.
  induction xs as [|x xs IH]; intros Hall; cbn [find]; [done|].
  rewrite Hall by left. apply IH. intros y Hy. apply Hall. by right.
Qed.

Lemma find_elem {A : Type} (p : A -> bool) (xs : list A) (m : A) :
  find p xs = Some m -> m ∈ xs.
Proof.
  intros (before & after & -> & _)%find_Some_split. set_solver.
Qed.

Lemma defaultTopicId_mixed (t before after : list Topic.t) (m : Topic.t) :
  t = before ++ m :: after ->
  isMixed m ->
  (forall x, x ∈ before -> ~ isMixed x) ->
  defaultTopicId t = Some (Topic.id m).
Proof.
  intros Ht Hm Hbefore. unfold defaultTopicId. cbv zeta.
  assert (Hfind : find (fun x => String.eqb (toLowerCase (Topic.name x)) "mixed") t
                  = Some m).
  { apply find_Some_split. exists before, after. split_and!; [done | |].
    - by apply String.eqb_eq.
    - intros x Hx. apply String.eqb_neq. by apply Hbefore. }
  by rewrite Hfind.
Qed.

Lemma defaultTopicId_first (t : list Topic.t) :
  (forall x, x ∈ t -> ~ isMixed x) -> defaultTopicId t = Topic.id <$> head t.
Proof.
  intros Hall. unfold defaultTopicId. cbv zeta. rewrite find_None_all; [done|].
  intros x Hx. apply String.eqb_neq. by apply Hall.
Qed.

Lemma defaultTopicId_known (t : list Topic.t) (d : Z) :
  defaultTopicId t = Some d -> d ∈ Topic.id <$> t.
Proof.
  unfold defaultTopicId. cbv zeta.
  destruct (find _ t) as [m|] eqn:Hfind; cbn.
  - intros [= <-]. apply list_elem_of_fmap. exists m. split; [done|].
    by eapply find_elem.
  - destruct t as [|x t]; cbn; [done|]. intros [= <-]. left.
Qed.

Lemma defaultTopicId_nil : defaultTopicId [] = None.
Proof. reflexivity. Qed.

(** ** Loading "Your topics" *)

Lemma nothingSaved_parse (s : State) :
  nothingSaved s -> parseSaved (localStorage s !! YOUR_TOPICS_KEY) = JArr [].
Proof.
  intros [Hnone | (text & Hsome & Hparse)]; unfold parseSaved.
  - by rewrite Hnone.
  - rewrite Hsome. destruct (nonEmpty text); [|done].
    by destruct Hparse as [-> | ->].
Qed.

Lemma keep_known (t : list Topic.t) (d : Z) :
  d ∈ Topic.id <$> t ->
  bool_decide (d ∈ (list_to_set (Topic.id <$> t) : gset Z)) = true.
Proof. intros Hd. apply bool_decide_eq_true_2. by apply elem_of_list_to_set. Qed.

(** The load when nothing is saved and there is a default topic. *)
Lemma topicsLoaded_default (t : list Topic.t) (d : Z) (s : State) :
  parseSaved (localStorage s !! YOUR_TOPICS_KEY) = JArr [] ->
  defaultTopicId t = Some d -> d ≠ 0 ->
  topicChoice (topicsLoaded t s).1 =
    (t, Some d, [d], <[YOUR_TOPICS_KEY := JSON_stringify [d]]> (localStorage s)).
Proof.
  intros Hparse Hd Hnz. explode_state s. unfold topicsLoaded, topicChoice.
  cbn [localStorage] in Hparse. unfold_actions. rewrite Hparse, Hd.
  cbn [lengthIsZero]. rewrite bool_decide_eq_true_2 by done.
  destruct (Z.eqb_spec d 0); [done|].
  cbn [filterNumbers omap list_omap]. rewrite keep_known by by apply defaultTopicId_known.
  reflexivity.
Qed.

(** The load when nothing is saved and there is no topic at all. *)
Lemma topicsLoaded_no_topics (s : State) :
  parseSaved (localStorage s !! YOUR_TOPICS_KEY) = JArr [] ->
  topicChoice (topicsLoaded [] s).1 = ([], None, [], localStorage s).
Proof.
  intros Hparse. explode_state s. unfold topicsLoaded, topicChoice.
  cbn [localStorage] in Hparse. unfold_actions. rewrite Hparse.
  reflexivity.
Qed.

(** The load when an array is saved: ids of known topics are kept, the
    first of them is selected, or else the default. *)
Lemma topicsLoaded_array (t : list Topic.t) (items : list JSON) (s : State) :
  parseSaved (localStorage s !! YOUR_TOPICS_KEY) = JArr items ->
  let s' := (topicsLoaded t s).1 in
  topics s' = t /\
  selectedTopicId s' = orElse (head (yourTopicIds s')) (defaultTopicId t) /\
  (forall id, id ∈ yourTopicIds s' -> id ∈ Topic.id <$> t) /\
  errMsg s' = errMsg s.
Proof.
  intros Hparse. explode_state s. unfold topicsLoaded.
  cbn [localStorage] in Hparse. unfold_actions. rewrite Hparse.
  cbn [lengthIsZero].
  assert (Hkeep : forall (xs : list JSON) id,
            id ∈ omap (fun item => match item with
                        | JNum n => if bool_decide (n ∈ (list_to_set (Topic.id <$> t) : gset Z))
                                    then Some n else None
                        | _ => None end) xs ->
            id ∈ Topic.id <$> t).
  { intros xs id (item & _ & Hitem)%list_elem_of_omap.
    destruct item; try done. case_bool_decide as Hin; [|done].
    injection Hitem as <-. by apply elem_of_list_to_set in Hin. }
  destruct (bool_decide (items = [])) eqn:Hempty.
  - destruct (defaultTopicId t) as [d|] eqn:Hd.
    + destruct (Z.eqb_spec d 0).
      * cbn [filterNumbers]. unfold_actions. split_and!; eauto.
      * cbn [filterNumbers omap list_omap].
        rewrite keep_known by by apply defaultTopicId_known.
        unfold_actions. split_and!; try done.
        intros id ->%list_elem_of_singleton. by apply defaultTopicId_known.
    + cbn [filterNumbers]. unfold_actions. split_and!; eauto.
  - cbn [filterNumbers]. unfold_actions. split_and!; eauto.
Qed.

Lemma topicsSettled_fulfilled (t : list Topic.t) fetched (s : State) :
  apiGet fetched = Fulfilled t ->
  topicChoice (topicsSettled fetched s).1 = topicChoice (topicsLoaded t s).1 /\
  errMsg (topicsSettled fetched s).1 = errMsg (topicsLoaded t s).1.
Proof.
  intros Hful. unfold topicsSettled. rewrite Hful, andThen_eq. cbn [fst snd].
  by destruct (topicsLoaded t s).1.
Qed.

Lemma step_topics_loaded (t : list Topic.t) fetched (s : State) :
  apiGet fetched = Fulfilled t ->
  topicChoice (step s (TopicsSettled fetched)).1 = topicChoice (topicsLoaded t s).1.
Proof.
  intros Hful. rewrite step_topicChoice. cbn [handle].
  by apply topicsSettled_fulfilled.
Qed.

Lemma resetYourTopics_default (d : Z) (s : State) :
  defaultTopicId (topics s) = Some d -> d ≠ 0 ->
  topicChoice (resetYourTopics s s).1 =
    (topics s, Some d, [d],
     <[YOUR_TOPICS_KEY := JSON_stringify [d]]> (delete YOUR_TOPICS_KEY (localStorage s))).
Proof.
  intros Hd Hnz. unfold resetYourTopics. rewrite Hd. cbn [ifTruthy].
  destruct (Z.eqb_spec d 0); [done|]. by explode_state s.
Qed.

Lemma resetYourTopics_no_default (s : State) :
  truthy (defaultTopicId (topics s)) = false ->
  topicChoice (resetYourTopics s s).1 =
    (topics s, None, [], delete YOUR_TOPICS_KEY (localStorage s)).
Proof.
  intros Hd. unfold resetYourTopics, truthy, ifTruthy in *.
  destruct (defaultTopicId (topics s)) as [d|].
  - destruct (d =? 0); [by explode_state s | done].
  - by explode_state s.
Qed.

(** C10 (amended). Default topic initialization: when the topics load and
    nothing usable is saved (missing key, text that does not parse, or an empty
    array), "Your topics" becomes the single default topic, which is selected
    and stored, provided its id is non-zero; with no topics at all "Your
    topics" stays empty and nothing is selected.  The default topic is the
    first topic whose lower-cased name is "mixed", or else the first topic.
    When an array is saved the selected topic is the first kept id, or else
    the default.  Resetting restores the same single-default state. *)
Theorem default_topic_initialization :
  (forall (s : State) (t : list Topic.t) fetched (d : Z),
     apiGet fetched = Fulfilled t -> nothingSaved s ->
     defaultTopicId t = Some d -> d ≠ 0 ->
     let s' := (step s (TopicsSettled fetched)).1 in
     topics s' = t /\ singleDefault d s') /\
  (forall (s : State) fetched,
     apiGet fetched = Fulfilled [] -> nothingSaved s ->
     let s' := (step s (TopicsSettled fetched)).1 in
     topics s' = [] /\ yourTopicIds s' = [] /\ selectedTopicId s' = None) /\
  (forall (t before after : list Topic.t) (m : Topic.t),
     t = before ++ m :: after -> isMixed m ->
     (forall x, x ∈ before -> ~ isMixed x) ->
     defaultTopicId t = Some (Topic.id m)) /\
  (forall (t : list Topic.t),
     (forall x, x ∈ t -> ~ isMixed x) ->
     defaultTopicId t = Topic.id <$> head t) /\
  (forall (s : State) (t : list Topic.t) fetched (items : list JSON),
     apiGet fetched = Fulfilled t ->
     parseSaved (localStorage s !! YOUR_TOPICS_KEY) = JArr items ->
     let s' := (step s (TopicsSettled fetched)).1 in
     selectedTopicId s' = orElse (head (yourTopicIds s')) (defaultTopicId t)) /\
  (forall (s : State) (d : Z),
     isTopicModalOpen s = true ->
     defaultTopicId (topics s) = Some d -> d ≠ 0 ->
     singleDefault d (step s ModalClickReset).1) /\
  (forall (s : State),
     isTopicModalOpen s = true -> topics s = [] ->
     let s' := (step s ModalClickReset).1 in
     yourTopicIds s' = [] /\ selectedTopicId s' = None /\
     localStorage s' !! YOUR_TOPICS_KEY = None).
Proof.
  split_and!.
  - intros s t fetched d Hful Hnone Hd Hnz s'.
    pose proof (step_topics_loaded t fetched s Hful) as Hc. fold s' in Hc.
    rewrite (topicsLoaded_default t d s) in Hc
      by (try apply nothingSaved_parse; done).
    unfold topicChoice in Hc. injection Hc as Ht Hs Hy Hl.
    unfold singleDefault. rewrite Hl, lookup_insert_eq. done.
  - intros s fetched Hful Hnone s'.
    pose proof (step_topics_loaded [] fetched s Hful) as Hc. fold s' in Hc.
    rewrite topicsLoaded_no_topics in Hc by by apply nothingSaved_parse.
    unfold topicChoice in Hc. by injection Hc as Ht Hs Hy Hl.
  - intros. by eapply defaultTopicId_mixed.
  - apply defaultTopicId_first.
  - intros s t fetched items Hful Hparse s'.
    pose proof (step_topics_loaded t fetched s Hful) as Hc. fold s' in Hc.
    destruct (topicsLoaded_array t items s Hparse) as (_ & Hsel & _).
    unfold topicChoice in Hc. injection Hc as Ht Hs Hy Hl. congruence.
  - intros s d Hopen Hd Hnz.
    pose proof (step_topicChoice s ModalClickReset) as Hc. cbn [handle] in Hc.
    rewrite Hopen, (resetYourTopics_default d) in Hc by done.
    unfold topicChoice in Hc. injection Hc as Ht Hs Hy Hl.
    unfold singleDefault. rewrite Hl, lookup_insert_eq. done.
  - intros s Hopen Ht s'.
    pose proof (step_topicChoice s ModalClickReset) as Hc. cbn [handle] in Hc.
    rewrite Hopen, resetYourTopics_no_default in Hc by by rewrite Ht.
    fold s' in Hc. unfold topicChoice in Hc. injection Hc as Ht' Hs Hy Hl.
    rewrite Hl, lookup_delete_eq. done.
Qed.

(** ** What is stored follows "Your topics" *)

Lemma runEffects_keeps_topicStore (prev cur : State) :
  respects (keeps topicStore) (runEffects prev cur).
Proof.
  unfold runEffects. split_action.
  all: unfold effectEntries, effectJump, effectDetail, effectSearch, topicStore; frame.
Qed.

Lemma step_topicStore (s : State) (ev : Event) :
  topicStore (step s ev).1 = topicStore (handle ev s s).1.
Proof.
  rewrite step_eq. cbn [fst snd].
  apply (respects_rerender (keeps topicStore) runEffects_keeps_topicStore).
Qed.

Lemma handle_keeps_topicStore (ev : Event) (render : State) :
  touchesYourTopics ev = false -> respects (keeps topicStore) (handle ev render).
Proof.
  destruct ev; cbn [touchesYourTopics handle]; try done; intros _.
  all: unfold detailSettled, topicStore; frame.
Qed.










(** The load when a non-empty array is saved: nothing is written, and "Your
    topics" is the saved numbers that are ids of known topics. *)
Lemma topicsLoaded_saved (t : list Topic.t) (items : list JSON) (s : State) :
  parseSaved (localStorage s !! YOUR_TOPICS_KEY) = JArr items -> items ≠ [] ->
  localStorage (topicsLoaded t s).1 = localStorage s /\
  filterNumbers (fun id => bool_decide (id ∈ Topic.id <$> t)) (JArr items)
    = Some (yourTopicIds (topicsLoaded t s).1).
Proof.
  intros Hparse Hne. explode_state s. unfold topicsLoaded.
  cbn [localStorage] in Hparse. unfold_actions. rewrite Hparse.
  cbn [lengthIsZero]. rewrite bool_decide_eq_false_2 by done.
  cbn [filterNumbers]. unfold_actions. split; [done|]. f_equal.
  apply list_omap_ext. apply Forall2_same_length_lookup. split; [done|].
  intros i x y Hx Hy. assert (x = y) as -> by congruence.
  destruct y; try done.
  erewrite (bool_decide_ext (n ∈ Topic.id <$> t)); [done|].
  by rewrite elem_of_list_to_set.
Qed.


(** ** "Your topics" are known topics *)

Lemma elem_of_filter_bool {A : Type} (p : A -> bool) (xs : list A) (x : A) :
  x ∈ List.filter p xs -> x ∈ xs.
Proof. rewrite !list_elem_of_In. intros Hin. by apply filter_In in Hin as [? _]. Qed.

Lemma filteredAll_known (ts : list Topic.t) (q : string) (x : Topic.t) :
  x ∈ filteredAll ts q -> x ∈ ts.
Proof.
  unfold filteredAll. cbv zeta. destruct (negb _); [done|].
  apply elem_of_filter_bool.
Qed.

Lemma addButtons_known (ts : list Topic.t) (yours : list Z) (m : ModalState) (id : Z) :
  id ∈ Topic.id <$> addButtons ts yours m -> id ∈ Topic.id <$> ts.
Proof.
  intros (x & -> & Hx)%list_elem_of_fmap. apply list_elem_of_fmap.
  exists x. split; [done|]. unfold addButtons in Hx.
  apply elem_of_app in Hx as [Hx|Hx].
  - apply subseteq_take in Hx. unfold suggested in Hx.
    by eapply filteredAll_known, elem_of_filter_bool.
  - destruct (showAll m); [|by apply not_elem_of_nil in Hx].
    unfold allToShow in Hx. by eapply filteredAll_known, elem_of_filter_bool.
Qed.

Lemma yoursAreKnown_same (s s' : State) :
  topicStore s' = topicStore s -> yoursAreKnown s -> yoursAreKnown s'.
Proof.
  unfold topicStore, yoursAreKnown. intros [= Ht Hy Hl]. by rewrite Ht, Hy.
Qed.

Lemma addToYourTopics_known_topic (topicId : Z) (s : State) :
  topicId ∈ Topic.id <$> topics s ->
  yoursAreKnown s -> yoursAreKnown (addToYourTopics topicId s).1.
Proof.
  intros Hid Hs. unfold addToYourTopics, yoursAreKnown in *. run_action; [done|].
  intros id [Hin| ->%list_elem_of_singleton]%elem_of_app; auto.
Qed.

Lemma selectSearchResult_known (item : SearchEntry.t) (s : State) :
  resultTopicKnown s (ClickSearchResult item) ->
  yoursAreKnown s -> yoursAreKnown (selectSearchResult s item s).1.
Proof.
  unfold resultTopicKnown, selectSearchResult, yoursAreKnown.
  destruct (SearchEntry.primary_topic item) as [[topicId name]|]; cbn [fmap option_fmap option_map fst].
  all: intros Hid Hs; run_action; try done.
  intros id [Hin| ->%list_elem_of_singleton]%elem_of_app; auto.
Qed.

Lemma resetYourTopics_known (s : State) :
  yoursAreKnown (resetYourTopics s s).1.
Proof.
  unfold resetYourTopics, yoursAreKnown. run_action.
  all: intros id Hid;
    first [ by apply not_elem_of_nil in Hid
          | apply list_elem_of_singleton in Hid as ->;
            by apply defaultTopicId_known ].
Qed.

Lemma handle_known (ev : Event) (s : State) :
  ~ isTopicsLoad ev -> resultTopicKnown s ev ->
  yoursAreKnown s -> yoursAreKnown (handle ev s s).1.
Proof.
  intros Hload Hres Hs. destruct (touchesYourTopics ev) eqn:Htouch.
  - destruct ev; try done; cbn [handle].
    + destruct Hload. by eexists.
    + case_match; [by apply selectSearchResult_known | done].
    + case_match eqn:Hguard; [|done].
      apply andb_prop in Hguard as [_ Hin%bool_decide_eq_true_1].
      apply addToYourTopics_known_topic; [|done]. by eapply addButtons_known.
    + case_match; [apply resetYourTopics_known | done].
  - eapply yoursAreKnown_same; [|done]. by apply handle_keeps_topicStore.
Qed.

Lemma filterNumbers_known (t : list Topic.t) (v : JSON) (ids : list Z) :
  filterNumbers (fun id => bool_decide (id ∈ (list_to_set (Topic.id <$> t) : gset Z))) v
    = Some ids ->
  forall id, id ∈ ids -> id ∈ Topic.id <$> t.
Proof.
  destruct v as [| | | |items|]; try done. cbn [filterNumbers]. intros [= <-].
  intros id (item & _ & Hitem)%list_elem_of_omap.
  destruct item; try done. case_bool_decide as Hin; [|done].
  injection Hitem as <-. by apply elem_of_list_to_set in Hin.
Qed.

Lemma topicsLoaded_known (t : list Topic.t) (s : State) :
  topics (topicsLoaded t s).1 = t /\
  (yourTopicIds (topicsLoaded t s).1 = yourTopicIds s \/
   forall id, id ∈ yourTopicIds (topicsLoaded t s).1 -> id ∈ Topic.id <$> t).
Proof.
  explode_state s. unfold topicsLoaded. unfold_actions.
  destruct (lengthIsZero _) as [[]|]; unfold_actions; [| |by auto].
  - destruct (defaultTopicId t) as [d|] eqn:Hd; unfold_actions.
    + destruct (Z.eqb_spec d 0); unfold_actions.
      * destruct (filterNumbers _ _) eqn:Hf; unfold_actions; [|by auto].
        split; [done | right]. by eapply filterNumbers_known.
      * cbn [filterNumbers omap list_omap].
        rewrite keep_known by by apply defaultTopicId_known.
        unfold_actions. split; [done | right].
        intros id ->%list_elem_of_singleton. by apply defaultTopicId_known.
    + destruct (filterNumbers _ _) eqn:Hf; unfold_actions; [|by auto].
      split; [done | right]. by eapply filterNumbers_known.
  - destruct (filterNumbers _ _) eqn:Hf; unfold_actions; [|by auto].
    split; [done | right]. by eapply filterNumbers_known.
Qed.

Lemma step_topics_known (s : State) fetched :
  yourTopicIds s = [] \/
  (exists t items, apiGet fetched = Fulfilled t /\
     parseSaved (localStorage s !! YOUR_TOPICS_KEY) = JArr items) ->
  yoursAreKnown (step s (TopicsSettled fetched)).1.
Proof.
  intros Hcase. unfold yoursAreKnown.
  pose proof (step_topicStore s (TopicsSettled fetched)) as Hc. cbn [handle] in Hc.
  unfold topicStore in Hc. injection Hc as -> -> _.
  unfold topicsSettled. destruct (apiGet fetched) as [t|e] eqn:Hget.
  - rewrite andThen_eq. cbn [fst snd].
    destruct (topicsLoaded_known t s) as [Ht Hy].
    assert (Hgoal : forall id, id ∈ yourTopicIds (topicsLoaded t s).1 ->
                               id ∈ Topic.id <$> topics (topicsLoaded t s).1).
    { rewrite Ht. destruct Hcase as [Hnil | (t' & items & [= <-] & Hparse)].
      - destruct Hy as [Hy|Hy]; [|done]. rewrite Hy, Hnil.
        intros id Hid. by apply not_elem_of_nil in Hid.
      - by destruct (topicsLoaded_array t items s Hparse) as (_ & _ & Hk & _). }
    by destruct (topicsLoaded t s).1.
  - destruct Hcase as [Hnil | (t' & items & [=] & _)].
    explode_state s. unfold topicsFailed. unfold_actions. cbn in Hnil. subst.
    intros id Hid. by apply not_elem_of_nil in Hid.
Qed.

Lemma mountEffects_keeps_topicStore (render : State) :
  respects (keeps topicStore) (mountEffects render).
Proof.
  unfold mountEffects, effectTopics, effectEntries, effectJump, effectDetail,
    effectSearch, topicStore. frame.
Qed.

Lemma mount_topicStore (storage : gmap string string) (clock : Z) :
  topicStore (mount storage clock).1 = topicStore (initialState storage clock).
Proof.
  unfold mount. rewrite commit_fst.
  etrans; [apply (respects_rerender (keeps topicStore) runEffects_keeps_topicStore)|].
  apply mountEffects_keeps_topicStore.
Qed.

(** C7 (amended). "Your topics" is a subset of the topics the app knows:
    it is so after the initial load, whatever its outcome, when the list was
    empty before, and after any load that succeeds and finds an array saved;
    it stays so under every later event (selecting or adding a topic in the
    modal, resetting, anything else), and under the choice of a search result
    provided the topic that result points to is a known topic, which the
    component does not check. *)
Theorem your_topics_are_known_topics :
  (forall (s : State) fetched,
     yourTopicIds s = [] \/
     (exists t items, apiGet fetched = Fulfilled t /\
        parseSaved (localStorage s !! YOUR_TOPICS_KEY) = JArr items) ->
     yoursAreKnown (step s (TopicsSettled fetched)).1) /\
  (forall (storage : gmap string string) (clock : Z) fetched,
     yoursAreKnown (run (mount storage clock).1 [TopicsSettled fetched]).1) /\
  (forall (s : State) (ev : Event),
     yoursAreKnown s -> ~ isTopicsLoad ev -> resultTopicKnown s ev ->
     yoursAreKnown (step s ev).1).
Proof.
  split_and!.
  - apply step_topics_known.
  - intros storage clock fetched. rewrite run_single.
    apply step_topics_known. left.
    pose proof (mount_topicStore storage clock) as Hm.
    unfold topicStore in Hm. injection Hm as _ Hy _. rewrite Hy. reflexivity.
  - intros s ev Hs Hload Hres. unfold yoursAreKnown.
    pose proof (step_topicStore s ev) as Hc. unfold topicStore in Hc.
    injection Hc as -> -> _. by apply handle_known.
Qed.

(** ** "Your topics" holds no id twice *)

Lemma filterNumbers_sublist (keep : Z -> bool) (v : JSON) (ids : list Z) :
  filterNumbers keep v = Some ids -> ids `sublist_of` numbersOf v.
Proof.
  unfold numbersOf. destruct v as [| | | |items|]; try done.
  cbn [filterNumbers default from_option id]. intros [= <-].
  induction items as [|item items IH]; [done|]. cbn [omap list_omap].
  destruct item as [| |n| | |]; try done.
  destruct (keep n); [by apply sublist_skip | by apply sublist_cons].
Qed.

Lemma topicsLoaded_NoDup (t : list Topic.t) (s : State) :
  NoDup (yourTopicIds s) ->
  NoDup (numbersOf (parseSaved (localStorage s !! YOUR_TOPICS_KEY))) ->
  NoDup (yourTopicIds (topicsLoaded t s).1).
Proof.
  intros Hyours Hsaved.
  assert (Hkept : forall keep ids,
            filterNumbers keep (parseSaved (localStorage s !! YOUR_TOPICS_KEY)) = Some ids ->
            NoDup ids).
  { intros keep ids Hf%filterNumbers_sublist. by eapply sublist_NoDup. }
  revert Hyours Hkept. clear Hsaved.
  explode_state s. unfold topicsLoaded. unfold_actions. intros Hyours Hkept.
  destruct (lengthIsZero _) as [[]|]; unfold_actions; [| |done].
  - destruct (defaultTopicId t) as [d|] eqn:Hd; unfold_actions.
    + destruct (Z.eqb_spec d 0); unfold_actions.
      * destruct (filterNumbers _ _) eqn:Hf; unfold_actions; [|done]. by eapply Hkept.
      * cbn [filterNumbers omap list_omap].
        destruct (bool_decide _); unfold_actions;
          [apply NoDup_singleton | apply NoDup_nil_2].
    + destruct (filterNumbers _ _) eqn:Hf; unfold_actions; [|done]. by eapply Hkept.
  - destruct (filterNumbers _ _) eqn:Hf; unfold_actions; [|done]. by eapply Hkept.
Qed.

Lemma step_topics_NoDup (s : State) fetched :
  NoDup (yourTopicIds s) ->
  savedWithoutDuplicates (localStorage s) ->
  NoDup (yourTopicIds (step s (TopicsSettled fetched)).1).
Proof.
  intros Hyours Hsaved.
  pose proof (step_topicStore s (TopicsSettled fetched)) as Hc. cbn [handle] in Hc.
  unfold topicStore in Hc. injection Hc as _ -> _.
  unfold topicsSettled. rewrite andThen_eq. cbn [fst snd].
  assert (Hgoal : NoDup (yourTopicIds
            (match apiGet fetched with
             | Fulfilled t => topicsLoaded t
             | Rejected e => topicsFailed e
             end s).1)).
  { destruct (apiGet fetched) as [t|e].
    - by apply topicsLoaded_NoDup.
    - by explode_state s. }
  revert Hgoal. generalize (match apiGet fetched with
             | Fulfilled t => topicsLoaded t
             | Rejected e => topicsFailed e
             end s).1. intros s1. by explode_state s1.
Qed.

Lemma addToYourTopics_NoDup (topicId : Z) (s : State) :
  NoDup (yourTopicIds s) -> NoDup (yourTopicIds (addToYourTopics topicId s).1).
Proof.
  intros Hnd. destruct (decide (topicId ∈ yourTopicIds s)) as [Hin|Hnin].
  - by rewrite (addToYourTopics_known _ _ Hin).
  - destruct (addToYourTopics_new _ _ Hnin) as (-> & _ & _). apply NoDup_app.
    split_and!; [done | | apply NoDup_singleton].
    intros x Hx Hx'. apply list_elem_of_singleton in Hx'. by subst.
Qed.

Lemma selectSearchResult_NoDup (item : SearchEntry.t) (s : State) :
  NoDup (yourTopicIds s) -> NoDup (yourTopicIds (selectSearchResult s item s).1).
Proof.
  intros Hnd. unfold selectSearchResult.
  destruct (SearchEntry.primary_topic item) as [[target name]|];
    cbn [fmap option_fmap option_map fst].
  2: { revert Hnd. run_action; done. }
  destruct (truthy (Some target) && bool_decide (Some target ≠ selectedTopicId s)).
  2: { revert Hnd. run_action; done. }
  rewrite !andThen_eq. cbn [fst snd].
  set (s1 := (bumpRequestId _).1).
  assert (Hs1 : yourTopicIds s1 = yourTopicIds s) by (subst s1; by explode_state s).
  rewrite <- Hs1 in Hnd. clearbody s1.
  pose proof (addToYourTopics_NoDup target s1 Hnd) as Hadded. revert Hadded.
  generalize (addToYourTopics target s1).1. intros s2. by explode_state s2.
Qed.

Lemma resetYourTopics_NoDup (s : State) : NoDup (yourTopicIds (resetYourTopics s s).1).
Proof.
  unfold resetYourTopics. run_action; first [apply NoDup_singleton | apply NoDup_nil_2].
Qed.

Lemma handle_NoDup (ev : Event) (s : State) :
  ~ isTopicsLoad ev -> NoDup (yourTopicIds s) -> NoDup (yourTopicIds (handle ev s s).1).
Proof.
  intros Hload Hs. destruct (touchesYourTopics ev) eqn:Htouch.
  - destruct ev; try done; cbn [handle].
    + destruct Hload. by eexists.
    + case_match; [by apply selectSearchResult_NoDup | done].
    + case_match; [by apply addToYourTopics_NoDup | done].
    + case_match; [apply resetYourTopics_NoDup | done].
  - pose proof (handle_keeps_topicStore ev s Htouch s) as Hkeep.
    unfold keeps, topicStore in Hkeep. injection Hkeep as _ -> _. done.
Qed.

Lemma step_NoDup (s : State) (ev : Event) :
  ~ isTopicsLoad ev -> NoDup (yourTopicIds s) -> NoDup (yourTopicIds (step s ev).1).
Proof.
  intros Hload Hs.
  pose proof (step_topicStore s ev) as Hc. unfold topicStore in Hc.
  injection Hc as _ -> _. by apply handle_NoDup.
Qed.

Lemma run_NoDup (s : State) (evs : list Event) :
  Forall (fun ev => ~ isTopicsLoad ev) evs ->
  NoDup (yourTopicIds s) -> NoDup (yourTopicIds (run s evs).1).
Proof.
  intros Hevs. revert s. induction Hevs as [|ev evs Hev _ IH]; intros s Hs; [done|].
  rewrite run_cons_fst. apply IH. by apply step_NoDup.
Qed.

Lemma mount_then_load_NoDup (storage : gmap string string) (clock : Z) fetched :
  savedWithoutDuplicates storage ->
  NoDup (yourTopicIds (step (mount storage clock).1 (TopicsSettled fetched)).1).
Proof.
  intros Hsaved.
  pose proof (mount_topicStore storage clock) as Hm.
  unfold topicStore in Hm. injection Hm as _ Hy Hl.
  apply step_topics_NoDup.
  - rewrite Hy. apply NoDup_nil_2.
  - by rewrite Hl.
Qed.

(** C8 (amended). [addToYourTopics] is idempotent and introduces no
    duplicate: on an id already in [yourTopicIds] it changes nothing,
    [localStorage] included; on a new id it appends the id at the end and
    stores the new array; doing it twice is doing it once; a list without
    duplicates stays without.  [yourTopicIds] itself holds no id twice as long
    as the list saved in [localStorage] when the topics load holds none: the
    load only filters the saved list, so that it leaves a list without
    duplicates when the saved list has none, as after mounting; and every
    later event, adding a topic, opening a search result and resetting
    included, keeps it so. *)
Theorem addToYourTopics_idempotent :
  (forall (topicId : Z) (s : State),
     let s' := (addToYourTopics topicId s).1 in
     (topicId ∈ yourTopicIds s -> addToYourTopics topicId s = (s, [])) /\
     (topicId ∉ yourTopicIds s ->
        yourTopicIds s' = yourTopicIds s ++ [topicId] /\
        localStorage s' !! YOUR_TOPICS_KEY = Some (JSON_stringify (yourTopicIds s'))) /\
     addToYourTopics topicId s' = (s', []) /\
     (NoDup (yourTopicIds s) -> NoDup (yourTopicIds s'))) /\
  (forall (s : State) fetched,
     NoDup (yourTopicIds s) -> savedWithoutDuplicates (localStorage s) ->
     NoDup (yourTopicIds (step s (TopicsSettled fetched)).1)) /\
  (forall (storage : gmap string string) (clock : Z) fetched,
     savedWithoutDuplicates storage ->
     NoDup (yourTopicIds (run (mount storage clock).1 [TopicsSettled fetched]).1)) /\
  (forall (s : State) (ev : Event),
     NoDup (yourTopicIds s) -> ~ isTopicsLoad ev ->
     NoDup (yourTopicIds (step s ev).1)) /\
  (forall (storage : gmap string string) (clock : Z) fetched (evs : list Event),
     savedWithoutDuplicates storage ->
     Forall (fun ev => ~ isTopicsLoad ev) evs ->
     NoDup (yourTopicIds (run (mount storage clock).1 (TopicsSettled fetched :: evs)).1)).
Proof.
  split_and!.
  - intros topicId s s'. subst s'.
    destruct (decide (topicId ∈ yourTopicIds s)) as [Hin|Hnin].
    + rewrite (addToYourTopics_known _ _ Hin). cbn [fst]. split_and!; try done.
      by apply addToYourTopics_known.
    + destruct (addToYourTopics_new _ _ Hnin) as (Hy & Hl & _). split_and!.
      * done.
      * intros _. split; [done|]. by rewrite Hl, Hy, lookup_insert_eq.
      * apply addToYourTopics_known. rewrite Hy. set_solver.
      * apply addToYourTopics_NoDup.
  - intros s fetched Hs Hsaved. by apply step_topics_NoDup.
  - intros storage clock fetched Hsaved. rewrite run_single.
    by apply mount_then_load_NoDup.
  - intros s ev Hs Hload. by apply step_NoDup.
  - intros storage clock fetched evs Hsaved Hevs. rewrite run_cons_fst.
    apply run_NoDup; [done|]. by apply mount_then_load_NoDup.
Qed.

(** ** The debounced search *)

#[global] Instance clockAdvances_compositional : Compositional clockAdvances.
Proof. split; unfold clockAdvances; intros; lia. Qed.

Lemma runEffects_keeps_searchClock (prev cur : State) :
  respects (keeps searchClock) (runEffects prev cur).
Proof.
  unfold runEffects. split_action.
  all: unfold effectEntries, effectJump, effectDetail, effectSearch, searchClock; frame.
Qed.

Lemma rerender_keeps_searchClock (n : nat) (prev cur : State) :
  searchClock (rerender n prev cur).1 = searchClock cur.
Proof.
  apply (respects_rerender (keeps searchClock) runEffects_keeps_searchClock).
Qed.

(** No effect fetches a search; only the timeout callback does. *)
Ltac no_search :=
  split_action;
  try (intros ?; unfold issuesOnly; run_action;
       repeat constructor; by unfold isSearchCall).

Lemma runEffects_no_search (prev cur : State) :
  respects (issuesOnly (fun c => ~ isSearchCall c)) (runEffects prev cur).
Proof.
  unfold runEffects. split_action.
  all: unfold effectEntries, effectJump, effectDetail, effectSearch; no_search.
Qed.

Lemma rerender_no_search (n : nat) (prev cur : State) :
  Forall (fun c => ~ isSearchCall c) (rerender n prev cur).2.
Proof.
  apply (respects_rerender (issuesOnly (fun c => ~ isSearchCall c))
           runEffects_no_search).
Qed.

Lemma runEffects_keeps_searchPanel (prev cur : State) :
  searchQuery prev = searchQuery cur ->
  respects (keeps searchPanel) (runEffects prev cur).
Proof.
  intros Hq. unfold runEffects. rewrite (changed_same searchQuery) by done.
  split_action.
  all: unfold effectEntries, effectJump, effectDetail, searchPanel; frame.
Qed.

Lemma runEffects_opens_window (prev cur acc : State) :
  searchQuery prev ≠ searchQuery cur ->
  let r := (runEffects prev cur acc).1 in
  searchTimer r =
    (if nonEmpty (trim (searchQuery cur))
     then Some {| timer_q := trim (searchQuery cur); due := now acc + 250 |}
     else None) /\
  (nonEmpty (trim (searchQuery cur)) = false ->
   searchResults r = [] /\ searchOpen r = false).
Proof.
  intros Hq r. subst r. unfold runEffects.
  assert (Hch : changed searchQuery prev cur = true).
  { unfold changed. by rewrite bool_decide_eq_false_2. }
  rewrite Hch.
  set (e1 := if changed selectedTopicId prev cur then _ else _).
  set (e2 := if changed pendingJumpEntryId prev cur || _ then _ else _).
  set (e3 := if changed entriesRef prev cur || _ then _ else _).
  assert (H1 : respects (keeps now) e1).
  { subst e1. unfold effectEntries. frame. }
  assert (H2 : respects (keeps now) e2).
  { subst e2. unfold effectJump. frame. }
  assert (H3 : respects (keeps now) e3).
  { subst e3. unfold effectDetail. frame. }
  rewrite !andThen_eq. cbn [fst snd].
  specialize (H1 acc). specialize (H2 (e1 acc).1). specialize (H3 (e2 (e1 acc).1).1).
  unfold keeps in H1, H2, H3.
  assert (Hnow : now (e3 (e2 (e1 acc).1).1).1 = now acc) by congruence.
  revert Hnow. generalize (e3 (e2 (e1 acc).1).1).1. intros s Hnow.
  clear -Hnow. explode_state s. explode_state acc. cbn [now] in Hnow. subst.
  unfold effectSearch. destruct cur. unfold_actions.
  destruct (nonEmpty (trim _)); unfold_actions; done.
Qed.

(** Only typing in the search box and choosing a result change the query. *)
Lemma handle_keeps_query (ev : Event) (render : State) :
  match ev with
  | SearchInput _ | ClickSearchResult _ => True
  | _ => respects (keeps searchQuery) (handle ev render)
  end.
Proof. destruct ev; try done; cbn [handle]; unfold detailSettled; frame. Qed.

(** Only the passing of time moves the clock. *)
Lemma handle_keeps_clock (ev : Event) (render : State) :
  match ev with
  | TimePasses _ => True
  | _ => respects (keeps now) (handle ev render)
  end.
Proof. destruct ev; try done; cbn [handle]; unfold detailSettled; frame. Qed.

(** Only the timeout callback fetches a search or consumes the timeout. *)
Lemma handle_no_search (ev : Event) (render : State) :
  match ev with
  | TimerFires => True
  | _ => respects (issuesOnly (fun c => ~ isSearchCall c)) (handle ev render)
  end.
Proof. destruct ev; try done; cbn [handle]; unfold detailSettled; no_search. Qed.

Lemma handle_keeps_searchTimer (ev : Event) (render : State) :
  match ev with
  | TimerFires => True
  | _ => respects (keeps searchTimer) (handle ev render)
  end.
Proof. destruct ev; try done; cbn [handle]; unfold detailSettled; frame. Qed.

Lemma handle_clockAdvances (ev : Event) (render : State) :
  respects clockAdvances (handle ev render).
Proof.
  destruct ev; cbn [handle]; unfold detailSettled; split_action.
  all: intros ?; unfold clockAdvances;
    try match goal with H : (0 <=? _) = true |- _ => apply Z.leb_le in H end;
    run_action; lia.
Qed.

Lemma handle_query_changed (ev : Event) (s : State) :
  searchQuery (handle ev s s).1 ≠ searchQuery s ->
  now (handle ev s s).1 = now s /\
  Forall (fun c => ~ isSearchCall c) (handle ev s s).2.
Proof.
  intros Hq.
  pose proof (handle_keeps_query ev s) as Hk.
  pose proof (handle_keeps_clock ev s) as Hc.
  pose proof (handle_no_search ev s) as Hn.
  destruct ev; try (exfalso; apply Hq; apply Hk); split;
    solve [apply Hc | apply Hn].
Qed.

Lemma searchCalls_none (calls : list Call) :
  Forall (fun c => ~ isSearchCall c) calls -> searchCalls calls = [].
Proof.
  induction 1 as [|c calls Hc _ IH]; [done|]. unfold searchCalls in *.
  cbn [List.filter]. by rewrite bool_decide_eq_false_2.
Qed.

Lemma searchCalls_app (c1 c2 : list Call) :
  searchCalls (c1 ++ c2) = searchCalls c1 ++ searchCalls c2.
Proof. unfold searchCalls. apply List.filter_app. Qed.

Lemma searchCalls_elem (c : Call) (calls : list Call) :
  c ∈ calls -> isSearchCall c -> c ∈ searchCalls calls.
Proof.
  unfold searchCalls. rewrite !list_elem_of_In, filter_In. intros Hin Hc.
  split; [done | by apply bool_decide_eq_true_2].
Qed.

Lemma searchPanel_eq (a b : State) :
  searchPanel a = searchPanel b ->
  searchTimer a = searchTimer b /\ searchResults a = searchResults b /\
  searchOpen a = searchOpen b.
Proof. unfold searchPanel. by intros [= -> -> ->]. Qed.

Lemma searchClock_eq (a b : State) :
  searchClock a = searchClock b ->
  searchQuery a = searchQuery b /\ now a = now b.
Proof. unfold searchClock. by intros [= -> ->]. Qed.

Lemma rerender_keeps_searchPanel (n : nat) (prev cur : State) :
  searchQuery prev = searchQuery cur ->
  searchPanel (rerender n prev cur).1 = searchPanel cur.
Proof.
  revert prev cur. induction n as [|n IH]; intros prev cur Hq; [done|].
  rewrite rerender_eq. cbn [fst snd].
  pose proof (runEffects_keeps_searchPanel prev cur Hq cur) as Hp.
  destruct (searchClock_eq _ _ (runEffects_keeps_searchClock prev cur cur))
    as [Hc _].
  rewrite IH by done. exact Hp.
Qed.

Lemma step_searchClock (s : State) (ev : Event) :
  searchClock (step s ev).1 = searchClock (handle ev s s).1.
Proof. rewrite step_eq. cbn [fst snd]. apply rerender_keeps_searchClock. Qed.

(** A step that changes the query opens a window at the current time and
    fetches no search. *)
Lemma step_query_changed (s : State) (ev : Event) :
  searchQuery (step s ev).1 ≠ searchQuery s ->
  inWindow (now s) false (step s ev).1 /\
  searchCalls (step s ev).2 = [] /\
  (nonEmpty (trim (searchQuery (step s ev).1)) = false ->
   searchResults (step s ev).1 = [] /\ searchOpen (step s ev).1 = false).
Proof.
  intros Hq.
  destruct (searchClock_eq _ _ (step_searchClock s ev)) as [Hquery Hnow].
  rewrite Hquery in Hq. rewrite Hquery.
  destruct (handle_query_changed ev s Hq) as [Hnow1 Hcalls1].
  unfold inWindow, debounceTimer. rewrite Hnow, Hnow1, Hquery.
  revert Hnow1 Hcalls1 Hq. rewrite step_eq. cbn [fst snd].
  generalize (handle ev s s).2. generalize (handle ev s s).1.
  intros s1 calls1 Hnow1 Hcalls1 Hq.
  rewrite rerender_eq. cbn [fst snd].
  destruct (runEffects_opens_window s s1 s1 (not_eq_sym Hq)) as [Htimer Hempty].
  destruct (searchClock_eq _ _ (runEffects_keeps_searchClock s s1 s1)) as [Hc _].
  destruct (searchPanel_eq _ _ (rerender_keeps_searchPanel 1 s1
                (runEffects s s1 s1).1 (eq_sym Hc))) as (Hp1 & Hp2 & Hp3).
  rewrite Hp1, Hp2, Hp3, Htimer, Hnow1. split_and!; [lia | done | | done].
  rewrite !searchCalls_app, (searchCalls_none calls1) by done.
  rewrite (searchCalls_none _ (runEffects_no_search s s1 s1)).
  by rewrite (searchCalls_none _ (rerender_no_search 1 s1 _)).
Qed.

(** A step other than the timeout firing, that keeps the query, keeps the
    timeout pending and fetches no search. *)
Lemma step_quiet (s : State) (ev : Event) :
  searchQuery (step s ev).1 = searchQuery s ->
  ev ≠ TimerFires ->
  searchTimer (step s ev).1 = searchTimer s /\ searchCalls (step s ev).2 = [].
Proof.
  intros Hq Hev.
  destruct (searchClock_eq _ _ (step_searchClock s ev)) as [Hquery _].
  rewrite Hquery in Hq. clear Hquery.
  pose proof (handle_keeps_searchTimer ev s) as Ht.
  pose proof (handle_no_search ev s) as Hn.
  assert (Ht' : searchTimer (handle ev s s).1 = searchTimer s)
    by (destruct ev; solve [done | apply Ht]).
  assert (Hn' : Forall (fun c => ~ isSearchCall c) (handle ev s s).2)
    by (destruct ev; solve [done | apply Hn]).
  clear Ht Hn. rewrite step_eq. cbn [fst snd].
  destruct (searchPanel_eq _ _ (rerender_keeps_searchPanel 2 s
                (handle ev s s).1 (eq_sym Hq))) as (Hp1 & _ & _).
  rewrite Hp1. split; [done|].
  rewrite searchCalls_app, (searchCalls_none _ Hn').
  by rewrite (searchCalls_none _ (rerender_no_search 2 s _)).
Qed.

Lemma step_clockAdvances (s : State) (ev : Event) : now s ≤ now (step s ev).1.
Proof.
  destruct (searchClock_eq _ _ (step_searchClock s ev)) as [_ ->].
  apply handle_clockAdvances.
Qed.

(** The timeout callback: nothing happens unless the timeout is due; when
    it is, it is consumed and the search for its query is fetched, if that
    query can be encoded. *)
Lemma step_timer_idle (s : State) :
  timerDue s = false -> step s TimerFires = (s, []).
Proof.
  unfold timerDue, step. cbn [handle]. intros Hdue.
  destruct (searchTimer s) as [timer|]; [rewrite Hdue|];
    by rewrite commit_same_deps.
Qed.

Lemma step_timer_fires (s : State) (timer : Timer) :
  searchTimer s = Some timer -> due timer ≤ now s ->
  let r := step s TimerFires in
  searchTimer r.1 = None /\ searchQuery r.1 = searchQuery s /\ now r.1 = now s /\
  r.2 = match encodeURIComponent (timer_q timer) with
        | Some encoded => [searchCall encoded]
        | None => []
        end.
Proof.
  intros Htimer Hdue r. subst r. unfold step. cbn [handle]. rewrite Htimer.
  apply Z.leb_le in Hdue. rewrite Hdue. clear Htimer Hdue.
  unfold searchTimeout. destruct (encodeURIComponent (timer_q timer));
    rewrite commit_same_deps; by explode_state s.
Qed.

(** What one event does inside a debounce window. *)
Lemma window_step (s : State) (ev : Event) (opened : Z) (fired : bool) :
  inWindow opened fired s ->
  searchQuery (step s ev).1 = searchQuery s ->
  (inWindow opened fired (step s ev).1 /\ searchCalls (step s ev).2 = []) \/
  (fired = false /\ ev = TimerFires /\ opened + 250 ≤ now s /\
   nonEmpty (trim (searchQuery s)) = true /\
   inWindow opened true (step s ev).1 /\
   match encodeURIComponent (trim (searchQuery s)) with
   | Some encoded => (step s ev).2 = [searchCall encoded]
   | None => (step s ev).2 = []
   end).
Proof.
  intros [Hopened Htimer] Hq.
  pose proof (step_clockAdvances s ev) as Hclock.
  assert (Hcase : ev = TimerFires \/ ev ≠ TimerFires)
    by (destruct ev; solve [by left | by right]).
  destruct Hcase as [->|Hev].
  - destruct (timerDue s) eqn:Hdue.
    + right. unfold timerDue in Hdue.
      destruct (searchTimer s) as [timer|] eqn:Hpending; [|done].
      apply Z.leb_le in Hdue.
      destruct (step_timer_fires s timer Hpending Hdue) as (Hnone & _ & Hnow & Hcalls).
      destruct fired; [done|]. unfold debounceTimer in Htimer.
      destruct (nonEmpty (trim (searchQuery s))) eqn:Hne; [|done].
      injection Htimer as ->. cbn [due timer_q] in *.
      split_and!; try done.
      * split; [lia | done].
      * rewrite Hcalls. by destruct (encodeURIComponent _).
    + left. rewrite step_timer_idle by done. by split.
  - left. destruct (step_quiet s ev Hq Hev) as [Hsame Hcalls].
    split; [|done]. split; [lia|].
    rewrite Hsame, Htimer. unfold debounceTimer. by rewrite Hq.
Qed.

Lemma queryStays_app (s : State) (evs1 evs2 : list Event) :
  queryStays s (evs1 ++ evs2) <->
  queryStays s evs1 /\ queryStays (run s evs1).1 evs2.
Proof.
  revert s. induction evs1 as [|ev evs1 IH]; intros s.
  - cbn. tauto.
  - rewrite <- app_comm_cons. cbn [queryStays]. rewrite IH, run_eq. cbn [fst].
    tauto.
Qed.

Lemma queryStays_run (s : State) (evs : list Event) :
  queryStays s evs -> searchQuery (run s evs).1 = searchQuery s.
Proof.
  revert s. induction evs as [|ev evs IH]; intros s; [done|].
  intros [Hq Hrest]. rewrite run_eq. cbn [fst]. rewrite IH by done. done.
Qed.

(** A whole run inside a debounce window: the window survives, and at most
    one search is fetched, none once the timeout has fired. *)
Lemma window_run (evs : list Event) (s : State) (opened : Z) (fired : bool) :
  inWindow opened fired s ->
  queryStays s evs ->
  (exists fired', inWindow opened fired' (run s evs).1) /\
  (fired = true -> searchCalls (run s evs).2 = []) /\
  (nonEmpty (trim (searchQuery s)) = false -> searchCalls (run s evs).2 = []) /\
  (length (searchCalls (run s evs).2) ≤ 1)%nat.
Proof.
  revert s fired. induction evs as [|ev evs IH]; intros s fired Hw Hq.
  - cbn. split_and!; eauto.
  - destruct Hq as [Hq Hrest]. rewrite run_eq. cbn [fst snd].
    rewrite searchCalls_app.
    destruct (window_step s ev opened fired Hw Hq)
      as [[Hw1 Hc1] | (-> & -> & Hdue & Hne & Hw1 & Hc1)].
    + destruct (IH _ _ Hw1 Hrest) as (Hex & Hfired & Hempty & Hlen).
      rewrite Hc1. cbn [app]. rewrite Hq in Hempty. done.
    + destruct (IH _ _ Hw1 Hrest) as (Hex & Hfired & _ & _).
      rewrite Hfired by done. rewrite app_nil_r. split_and!; [done | done | congruence |].
      destruct (encodeURIComponent _); rewrite Hc1; [|cbn; lia].
      unfold searchCalls. cbn [List.filter].
      rewrite bool_decide_eq_true_2 by done. cbn. lia.
Qed.

Lemma mount_eq (storage : gmap string string) (clock : Z) :
  mount storage clock =
    ((effectSearch (initialState storage clock) (initialState storage clock)).1,
     [{| request := apiGet_fetch "/topics"; continuation := AfterTopics |}]).
Proof.
  unfold mount, mountEffects, effectSearch, initialState.
  destruct (nonEmpty (trim _)) eqn:Hne.
  all: rewrite commit_same_deps; unfold_actions; cbn; rewrite ?Hne; reflexivity.
Qed.

Lemma mount_window (storage : gmap string string) (clock : Z) :
  inWindow clock false (mount storage clock).1 /\
  searchCalls (mount storage clock).2 = [].
Proof.
  rewrite mount_eq. cbn [fst snd]. split.
  - unfold inWindow, debounceTimer, effectSearch, initialState.
    destruct (nonEmpty (trim _)) eqn:Hne; unfold_actions; rewrite ?Hne;
      split; (lia || done).
  - unfold searchCalls. cbn. by rewrite bool_decide_eq_false_2.
Qed.

(** C3. The search is debounced: a step that changes the search query
    replaces any pending timeout by one due 250 ms later, or by none when the
    trimmed query is empty, in which case the results are cleared and the
    dropdown closed, and fetches no search; mounting does the same for the
    initial query.  While the query stays as it is, a search is fetched only
    by the timeout, only once 250 ms have passed since the query changed, only
    for the trimmed non-empty query, URL-encoded, and at most once. *)
Theorem search_is_debounced :
  (forall (s : State) (ev : Event),
     searchQuery (step s ev).1 ≠ searchQuery s ->
     inWindow (now s) false (step s ev).1 /\
     searchCalls (step s ev).2 = [] /\
     (nonEmpty (trim (searchQuery (step s ev).1)) = false ->
      searchTimer (step s ev).1 = None /\
      searchResults (step s ev).1 = [] /\ searchOpen (step s ev).1 = false)) /\
  (forall (s : State) (value : string),
     searchQuery (step s (SearchInput value)).1 = value) /\
  (forall (storage : gmap string string) (clock : Z),
     inWindow clock false (mount storage clock).1 /\
     searchCalls (mount storage clock).2 = []) /\
  (forall (s : State) (opened : Z) (fired : bool) (evs : list Event),
     inWindow opened fired s ->
     queryStays s evs ->
     (length (searchCalls (run s evs).2) ≤ 1)%nat /\
     (fired = true -> searchCalls (run s evs).2 = []) /\
     (nonEmpty (trim (searchQuery s)) = false -> searchCalls (run s evs).2 = []) /\
     (forall (before after : list Event) (ev : Event) (c : Call),
        evs = before ++ ev :: after ->
        c ∈ (step (run s before).1 ev).2 -> isSearchCall c ->
        ev = TimerFires /\
        opened + 250 ≤ now (run s before).1 /\
        nonEmpty (trim (searchQuery s)) = true /\
        exists encoded,
          encodeURIComponent (trim (searchQuery s)) = Some encoded /\
          c = searchCall encoded)).
Proof.
  split_and!.
  - intros s ev Hq. destruct (step_query_changed s ev Hq) as (Hw & Hc & He).
    split_and!; [done | done |]. intros Hempty. split; [|by apply He].
    destruct Hw as [_ ->]. unfold debounceTimer. by rewrite Hempty.
  - intros s value.
    destruct (searchClock_eq _ _ (step_searchClock s (SearchInput value))) as [-> _].
    cbn [handle]. by explode_state s.
  - apply mount_window.
  - intros s opened fired evs Hw Hq.
    destruct (window_run evs s opened fired Hw Hq) as (_ & Hfired & Hempty & Hlen).
    split_and!; [done | done | done |].
    intros before after ev c -> Hc Hsearch.
    apply queryStays_app in Hq as [Hbefore [Hev _]].
    destruct (window_run before s opened fired Hw Hbefore) as ([fired' Hw'] & _).
    pose proof (queryStays_run s before Hbefore) as Hsame.
    destruct (window_step _ ev opened fired' Hw' Hev)
      as [[_ Hnone] | (_ & -> & Hdue & Hne & _ & Hcalls)].
    + pose proof (searchCalls_elem c _ Hc Hsearch) as Hin.
      rewrite Hnone in Hin. by apply not_elem_of_nil in Hin.
    + rewrite Hsame in Hne, Hcalls. split_and!; [done | done | done |].
      destruct (encodeURIComponent _) as [encoded|]; rewrite Hcalls in Hc.
      * apply list_elem_of_singleton in Hc. by exists encoded.
      * by apply not_elem_of_nil in Hc.
Qed.


(** ** The endpoints the client consumes *)

(** The endpoint a request of the component goes to, read off its path. *)
Ltac to_endpoint :=
  lazymatch goal with
  | |- toListedEndpoint (apiGet_fetch "/topics") => exists GET_topics
  | |- toListedEndpoint (apiGet_fetch ("/entries?topic_id=" +:+ toString ?t +:+ _)) =>
      exists (GET_entries t 2000)
  | |- toListedEndpoint (apiGet_fetch ("/entries/search?q=" +:+ ?q +:+ _)) =>
      exists (GET_entries_search q 20)
  | |- toListedEndpoint (apiGet_fetch ("/entries/" +:+ toString ?i)) =>
      exists (GET_entry i)
  | |- toListedEndpoint (apiGet_fetch "/auth/me") => exists GET_auth_me
  | |- toListedEndpoint (apiPost_fetch "/auth/google" _) => exists POST_auth_google
  | |- toListedEndpoint (apiPost_fetch "/auth/logout" _) => exists POST_auth_logout
  end;
  unfold consumes; split_and!; [reflexivity | reflexivity | cbn; eauto].

Ltac listed :=
  split_action;
  try (intros ?; unfold issuesOnly; run_action;
       repeat constructor; cbn [request]; to_endpoint).

Lemma runEffects_listed (prev cur : State) :
  respects (issuesOnly (fun c => toListedEndpoint (request c))) (runEffects prev cur).
Proof.
  unfold runEffects. split_action.
  all: unfold effectEntries, effectJump, effectDetail, effectSearch; listed.
Qed.

Lemma handle_listed (ev : Event) (render : State) :
  respects (issuesOnly (fun c => toListedEndpoint (request c))) (handle ev render).
Proof. destruct ev; cbn [handle]; unfold detailSettled; listed. Qed.

Lemma step_listed (s : State) (ev : Event) :
  Forall (fun c => toListedEndpoint (request c)) (step s ev).2.
Proof.
  apply (respects_step (issuesOnly (fun c => toListedEndpoint (request c)))
           handle_listed runEffects_listed).
Qed.

Lemma run_listed (evs : list Event) (s : State) :
  Forall (fun c => toListedEndpoint (request c)) (run s evs).2.
Proof.
  apply (respects_run (issuesOnly (fun c => toListedEndpoint (request c)))
           handle_listed runEffects_listed).
Qed.

Lemma mount_listed (storage : gmap string string) (clock : Z) :
  Forall (fun c => toListedEndpoint (request c)) (mount storage clock).2.
Proof. rewrite mount_eq. cbn [snd]. repeat constructor. cbn [request]. to_endpoint. Qed.

Lemma appStep_listed (s : AppState) (ev : AppEvent) :
  Forall (fun c => toListedEndpoint (app_request c)) (appStep s ev).2.
Proof.
  destruct ev; cbn [appStep]; unfold meSettled, googleSettled, logoutSettled,
    handleGoogleCredential, handleLogout.
  all: repeat case_match; cbn [snd]; repeat constructor; cbn [app_request]; to_endpoint.
Qed.

Lemma appRun_listed (evs : list AppEvent) (s : AppState) :
  Forall (fun c => toListedEndpoint (app_request c)) (appRun s evs).2.
Proof.
  revert s. induction evs as [|ev evs IH]; intros s; cbn [appRun]; [constructor|].
  pose proof (appStep_listed s ev) as Hs. destruct (appStep s ev) as [s1 calls].
  specialize (IH s1). destruct (appRun s1 evs) as [s2 more]. cbn [snd] in *.
  by apply Forall_app.
Qed.

Lemma issued_listed (r : Request) : issued r -> toListedEndpoint r.
Proof.
  intros [(storage & clock & evs & Hr) | (evs & Hr)].
  - apply list_elem_of_fmap in Hr as (c & -> & Hc).
    apply elem_of_app in Hc as [Hc|Hc].
    + by eapply Forall_forall in Hc; [|apply mount_listed].
    + by eapply Forall_forall in Hc; [|apply run_listed].
  - apply list_elem_of_fmap in Hr as (c & -> & Hc).
    apply elem_of_app in Hc as [Hc|Hc].
    + cbn in Hc. apply list_elem_of_singleton in Hc as ->. cbn. to_endpoint.
    + by eapply Forall_forall in Hc; [|apply appRun_listed].
Qed.


(** *** Each listed endpoint is consumed in some execution *)

Lemma mount_topicChoice (storage : gmap string string) (clock : Z) :
  topicChoice (mount storage clock).1 = ([], None, [], storage).
Proof.
  rewrite mount_eq. cbn [fst]. unfold effectSearch, initialState, topicChoice.
  by run_action.
Qed.

Lemma issued_topics : issued (apiGet_fetch "/topics").
Proof.
  left. exists ∅, 0, []. rewrite mount_eq. cbn [fst snd run app fmap list_fmap request].
  apply list_elem_of_singleton. reflexivity.
Qed.

(** The topics used to exhibit an execution: a single one. *)
Lemma defaultTopicId_single (x : Topic.t) : defaultTopicId [x] = Some (Topic.id x).
Proof. unfold defaultTopicId. cbn [find head]. by destruct (String.eqb _ _). Qed.

Lemma issued_entries :
  issued (apiGet_fetch ("/entries?topic_id=" +:+ toString 1 +:+ "&limit=2000")).
Proof.
  left. exists ∅, 0, [TopicsSettled (respond [Topic.mk 1 "Mixed" false])].
  pose proof (mount_topicChoice ∅ 0) as Hm. revert Hm.
  generalize (mount ∅ 0).2. generalize (mount ∅ 0).1. intros m calls Hm.
  unfold topicChoice in Hm. injection Hm as _ Hsel _ Hstore.
  rewrite run_single. apply (list_elem_of_fmap_2 request _ (entriesCall 1)).
  apply elem_of_app. right.
  apply step_topic_changed; [done | by rewrite Hsel |].
  pose proof (step_topics_loaded [Topic.mk 1 "Mixed" false]
                (respond [Topic.mk 1 "Mixed" false]) m eq_refl) as Hc.
  rewrite (topicsLoaded_default _ 1) in Hc.
  - unfold topicChoice in Hc. by injection Hc as _ -> _ _.
  - by rewrite Hstore.
  - apply defaultTopicId_single.
  - done.
Qed.

Lemma effectDetail_call (render acc : State) (e : EntryOut.t) :
  at_index (entries render) (currentIndex render) = Some e ->
  (effectDetail render acc).2 =
    [{| request := apiGet_fetch ("/entries/" +:+ toString (EntryOut.id e));
        continuation := AfterDetail CardDetail (entryDetailReqRef acc + 1) |}].
Proof. intros He. unfold effectDetail. rewrite He. by explode_state acc. Qed.

(** When a non-empty list of entries arrives, the detail of its first entry
    is fetched. *)
Lemma step_entries_fetches_detail (s : State) (e : EntryOut.t) (rest : list EntryOut.t) :
  exists requestId,
    {| request := apiGet_fetch ("/entries/" +:+ toString (EntryOut.id e));
       continuation := AfterDetail CardDetail requestId |}
    ∈ (step s (EntriesSettled (respond (e :: rest)))).2.
Proof.
  rewrite step_eq. cbn [fst snd handle].
  destruct (entriesSettled_respond (e :: rest) s) as (He & Hi & _).
  assert (Href : entriesRef (entriesSettled (respond (e :: rest)) s).1
                 = S (entriesRef s)) by by explode_state s.
  revert He Hi Href. generalize (entriesSettled (respond (e :: rest)) s).1.
  intros s1 He Hi Href. rewrite rerender_eq. cbn [fst snd]. unfold runEffects.
  assert (Hch : changed entriesRef s s1 = true).
  { unfold changed. rewrite bool_decide_eq_false_2; [done | lia]. }
  rewrite Hch. cbn [orb]. rewrite orb_true_r.
  repeat (rewrite andThen_eq; cbn [fst snd]).
  eexists. apply elem_of_app. right. apply elem_of_app. left.
  apply elem_of_app. right. apply elem_of_app. right. apply elem_of_app. left.
  erewrite effectDetail_call; [apply list_elem_of_singleton; reflexivity|].
  by rewrite He, Hi.
Qed.

Lemma issued_entry : issued (apiGet_fetch ("/entries/" +:+ toString 5)).
Proof.
  left.
  exists ∅, 0, [TopicsSettled (respond [Topic.mk 1 "Mixed" false]);
               EntriesSettled (respond [EntryOut.mk 5 "cat" "a small animal" "gato"])].
  generalize (mount ∅ 0).2. generalize (mount ∅ 0).1. intros m calls.
  rewrite run_cons_snd, run_cons_snd.
  generalize (step m (TopicsSettled (respond [Topic.mk 1 "Mixed" false]))).
  intros [s1 calls1].
  destruct (step_entries_fetches_detail s1
              (EntryOut.mk 5 "cat" "a small animal" "gato") []) as [requestId Hin].
  eapply (list_elem_of_fmap_2 request) in Hin. cbn [request EntryOut.id] in Hin.
  rewrite !fmap_app. apply elem_of_app. right. apply elem_of_app. right.
  apply elem_of_app. by left.
Qed.

Lemma searchClock_is (s : State) (query : string) (time : Z) :
  searchClock s = (query, time) -> searchQuery s = query /\ now s = time.
Proof. unfold searchClock. by intros [= -> ->]. Qed.

Lemma mount_searchClock (storage : gmap string string) (clock : Z) :
  searchClock (mount storage clock).1 = ("", clock).
Proof.
  rewrite mount_eq. cbn [fst]. unfold effectSearch, initialState, searchClock.
  by run_action.
Qed.

Lemma step_time_passes (s : State) (ms : Z) :
  0 ≤ ms -> searchClock (step s (TimePasses ms)).1 = (searchQuery s, now s + ms).
Proof.
  intros Hms. rewrite step_searchClock. cbn [handle].
  apply Z.leb_le in Hms. rewrite Hms. by explode_state s.
Qed.

Lemma issued_search (text encoded : string) :
  text ≠ "" -> nonEmpty (trim text) = true ->
  encodeURIComponent (trim text) = Some encoded ->
  issued (apiGet_fetch ("/entries/search?q=" +:+ encoded +:+ "&limit=20")).
Proof.
  intros Htext Hne Henc. left.
  exists ∅, 0, [SearchInput text; TimePasses 250; TimerFires].
  destruct (searchClock_is _ _ _ (mount_searchClock ∅ 0)) as [Hq0 Hnow0].
  revert Hq0 Hnow0. generalize (mount ∅ 0).2. generalize (mount ∅ 0).1.
  intros m calls Hq0 Hnow0.
  rewrite !run_cons_snd, run_nil.
  assert (Hq1 : searchQuery (step m (SearchInput text)).1 = text).
  { destruct (searchClock_eq _ _ (step_searchClock m (SearchInput text))) as [-> _].
    cbn [handle]. by explode_state m. }
  destruct (step_query_changed m (SearchInput text)) as ([_ Htimer1] & _).
  { rewrite Hq1, Hq0. done. }
  pose proof (step_clockAdvances m (SearchInput text)) as Hadv.
  revert Hq1 Htimer1 Hadv. generalize (step m (SearchInput text)).
  intros [s1 calls1]. cbn [fst snd]. intros Hq1 Htimer1 Hadv.
  destruct (searchClock_is _ _ _ (step_time_passes s1 250 ltac:(lia))) as [Hq2 Hnow2].
  destruct (step_quiet s1 (TimePasses 250)) as [Htimer2 _]; [done | done |].
  revert Hq2 Hnow2 Htimer2. generalize (step s1 (TimePasses 250)).
  intros [s2 calls2]. cbn [fst snd]. intros Hq2 Hnow2 Htimer2.
  unfold debounceTimer in Htimer1. rewrite Hq1, Hne in Htimer1.
  rewrite Htimer1 in Htimer2.
  destruct (step_timer_fires s2 _ Htimer2) as (_ & _ & _ & Hcalls).
  { cbn [due]. lia. }
  cbn [timer_q] in Hcalls. rewrite Henc in Hcalls.
  apply (list_elem_of_fmap_2 request _ (searchCall encoded)).
  apply elem_of_app. right. apply elem_of_app. right. apply elem_of_app. right.
  apply elem_of_app. left. rewrite Hcalls. apply list_elem_of_singleton. reflexivity.
Qed.

Lemma issued_auth_me : issued (apiGet_fetch "/auth/me").
Proof. right. exists []. cbn. apply list_elem_of_singleton. reflexivity. Qed.

Lemma issued_auth_google (text : string) :
  nonEmpty (trim text) = true ->
  issued (apiPost_fetch "/auth/google"
            (Some (JObj [("credential", JStr (trim text))]))).
Proof.
  intros Hne. right.
  exists [MeSettled (respondError 401); GoogleCallback (Some text)].
  cbn. rewrite Hne. cbn. right. apply list_elem_of_singleton. reflexivity.
Qed.

Lemma issued_auth_logout : issued (apiPost_fetch "/auth/logout" None).
Proof.
  right.
  exists [MeSettled (respond (AuthUser.mk 1 "ana@example.com" None None)); Logout].
  cbn. right. apply list_elem_of_singleton. reflexivity.
Qed.

(** C6. The REST endpoints the frontend consumes are exactly the seven of
    the interface: every request [MainFlashcard] or [App] issues in any
    execution goes to one of them, with the search query the output of
    [encodeURIComponent] and [limit] a number, and each of the seven is
    requested in some execution (the search and the Google sign-in once some
    text survives [trim], and for the search can be encoded). *)
Theorem consumed_endpoints_are_the_listed_ones :
  (forall r : Request, issued r -> exists e : Endpoint, consumes r e) /\
  (exists r, issued r /\ consumes r GET_topics) /\
  (exists r t, issued r /\ consumes r (GET_entries t 2000)) /\
  (exists r id, issued r /\ consumes r (GET_entry id)) /\
  (exists r, issued r /\ consumes r GET_auth_me) /\
  (exists r, issued r /\ consumes r POST_auth_logout) /\
  (forall text encoded : string,
     text ≠ "" -> nonEmpty (trim text) = true ->
     encodeURIComponent (trim text) = Some encoded ->
     (exists r, issued r /\ consumes r (GET_entries_search encoded 20)) /\
     (exists r, issued r /\ consumes r POST_auth_google)).
Proof.
  split_and!.
  - apply issued_listed.
  - eexists. split; [apply issued_topics | done].
  - eexists _, 1. split; [apply issued_entries | done].
  - eexists _, 5. split; [apply issued_entry | done].
  - eexists. split; [apply issued_auth_me | done].
  - eexists. split; [apply issued_auth_logout | done].
  - intros text encoded Htext Hne Henc. split.
    + eexists. split; [by eapply issued_search|].
      split_and!; [done | done |]. by eexists.
    + eexists. split; [by eapply issued_auth_google | done].
Qed.

(** * More properties of the components *)

(** ** The examples on the card *)

Lemma insertByRank_perm (x : ExampleOut.t) (sorted : list ExampleOut.t) :
  insertByRank x sorted ≡ₚ x :: sorted.
Proof.
  induction sorted as [|y rest IH]; cbn [insertByRank]; [done|].
  destruct (ExampleOut.rank y <=? ExampleOut.rank x); [|done].
  rewrite IH. apply Permutation_swap.
Qed.

Lemma sortByRank_snoc (examples : list ExampleOut.t) (x : ExampleOut.t) :
  sortByRank (examples ++ [x]) = insertByRank x (sortByRank examples).
Proof. unfold sortByRank. by rewrite foldl_app. Qed.

Lemma sortByRank_perm (examples : list ExampleOut.t) :
  sortByRank examples ≡ₚ examples.
Proof.
  induction examples as [|x examples IH] using rev_ind; [done|].
  rewrite sortByRank_snoc, insertByRank_perm, IH.
  by rewrite Permutation_app_comm.
Qed.

Lemma insertByRank_sorted (x : ExampleOut.t) (sorted : list ExampleOut.t) :
  byRank sorted -> byRank (insertByRank x sorted).
Proof.
  induction sorted as [|y rest IH]; cbn [insertByRank byRank]; [done|].
  intros [Hy Hrest].
  destruct (ExampleOut.rank y <=? ExampleOut.rank x) eqn:Hle; cbn [byRank].
  - apply Z.leb_le in Hle. split; [|auto].
    rewrite insertByRank_perm. by constructor.
  - apply Z.leb_gt in Hle. split_and!; [|done|done].
    constructor; [lia|].
    eapply Forall_impl; [exact Hy|]. intros z Hz. cbn in Hz |- *. lia.
Qed.

Lemma sortByRank_sorted (examples : list ExampleOut.t) : byRank (sortByRank examples).
Proof.
  induction examples as [|x examples IH] using rev_ind; [done|].
  rewrite sortByRank_snoc. by apply insertByRank_sorted.
Qed.

(** The sort is stable at the front: the first of the examples of lowest
    rank comes first. *)
Lemma sortByRank_head (before after : list ExampleOut.t) (m : ExampleOut.t) :
  (forall e, e ∈ before -> ExampleOut.rank m < ExampleOut.rank e) ->
  (forall e, e ∈ after -> ExampleOut.rank m ≤ ExampleOut.rank e) ->
  head (sortByRank (before ++ m :: after)) = Some m.
Proof.
  intros Hbefore. induction after as [|x after IH] using rev_ind; intros Hafter.
  - rewrite sortByRank_snoc.
    assert (Hall : Forall (fun e => ExampleOut.rank m < ExampleOut.rank e)
                          (sortByRank before)).
    { rewrite sortByRank_perm. by apply Forall_forall. }
    destruct Hall as [|y rest Hy _]; cbn [insertByRank]; [done|].
    apply Z.leb_gt in Hy. by rewrite Hy.
  - assert (Hx : ExampleOut.rank m ≤ ExampleOut.rank x).
    { apply Hafter, elem_of_app. right. apply list_elem_of_singleton. done. }
    assert (Hhead : head (sortByRank (before ++ m :: after)) = Some m).
    { apply IH. intros e He. apply Hafter, elem_of_app. by left. }
    replace (before ++ m :: after ++ [x]) with ((before ++ m :: after) ++ [x])
      by (by rewrite <- app_assoc).
    rewrite sortByRank_snoc.
    destruct (sortByRank (before ++ m :: after)) as [|y rest]; [done|].
    injection Hhead as ->. cbn [insertByRank].
    apply Z.leb_le in Hx. by rewrite Hx.
Qed.

Lemma sortByRank_length (examples : list ExampleOut.t) :
  length (sortByRank examples) = length examples.
Proof. by rewrite sortByRank_perm. Qed.

(** X1. The examples on the card: with no example both sides show no
    example; otherwise the front shows, between double quotes, the text of
    the example of lowest rank, the first of them in the order of the
    response when several share that rank, and nothing when that text is
    empty; with one example the back shows the same; with two or more the
    back shows an example that ranks next. *)
Theorem card_shows_lowest_ranked_examples (detail : EntryDetail.t) :
  let examples := EntryDetail.examples detail in
  let view := cardViewOf detail in
  (examples = [] ->
     CardView.exampleFront view = "" /\ CardView.exampleBack view = "") /\
  (forall before m after,
     examples = before ++ m :: after ->
     (forall e, e ∈ before -> ExampleOut.rank m < ExampleOut.rank e) ->
     (forall e, e ∈ after -> ExampleOut.rank m ≤ ExampleOut.rank e) ->
     CardView.exampleFront view = quotedIfAny (ExampleOut.text_en m)) /\
  (forall e, examples = [e] ->
     CardView.exampleBack view = CardView.exampleFront view) /\
  ((2 ≤ length examples)%nat ->
     exists m next rest,
       examples ≡ₚ m :: next :: rest /\
       ExampleOut.rank m ≤ ExampleOut.rank next /\
       (forall e, e ∈ rest -> ExampleOut.rank next ≤ ExampleOut.rank e) /\
       CardView.exampleFront view = quotedIfAny (ExampleOut.text_en m) /\
       CardView.exampleBack view = quotedIfAny (ExampleOut.text_en next)).
Proof.
  intros examples view. unfold view, cardViewOf. fold examples.
  cbn [CardView.exampleFront CardView.exampleBack]. split_and!.
  - intros ->. done.
  - intros before m after -> Hbefore Hafter.
    pose proof (sortByRank_head before after m Hbefore Hafter) as Hhead.
    destruct (sortByRank (before ++ m :: after)) as [|y rest]; [done|].
    by injection Hhead as ->.
  - intros e ->. done.
  - intros Hlen.
    pose proof (sortByRank_perm examples) as Hperm.
    pose proof (sortByRank_sorted examples) as Hsorted.
    pose proof (sortByRank_length examples) as Hsame.
    destruct (sortByRank examples) as [|m [|next rest]];
      [cbn in Hsame; lia | cbn in Hsame; lia |].
    exists m, next, rest. cbn [lookup list_lookup fmap option_fmap option_map orElse default].
    destruct Hsorted as [Hm [Hnext _]].
    split_and!; [done | by apply Forall_cons in Hm as [? _] | | done | done].
    intros e He. by eapply Forall_forall in Hnext.
Qed.

(** ** The example that is read aloud *)

Lemma dropEndQuotes_snoc (s : string) :
  dropEndQuotes (s +:+ String dquote EmptyString) = dropEndQuotes s.
Proof.
  induction s as [|c rest IH]; [done|].
  change (String c rest +:+ String dquote EmptyString)
    with (String c (rest +:+ String dquote EmptyString)).
  cbn [dropEndQuotes]. by rewrite IH.
Qed.

Lemma stripQuotes_snoc (s : string) :
  stripQuotes (s +:+ String dquote EmptyString) = stripQuotes s.
Proof.
  unfold stripQuotes. induction s as [|c rest IH]; [done|].
  change (String c rest +:+ String dquote EmptyString)
    with (String c (rest +:+ String dquote EmptyString)).
  cbn [dropQuotes]. destruct (isQuote c); [exact IH|].
  exact (dropEndQuotes_snoc (String c rest)).
Qed.

Lemma stripQuotes_quoted (text : string) :
  stripQuotes (quoted text) = stripQuotes text.
Proof.
  unfold quoted. rewrite <- (stripQuotes_snoc text).
  unfold stripQuotes. cbn [dropQuotes].
  replace (isQuote dquote) with true by done. reflexivity.
Qed.

Lemma dropQuotes_bare (s : string) : firstChar s ≠ Some dquote -> dropQuotes s = s.
Proof.
  destruct s as [|c rest]; [done|]. cbn [firstChar dropQuotes].
  unfold isQuote. destruct (Ascii.eqb_spec c dquote) as [->|]; done.
Qed.

Lemma lastChar_dropEndQuotes (s : string) :
  lastChar (dropEndQuotes s) ≠ Some dquote.
Proof.
  induction s as [|c rest IH]; [done|]. cbn [dropEndQuotes].
  destruct (dropEndQuotes rest) as [|d kept] eqn:Hrest.
  - unfold isQuote. destruct (Ascii.eqb_spec c dquote) as [->|Hc]; [done|].
    cbn. congruence.
  - cbn [lastChar] in IH |- *. by destruct (lastChar kept).
Qed.

Lemma dropEndQuotes_bare (s : string) :
  lastChar s ≠ Some dquote -> dropEndQuotes s = s.
Proof.
  induction s as [|c rest IH]; [done|]. cbn [lastChar dropEndQuotes].
  destruct (lastChar rest) as [d|] eqn:Hlast.
  - intros Hd. rewrite IH by done. destruct rest; [done | reflexivity].
  - intros Hc. destruct rest as [|d rest']; [|by cbn in Hlast; destruct (lastChar rest')].
    cbn. unfold isQuote. destruct (Ascii.eqb_spec c dquote) as [->|]; done.
Qed.

Lemma firstChar_dropEndQuotes (s : string) :
  firstChar s ≠ Some dquote -> firstChar (dropEndQuotes s) ≠ Some dquote.
Proof.
  destruct s as [|c rest]; [done|]. cbn [firstChar dropEndQuotes]. intros Hc.
  destruct (dropEndQuotes rest); [|done].
  unfold isQuote. destruct (Ascii.eqb_spec c dquote); [done | by cbn].
Qed.

Lemma firstChar_dropQuotes (s : string) : firstChar (dropQuotes s) ≠ Some dquote.
Proof.
  induction s as [|c rest IH]; [done|]. cbn [dropQuotes]. unfold isQuote.
  destruct (Ascii.eqb_spec c dquote) as [->|Hc]; [done|]. cbn. congruence.
Qed.

Lemma stripQuotes_bareEnds (s : string) : bareEnds (stripQuotes s).
Proof.
  split.
  - apply firstChar_dropEndQuotes, firstChar_dropQuotes.
  - apply lastChar_dropEndQuotes.
Qed.

Lemma stripQuotes_bare (s : string) : bareEnds s -> stripQuotes s = s.
Proof.
  intros [Hfirst Hlast]. unfold stripQuotes.
  rewrite dropQuotes_bare by done. by apply dropEndQuotes_bare.
Qed.

Lemma stripQuotes_quotedIfAny (text : string) :
  stripQuotes (quotedIfAny text) = stripQuotes text.
Proof.
  unfold quotedIfAny, nonEmpty. destruct (String.eqb_spec text "") as [->|]; [done|].
  apply stripQuotes_quoted.
Qed.

(** X2. "Listen example" reads the example without the double quotes the
    card puts around it: what is spoken for the front of the card is the text
    of the example shown there when that text neither starts nor ends with a
    double quote, and in general that text without the double quotes at its
    ends.  Stripping is idempotent and leaves no double quote at either
    end. *)
Theorem listen_example_reads_the_example_text :
  (forall text, stripQuotes (quoted text) = stripQuotes text) /\
  (forall text, bareEnds text -> stripQuotes (quoted text) = text) /\
  (forall s, bareEnds (stripQuotes s)) /\
  (forall s, stripQuotes (stripQuotes s) = stripQuotes s) /\
  (forall (detail : EntryDetail.t) before m after,
     EntryDetail.examples detail = before ++ m :: after ->
     (forall e, e ∈ before -> ExampleOut.rank m < ExampleOut.rank e) ->
     (forall e, e ∈ after -> ExampleOut.rank m ≤ ExampleOut.rank e) ->
     spokenFront (flashcardOf (cardViewOf detail))
       = stripQuotes (ExampleOut.text_en m) /\
     (bareEnds (ExampleOut.text_en m) ->
      spokenFront (flashcardOf (cardViewOf detail)) = ExampleOut.text_en m)).
Proof.
  split_and!.
  - apply stripQuotes_quoted.
  - intros text Hbare. rewrite stripQuotes_quoted. by apply stripQuotes_bare.
  - apply stripQuotes_bareEnds.
  - intros s. apply stripQuotes_bare, stripQuotes_bareEnds.
  - intros detail before m after Hex Hbefore Hafter.
    assert (Hspoken : spokenFront (flashcardOf (cardViewOf detail))
                      = stripQuotes (ExampleOut.text_en m)).
    { unfold spokenFront, flashcardOf, cardViewOf.
      cbn [Flashcard.exampleFront CardView.exampleFront]. rewrite Hex.
      pose proof (sortByRank_head before after m Hbefore Hafter) as Hhead.
      destruct (sortByRank (before ++ m :: after)) as [|y rest]; [done|].
      injection Hhead as ->. apply stripQuotes_quotedIfAny. }
    split; [exact Hspoken|]. intros Hbare. rewrite Hspoken.
    by apply stripQuotes_bare.
Qed.

(** ** The topic modal *)

Lemma byId_snoc (ts : list Topic.t) (x : Topic.t) :
  byId (ts ++ [x]) = <[Topic.id x := x]> (byId ts).
Proof. unfold byId. by rewrite foldl_app. Qed.

(** A later topic replaces an earlier one with the same id. *)
Lemma byId_lookup (ts : list Topic.t) (id : Z) :
  byId ts !! id = find (fun t => Topic.id t =? id) (reverse ts).
Proof.
  induction ts as [|x ts IH] using rev_ind; [done|].
  rewrite byId_snoc, reverse_snoc. cbn [find].
  destruct (Z.eqb_spec (Topic.id x) id) as [<-|Hne].
  - by rewrite lookup_insert_eq.
  - by rewrite lookup_insert_ne.
Qed.

Lemma byId_lookup_Some (ts : list Topic.t) (id : Z) (t : Topic.t) :
  byId ts !! id = Some t -> t ∈ ts /\ Topic.id t = id.
Proof.
  rewrite byId_lookup. intros Hfind. split.
  - apply find_elem in Hfind. by apply elem_of_reverse.
  - apply find_Some_split in Hfind as (_ & _ & _ & Hid & _). by apply Z.eqb_eq.
Qed.

Lemma byId_lookup_known (ts : list Topic.t) (id : Z) :
  is_Some (byId ts !! id) <-> id ∈ Topic.id <$> ts.
Proof.
  split.
  - intros [t Ht]. apply byId_lookup_Some in Ht as [Hin <-].
    by apply list_elem_of_fmap_2.
  - intros Hin. apply list_elem_of_fmap in Hin as (t & -> & Hin).
    rewrite byId_lookup.
    destruct (find _ (reverse ts)) eqn:Hfind; [by eexists|].
    exfalso. apply elem_of_reverse_2 in Hin. revert Hfind Hin.
    generalize (reverse ts). intros l. induction l as [|y l IH]; cbn [find].
    + intros _ Hin. by apply not_elem_of_nil in Hin.
    + destruct (Z.eqb_spec (Topic.id y) (Topic.id t)) as [|Hne]; [done|].
      intros Hnone Hin. apply elem_of_cons in Hin as [->|Hin]; [done | auto].
Qed.

Lemma yourTopics_items (ts : list Topic.t) (ids : list Z) :
  Topic.id <$> omap (fun id => byId ts !! id) ids
    = List.filter (fun id => bool_decide (id ∈ Topic.id <$> ts)) ids.
Proof.
  induction ids as [|id ids IH]; [done|]. cbn [omap list_omap List.filter].
  destruct (byId ts !! id) as [t|] eqn:Hlook.
  - rewrite bool_decide_eq_true_2 by (apply byId_lookup_known; by eexists).
    apply byId_lookup_Some in Hlook as [_ <-]. cbn. by rewrite IH.
  - rewrite bool_decide_eq_false_2; [exact IH|].
    intros Hin. apply byId_lookup_known in Hin as [t Ht]. congruence.
Qed.

Lemma elem_of_filter_iff {A : Type} (p : A -> bool) (xs : list A) (x : A) :
  x ∈ List.filter p xs <-> x ∈ xs /\ p x = true.
Proof. rewrite !list_elem_of_In. apply filter_In. Qed.

Lemma filter_sublist {A : Type} (p : A -> bool) (xs : list A) :
  List.filter p xs `sublist_of` xs.
Proof.
  induction xs as [|x xs IH]; cbn [List.filter]; [done|].
  destruct (p x); by constructor.
Qed.

Lemma filter_sublist_impl {A : Type} (p r : A -> bool) (xs : list A) :
  (forall x, p x = true -> r x = true) ->
  List.filter p xs `sublist_of` List.filter r xs.
Proof.
  intros Himpl. induction xs as [|x xs IH]; cbn [List.filter]; [done|].
  destruct (p x) eqn:Hp.
  - rewrite (Himpl x Hp). by constructor.
  - destruct (r x); [by constructor | done].
Qed.

(** X3. The rows under "Your topics" in the modal follow the list of the
    user, not the list of the server: with a blank search they are the ids
    of "Your topics" that are ids of known topics, in the order the user
    added them; a search keeps the rows whose lower-cased name includes the
    lower-cased, trimmed query.  When two topics share an id the later one is
    shown. *)
Theorem modal_rows_follow_your_topics (ts : list Topic.t) (ids : list Z) (q : string) :
  (nonEmpty (toLowerCase (trim q)) = false ->
     Topic.id <$> yourTopics ts ids q
       = List.filter (fun id => bool_decide (id ∈ Topic.id <$> ts)) ids) /\
  (forall blank,
     nonEmpty (toLowerCase (trim blank)) = false ->
     nonEmpty (toLowerCase (trim q)) = true ->
     yourTopics ts ids q
       = List.filter (fun t => str_includes (toLowerCase (Topic.name t))
                                            (toLowerCase (trim q)))
                     (yourTopics ts ids blank)) /\
  (forall t, t ∈ yourTopics ts ids q -> t ∈ ts /\ Topic.id t ∈ ids) /\
  (forall id before t after,
     ts = before ++ t :: after -> Topic.id t = id ->
     (forall x, x ∈ after -> Topic.id x ≠ id) ->
     byId ts !! id = Some t).
Proof.
  split_and!.
  - intros Hblank. unfold yourTopics. cbv zeta. rewrite Hblank. cbn [negb].
    apply yourTopics_items.
  - intros blank Hblank Hq. unfold yourTopics, matchesQuery. cbv zeta.
    by rewrite Hq, Hblank.
  - intros t Hin.
    assert (Hitem : t ∈ omap (fun id => byId ts !! id) ids).
    { unfold yourTopics in Hin. cbv zeta in Hin.
      destruct (negb _); [done | by apply elem_of_filter_bool in Hin]. }
    apply list_elem_of_omap in Hitem as (id & Hid & Hlook).
    apply byId_lookup_Some in Hlook as [? <-]. done.
  - intros id before t after -> Hid Hafter. rewrite byId_lookup.
    rewrite reverse_app, reverse_cons, <- app_assoc. apply find_Some_split.
    exists (reverse after), (reverse before). split_and!; [done | by apply Z.eqb_eq |].
    intros x Hx. apply Z.eqb_neq, Hafter. by apply elem_of_reverse.
Qed.

Lemma allToShow_elem (ts : list Topic.t) (ids : list Z) (q : string) (t : Topic.t) :
  t ∈ allToShow ts ids q <-> t ∈ filteredAll ts q /\ Topic.id t ∉ ids.
Proof.
  unfold allToShow. cbv zeta. rewrite elem_of_filter_iff, negb_true_iff.
  rewrite bool_decide_eq_false, elem_of_list_to_set. done.
Qed.

Lemma suggested_sublist (ts : list Topic.t) (ids : list Z) (q : string) :
  suggested ts ids q `sublist_of` allToShow ts ids q.
Proof.
  unfold suggested, allToShow. cbv zeta. apply filter_sublist_impl.
  intros x Hx. by apply andb_true_iff in Hx as [_ ?].
Qed.

Lemma addButtons_new (ts : list Topic.t) (ids : list Z) (m : ModalState) (t : Topic.t) :
  t ∈ addButtons ts ids m -> t ∈ ts /\ Topic.id t ∉ ids.
Proof.
  unfold addButtons. intros Hin.
  assert (Hall : t ∈ allToShow ts ids (modal_q m)).
  { apply elem_of_app in Hin as [Hin | Hin].
    - apply (subseteq_take 6) in Hin.
      eapply elem_of_sublist; [exact Hin | apply suggested_sublist].
    - destruct (showAll m); [done | by apply not_elem_of_nil in Hin]. }
  apply allToShow_elem in Hall as [Hfiltered Hnew].
  split; [by eapply filteredAll_known | done].
Qed.

Lemma addToYourTopics_deps (id : Z) (s : State) :
  deps (addToYourTopics id s).1 = deps s.
Proof.
  unfold addToYourTopics. destruct (includes _ _); explode_state s; by unfold_actions.
Qed.

Lemma step_modal_add (s : State) (id : Z) :
  isTopicModalOpen s = true ->
  id ∈ Topic.id <$> addButtons (topics s) (yourTopicIds s) (modal s) ->
  step s (ModalClickAdd id) = addToYourTopics id s.
Proof.
  intros Hopen Hbutton. unfold step. cbn [handle].
  rewrite Hopen, bool_decide_eq_true_2 by done. cbn [andb].
  apply commit_same_deps. by rewrite addToYourTopics_deps.
Qed.

(** What adding a topic leaves alone. *)
Lemma addToYourTopics_frame (id : Z) (s : State) :
  let s' := (addToYourTopics id s).1 in
  topics s' = topics s /\ modal s' = modal s /\
  isTopicModalOpen s' = isTopicModalOpen s /\ selectedTopicId s' = selectedTopicId s.
Proof.
  unfold addToYourTopics. destruct (includes _ _); explode_state s; by unfold_actions.
Qed.

(** X4. The "+ Add" buttons of the modal offer known topics that are not in
    "Your topics", so that a click always appends the topic, stores the new
    list, keeps the modal open and the selection as it is, issues no request,
    and takes the button away.  Every suggestion is also in the list behind
    "See all topics", and a topic that matches the search is in that list
    exactly when it is not in "Your topics". *)
Theorem add_buttons_offer_new_topics :
  (forall ts ids m t, t ∈ addButtons ts ids m -> t ∈ ts /\ Topic.id t ∉ ids) /\
  (forall ts ids q, suggested ts ids q `sublist_of` allToShow ts ids q) /\
  (forall ts ids q t,
     t ∈ filteredAll ts q -> (t ∈ allToShow ts ids q <-> Topic.id t ∉ ids)) /\
  (forall (s : State) (t : Topic.t),
     isTopicModalOpen s = true ->
     t ∈ addButtons (topics s) (yourTopicIds s) (modal s) ->
     let r := step s (ModalClickAdd (Topic.id t)) in
     yourTopicIds r.1 = yourTopicIds s ++ [Topic.id t] /\
     localStorage r.1 !! YOUR_TOPICS_KEY = Some (JSON_stringify (yourTopicIds r.1)) /\
     r.2 = [] /\
     isTopicModalOpen r.1 = true /\
     selectedTopicId r.1 = selectedTopicId s /\
     t ∉ addButtons (topics r.1) (yourTopicIds r.1) (modal r.1)).
Proof.
  split_and!.
  - apply addButtons_new.
  - apply suggested_sublist.
  - intros ts ids q t Hin. rewrite allToShow_elem.
    split; [by intros [_ ?] | by split].
  - intros s t Hopen Hbutton r.
    destruct (addButtons_new _ _ _ _ Hbutton) as [_ Hnew].
    assert (Hstep : r = addToYourTopics (Topic.id t) s)
      by (apply step_modal_add; [done | by apply list_elem_of_fmap_2]).
    rewrite Hstep.
    destruct (addToYourTopics_new _ _ Hnew) as (Hyours & Hstored & Hcalls).
    destruct (addToYourTopics_frame (Topic.id t) s) as (Htopics & Hmodal & Hstill & Hsel).
    split_and!; [done | | done | congruence | done |].
    + rewrite Hstored, Hyours. apply lookup_insert_eq.
    + intros Hagain. apply addButtons_new in Hagain as [_ Hnot].
      apply Hnot. rewrite Hyours. apply elem_of_app. right.
      by apply list_elem_of_singleton.
Qed.

(** ** The selected topic is a known topic *)

Lemma handle_keeps_selection (ev : Event) (render : State) :
  match ev with
  | TopicsSettled _ | ClickSearchResult _ | ModalClickYourTopic _ | ModalClickReset => True
  | _ => respects (keeps selection) (handle ev render)
  end.
Proof. destruct ev; try done; cbn [handle]; unfold detailSettled, selection; frame. Qed.

Lemma selectionKnown_same (s s' : State) :
  selection s' = selection s -> selectionKnown s -> selectionKnown s'.
Proof. unfold selection, selectionKnown. intros [= Ht Hs]. by rewrite Ht, Hs. Qed.

Lemma step_selection (s : State) (ev : Event) :
  selection (step s ev).1 = selection (handle ev s s).1.
Proof.
  pose proof (step_topicChoice s ev) as Hc. unfold topicChoice in Hc.
  unfold selection. by injection Hc as -> -> _ _.
Qed.

Lemma selectSearchResult_selection (item : SearchEntry.t) (s : State) :
  resultTopicKnown s (ClickSearchResult item) ->
  selectionKnown s -> selectionKnown (selectSearchResult s item s).1.
Proof.
  unfold resultTopicKnown, selectSearchResult, selectionKnown.
  destruct (SearchEntry.primary_topic item) as [[topicId name]|];
    cbn [fmap option_fmap option_map fst].
  all: intros Hid Hs; run_action; try done.
  all: by intros t [= <-].
Qed.

Lemma resetYourTopics_selection (s : State) :
  selectionKnown (resetYourTopics s s).1.
Proof.
  unfold resetYourTopics, selectionKnown. run_action; try done.
  all: intros t [= <-]; by apply defaultTopicId_known.
Qed.

Lemma yourTopics_known (ts : list Topic.t) (ids : list Z) (q : string) (id : Z) :
  id ∈ Topic.id <$> yourTopics ts ids q -> id ∈ Topic.id <$> ts /\ id ∈ ids.
Proof.
  intros (t & -> & Hin)%list_elem_of_fmap.
  assert (Hitem : t ∈ omap (fun id => byId ts !! id) ids).
  { unfold yourTopics in Hin. cbv zeta in Hin.
    destruct (negb _); [done | by apply elem_of_filter_bool in Hin]. }
  apply list_elem_of_omap in Hitem as (id & Hid & Hlook).
  apply byId_lookup_Some in Hlook as [Hknown <-].
  split; [by apply list_elem_of_fmap_2 | done].
Qed.

Lemma handle_selection (ev : Event) (s : State) :
  ~ isTopicsLoad ev -> resultTopicKnown s ev ->
  selectionKnown s -> selectionKnown (handle ev s s).1.
Proof.
  intros Hload Hres Hs.
  pose proof (handle_keeps_selection ev s) as Hkeep.
  destruct ev; try (eapply selectionKnown_same; [apply Hkeep | done]); cbn [handle].
  - destruct Hload. by eexists.
  - case_match; [by apply selectSearchResult_selection | done].
  - case_match eqn:Hguard; [|done].
    apply andb_prop in Hguard as [_ Hin%bool_decide_eq_true_1].
    apply yourTopics_known in Hin as [Hknown _].
    unfold selectionKnown in *. run_action. by intros t [= <-].
  - case_match; [apply resetYourTopics_selection | done].
Qed.

Lemma topicsLoaded_selection (t : list Topic.t) (s : State) :
  topics (topicsLoaded t s).1 = t /\
  (selectedTopicId (topicsLoaded t s).1 = selectedTopicId s \/
   forall x, selectedTopicId (topicsLoaded t s).1 = Some x -> x ∈ Topic.id <$> t).
Proof.
  assert (Hpick : forall ids : list Z,
            (forall id, id ∈ ids -> id ∈ Topic.id <$> t) ->
            forall x, orElse (head ids) (defaultTopicId t) = Some x ->
                      x ∈ Topic.id <$> t).
  { intros [|id ids] Hids x; cbn [head orElse].
    - apply defaultTopicId_known.
    - intros [= <-]. apply Hids. left. }
  explode_state s. unfold topicsLoaded. unfold_actions.
  destruct (lengthIsZero _) as [[]|]; unfold_actions; [| |by auto].
  - destruct (defaultTopicId t) as [d|] eqn:Hd; unfold_actions.
    + destruct (Z.eqb_spec d 0); unfold_actions.
      * destruct (filterNumbers _ _) eqn:Hf; unfold_actions; [|by auto].
        split; [done | right]. intros x. rewrite ?Hd. apply Hpick.
        by eapply filterNumbers_known.
      * cbn [filterNumbers omap list_omap].
        rewrite keep_known by by apply defaultTopicId_known.
        unfold_actions. split; [done | right].
        intros x [= <-]. by apply defaultTopicId_known.
    + destruct (filterNumbers _ _) eqn:Hf; unfold_actions; [|by auto].
      split; [done | right]. intros x. rewrite ?Hd. apply Hpick.
      by eapply filterNumbers_known.
  - destruct (filterNumbers _ _) eqn:Hf; unfold_actions; [|by auto].
    split; [done | right]. apply Hpick. by eapply filterNumbers_known.
Qed.

Lemma step_topics_selection (s : State) fetched :
  selectedTopicId s = None ->
  selectionKnown (step s (TopicsSettled fetched)).1.
Proof.
  intros Hnone. eapply selectionKnown_same; [apply step_selection|].
  cbn [handle]. unfold topicsSettled, selectionKnown.
  destruct (apiGet fetched) as [t|e].
  - rewrite andThen_eq. cbn [fst snd].
    destruct (topicsLoaded_selection t s) as [Ht Hsel].
    assert (Hgoal : forall x, selectedTopicId (topicsLoaded t s).1 = Some x ->
                              x ∈ Topic.id <$> topics (topicsLoaded t s).1).
    { rewrite Ht. destruct Hsel as [Hsel|Hsel]; [|done]. rewrite Hsel, Hnone. done. }
    by destruct (topicsLoaded t s).1.
  - explode_state s. unfold topicsFailed. unfold_actions. cbn in Hnone. by subst.
Qed.

Lemma find_exists {A : Type} (p : A -> bool) (xs : list A) (x : A) :
  x ∈ xs -> p x = true -> exists m, find p xs = Some m /\ m ∈ xs /\ p m = true.
Proof.
  induction xs as [|y xs IH]; [by intros ?%not_elem_of_nil|].
  intros Hin Hp. cbn [find]. destruct (p y) eqn:Hy.
  - exists y. split_and!; [done | left | done].
  - apply elem_of_cons in Hin as [->|Hin]; [congruence|].
    destruct (IH Hin Hp) as (m & Hfind & Hm & Hpm).
    exists m. split_and!; [done | by right | done].
Qed.

(** X5. The selected topic is a topic the app knows: it is so after the
    initial load, whatever its outcome, and stays so under every later event,
    under the choice of a search result provided the topic the result points
    to is a known topic.  The badge in the header then shows the name of a
    topic with the selected id.  A row of "Your topics" in the modal selects
    its topic, which is in "Your topics", and closes the modal. *)
Theorem selected_topic_is_known :
  (forall (storage : gmap string string) (clock : Z) fetched,
     selectionKnown (run (mount storage clock).1 [TopicsSettled fetched]).1) /\
  (forall (s : State) (ev : Event),
     selectionKnown s -> ~ isTopicsLoad ev -> resultTopicKnown s ev ->
     selectionKnown (step s ev).1) /\
  (forall (s : State) (t : Z),
     selectionKnown s -> selectedTopicId s = Some t ->
     exists topic,
       selectedTopic s = Some topic /\ topic ∈ topics s /\ Topic.id topic = t /\
       topicBadge s = Topic.name topic) /\
  (forall (s : State) (topicId : Z),
     isTopicModalOpen s = true ->
     topicId ∈ Topic.id <$>
       yourTopics (topics s) (yourTopicIds s) (modal_q (modal s)) ->
     let r := step s (ModalClickYourTopic topicId) in
     selectedTopicId r.1 = Some topicId /\ isTopicModalOpen r.1 = false /\
     topicId ∈ yourTopicIds s /\ yourTopicIds r.1 = yourTopicIds s).
Proof.
  split_and!.
  - intros storage clock fetched. rewrite run_single.
    apply step_topics_selection.
    pose proof (mount_topicChoice storage clock) as Hm. unfold topicChoice in Hm.
    by injection Hm as _ -> _ _.
  - intros s ev Hs Hload Hres.
    eapply selectionKnown_same; [apply step_selection|]. by apply handle_selection.
  - intros s t Hs Hsel. unfold topicBadge, selectedTopic.
    specialize (Hs t Hsel). apply list_elem_of_fmap in Hs as (x & -> & Hx).
    destruct (find_exists (fun t => bool_decide (Some (Topic.id t) = selectedTopicId s))
                (topics s) x Hx) as (m & -> & Hm & Hpm).
    { by apply bool_decide_eq_true_2. }
    exists m. apply bool_decide_eq_true_1 in Hpm. rewrite Hsel in Hpm.
    split_and!; [done | done | congruence | done].
  - intros s topicId Hopen Hrow r.
    destruct (yourTopics_known _ _ _ _ Hrow) as [_ Hyours].
    pose proof (step_topicChoice s (ModalClickYourTopic topicId)) as Hc.
    cbn [handle] in Hc. rewrite Hopen, bool_decide_eq_true_2 in Hc by done.
    cbn [andb] in Hc. unfold topicChoice in Hc. injection Hc as _ Hsel Hy _.
    fold r in Hsel, Hy.
    assert (Hclosed : isTopicModalOpen r.1 = false).
    { unfold r. rewrite step_eq. cbn [fst snd handle].
      rewrite Hopen, bool_decide_eq_true_2 by done. cbn [andb].
      etrans; [apply (respects_rerender (keeps isTopicModalOpen))|].
      - intros prev cur. unfold runEffects. split_action.
        all: unfold effectEntries, effectJump, effectDetail, effectSearch; frame.
      - by explode_state s. }
    split_and!; [| done | done |].
    + rewrite Hsel. by explode_state s.
    + rewrite Hy. by explode_state s.
Qed.

(** ** Flipping and moving between cards *)

Lemma cardShown_flipped (s : State) (b : bool) :
  cardShown (setIsFlipped b s).1 = cardShown s.
Proof. by explode_state s. Qed.

Lemma step_renders (s : State) (ev : Event) :
  last (renders s ev) = Some (step s ev).1.
Proof.
  unfold renders. cbv zeta. cbn [last]. rewrite step_eq. cbn [fst snd].
  rewrite !rerender_eq. cbn [fst snd rerender]. reflexivity.
Qed.

Lemma renderCard_props (element : option CardProps.t) (mounted : option Card3D.t) :
  Card3D.props <$> renderCard element mounted = element.
Proof.
  destruct element as [p|], mounted as [c|]; cbn; try done. by case_bool_decide.
Qed.

(** After a step of [MainFlashcard] the card is mounted with the props of
    the element on screen. *)
Lemma screenStep_cardMounted (sc : Screen) (ev : Event) :
  cardMounted (screenStep sc (OfMain ev)).1.
Proof.
  unfold cardMounted. cbn [screenStep fst main card3D].
  pose proof (step_renders (main sc) ev) as Hlast.
  apply last_Some in Hlast as [before ->].
  rewrite foldl_app. cbn [foldl]. apply renderCard_props.
Qed.

Lemma renders_flip (s : State) :
  renders s ClickFlip = [(step s ClickFlip).1; (step s ClickFlip).1; (step s ClickFlip).1].
Proof.
  unfold renders. cbv zeta. rewrite step_flip. cbn [handle].
  destruct (cardShown s); cbn [fst skip].
  - assert (Hdeps : deps s = deps (setIsFlipped (negb (isFlipped s)) s).1)
      by by explode_state s.
    rewrite (runEffects_same_deps s) by done. cbn [fst].
    rewrite runEffects_same_deps by done. reflexivity.
  - by rewrite !runEffects_same_deps.
Qed.

Lemma cardElement_shown (s : State) :
  cardShown s = true ->
  exists c, cardElement s = Some (CardProps.mk c (isFlipped s)) /\
            forall b, cardElement (setIsFlipped b s).1 = Some (CardProps.mk c b).
Proof.
  unfold cardShown, cardElement, cardView, errorShown.
  intros [Herr Hdetail%bool_decide_eq_true_1]%andb_prop.
  destruct Hdetail as [detail Hdetail].
  exists (flashcardOf (cardViewOf detail)). revert Herr Hdetail. explode_state s.
  unfold_actions. intros Herr ->. cbn [fmap option_fmap option_map].
  destruct err as [m|]; [|done]. by destruct (nonEmpty m).
Qed.

Lemma cardElement_hidden (s : State) : cardShown s = false -> cardElement s = None.
Proof.
  unfold cardShown, cardElement, cardView. destruct (errorShown s); [done|].
  cbn [negb andb]. intros Hnone%bool_decide_eq_false_1.
  destruct (entryDetail s); [|done]. destruct Hnone. by eexists.
Qed.

(** X6. Two clicks on "Flip" bring [MainFlashcard] back to the state it was
    in, without a request, but hide the Spanish meaning: a click on "Flip"
    does something only while a card is on screen; it then turns the card
    over, and [Flashcard3D], which stays mounted with the same card, resets
    [showSpanish] to false.  So after two clicks the screen is as it was
    exactly when the Spanish meaning was not shown before. *)
Theorem flipping_twice_hides_spanish (sc : Screen) :
  let once := screenStep sc (OfMain ClickFlip) in
  let twice := screenStep once.1 (OfMain ClickFlip) in
  cardMounted sc ->
  (main twice.1 = main sc /\ once.2 = [] /\ twice.2 = [] /\
   run (main sc) [ClickFlip; ClickFlip] = (main sc, [])) /\
  (cardShown (main sc) = false -> once = (sc, [])) /\
  (cardShown (main sc) = true ->
     isFlipped (main once.1) = negb (isFlipped (main sc)) /\
     cardMounted once.1 /\ cardMounted twice.1 /\
     spanishShown once.1 = Some false /\ spanishShown twice.1 = Some false /\
     (CardProps.card ∘ Card3D.props) <$> card3D once.1
       = (CardProps.card ∘ Card3D.props) <$> card3D sc) /\
  (spanishShown sc ≠ Some true -> twice.1 = sc) /\
  (spanishShown sc = Some true -> twice.1 ≠ sc /\ spanishShown twice.1 = Some false).
Proof.
  intros once twice Hmounted.
  assert (Htwice : run (main sc) [ClickFlip; ClickFlip] = (main sc, [])).
  { rewrite run_eq, run_single, (step_flip (main sc)).
    destruct (cardShown (main sc)) eqn:Hshown; cbn [fst snd]; rewrite step_flip.
    - rewrite cardShown_flipped, Hshown. clear. destruct sc as [s c]. cbn [main].
      explode_state s. unfold_actions. by destruct flipped.
    - by rewrite Hshown. }
  assert (Honce : once = ({| main := (step (main sc) ClickFlip).1;
                             card3D := foldl (fun mounted s => renderCard (cardElement s) mounted)
                                             (card3D sc)
                                             (replicate 3 (step (main sc) ClickFlip).1) |},
                          (step (main sc) ClickFlip).2)).
  { unfold once. cbn [screenStep]. by rewrite renders_flip. }
  assert (Htw : twice = ({| main := (step (main once.1) ClickFlip).1;
                            card3D := foldl (fun mounted s => renderCard (cardElement s) mounted)
                                            (card3D once.1)
                                            (replicate 3 (step (main once.1) ClickFlip).1) |},
                          (step (main once.1) ClickFlip).2)).
  { unfold twice. cbn [screenStep]. by rewrite renders_flip. }
  clearbody once twice. subst once twice. cbn [fst snd main card3D replicate foldl].
  unfold cardMounted, spanishShown in *. cbn [main card3D].
  destruct sc as [s mounted]. cbn [main card3D] in *.
  rewrite !step_flip. destruct (cardShown s) eqn:Hshown; cbn [fst snd].
  - rewrite cardShown_flipped, Hshown. cbn [fst snd].
    destruct (cardElement_shown s Hshown) as (c & Helement & Hflipped).
    assert (Hback : (setIsFlipped (negb (isFlipped (setIsFlipped (negb (isFlipped s)) s).1))
                       (setIsFlipped (negb (isFlipped s)) s).1).1 = s).
    { clear. explode_state s. unfold_actions. by destruct flipped. }
    assert (Hside : isFlipped (setIsFlipped (negb (isFlipped s)) s).1 = negb (isFlipped s))
      by by explode_state s.
    rewrite Hback, Hflipped, Helement. rewrite Helement in Hmounted.
    destruct mounted as [[p show]|]; [|done]. cbn in Hmounted. injection Hmounted as ->.
    cbn [renderCard Card3D.props Card3D.showSpanish cardDeps CardProps.card CardProps.flipped].
    rewrite (bool_decide_eq_false_2 ((Flashcard.id c, isFlipped s)
                                     = (Flashcard.id c, negb (isFlipped s))))
      by (intros [=]; by destruct (isFlipped s)).
    rewrite !(bool_decide_eq_true_2 ((Flashcard.id c, negb (isFlipped s))
                                     = (Flashcard.id c, negb (isFlipped s)))) by done.
    rewrite (bool_decide_eq_false_2 ((Flashcard.id c, negb (isFlipped s))
                                     = (Flashcard.id c, isFlipped s)))
      by (intros [=]; by destruct (isFlipped s)).
    rewrite !(bool_decide_eq_true_2 ((Flashcard.id c, isFlipped s)
                                     = (Flashcard.id c, isFlipped s))) by done.
    cbn [fmap option_fmap option_map Card3D.props Card3D.showSpanish compose CardProps.card].
    split_and!; try done.
    + intros Hhidden. destruct show; [done|]. reflexivity.
    + intros [= ->]. split; [|done]. intros [=].
  - rewrite Hshown. cbn [fst snd].
    rewrite (cardElement_hidden s Hshown) in *.
    destruct mounted as [c|]; [done|]. cbn [renderCard fmap option_fmap option_map].
    split_and!; try done.
Qed.

Lemma effectDetail_deps (render s : State) :
  deps (effectDetail render s).1 = deps s.
Proof.
  unfold effectDetail. destruct (at_index _ _); explode_state s; by unfold_actions.
Qed.

(** After an update that changed the index only, the effects fetch the
    detail of the card at the new index and nothing else. *)
Lemma rerender_index_changed (prev cur : State) :
  selectedTopicId prev = selectedTopicId cur ->
  pendingJumpEntryId prev = pendingJumpEntryId cur ->
  entriesRef prev = entriesRef cur ->
  searchQuery prev = searchQuery cur ->
  currentIndex prev ≠ currentIndex cur ->
  rerender 2 prev cur = effectDetail cur cur.
Proof.
  intros Hsel Hpending Href Hquery Hindex.
  assert (Hround : runEffects prev cur cur = effectDetail cur cur).
  { unfold runEffects.
    assert (Hch : changed currentIndex prev cur = true).
    { unfold changed. by rewrite bool_decide_eq_false_2. }
    rewrite Hch, !changed_same by done. cbn [orb].
    rewrite !andThen_eq. cbn [skip fst snd].
    rewrite app_nil_r. by destruct (effectDetail cur cur). }
  rewrite rerender_eq, Hround.
  rewrite rerender_same_deps by by rewrite effectDetail_deps.
  cbn [fst snd]. rewrite app_nil_r. by destruct (effectDetail cur cur).
Qed.

Lemma step_next (s : State) (e : EntryOut.t) :
  cardShown s = true -> 0 ≤ currentIndex s ->
  at_index (entries s) (currentIndex s + 1) = Some e ->
  moved s (currentIndex s + 1) e (step s ClickNext).
Proof.
  intros Hshown Hpos He.
  assert (Hnext : canNext s = true).
  { unfold canNext. apply Z.ltb_lt. unfold at_index in He.
    destruct (_ <? 0); [done|]. apply lookup_lt_Some in He. lia. }
  unfold step. cbn [handle]. rewrite Hshown, Hnext. cbn [andb].
  unfold goNext. rewrite Hnext. cbn [negb].
  apply Z.ltb_lt in Hnext. unfold commit.
  rewrite rerender_index_changed;
    [| by explode_state s | by explode_state s | by explode_state s
     | by explode_state s | explode_state s; unfold_actions; lia ].
  unfold effectDetail, moved.
  assert (Hto : Z.min (Z.of_nat (length (entries s)) - 1) (currentIndex s + 1)
                = currentIndex s + 1) by lia.
  explode_state s. unfold_actions. rewrite Hto. cbn [entries currentIndex] in He.
  rewrite He. by unfold_actions.
Qed.

Lemma step_prev (s : State) (e : EntryOut.t) :
  cardShown s = true -> 0 < currentIndex s ->
  at_index (entries s) (currentIndex s - 1) = Some e ->
  moved s (currentIndex s - 1) e (step s ClickPrev).
Proof.
  intros Hshown Hpos He.
  assert (Hprev : canPrev s = true) by by apply Z.ltb_lt.
  unfold step. cbn [handle]. rewrite Hshown, Hprev. cbn [andb].
  unfold goPrev. rewrite Hprev. cbn [negb]. unfold commit.
  rewrite rerender_index_changed;
    [| by explode_state s | by explode_state s | by explode_state s
     | by explode_state s | explode_state s; unfold_actions; lia ].
  unfold effectDetail, moved.
  assert (Hto : Z.max 0 (currentIndex s - 1) = currentIndex s - 1) by lia.
  explode_state s. unfold_actions. rewrite Hto. cbn [entries currentIndex] in He.
  rewrite He. by unfold_actions.
Qed.

(** X7. "Next" and then "Prev" return to the card the user was on: when a
    card is on screen and is not the last one, the two clicks leave the index
    and the list as they were, the card unflipped, and fetch the detail of the
    next card and then again the detail of the card itself, with the two next
    request ids, so that the response to the first of the two is dropped. *)
Theorem next_then_prev_returns (s : State) (here next : EntryOut.t) :
  cardShown s = true ->
  at_index (entries s) (currentIndex s) = Some here ->
  at_index (entries s) (currentIndex s + 1) = Some next ->
  let r := run s [ClickNext; ClickPrev] in
  currentIndex r.1 = currentIndex s /\ entries r.1 = entries s /\
  isFlipped r.1 = false /\
  entryDetailReqRef r.1 = entryDetailReqRef s + 2 /\
  r.2 = [{| request := apiGet_fetch ("/entries/" +:+ toString (EntryOut.id next));
            continuation := AfterDetail CardDetail (entryDetailReqRef s + 1) |};
         {| request := apiGet_fetch ("/entries/" +:+ toString (EntryOut.id here));
            continuation := AfterDetail CardDetail (entryDetailReqRef s + 2) |}] /\
  (forall fetched,
     step r.1 (DetailSettled CardDetail (entryDetailReqRef s + 1) fetched) = (r.1, [])).
Proof.
  intros Hshown Hhere Hnext r.
  assert (Hpos : 0 ≤ currentIndex s).
  { unfold at_index in Hhere. destruct (Z.ltb_spec (currentIndex s) 0); [done | lia]. }
  destruct (step_next s next Hshown Hpos Hnext)
    as (Hi & He & Hf & Href & Hdetail & Herr & _ & Hcalls).
  assert (Hshown1 : cardShown (step s ClickNext).1 = true).
  { unfold cardShown, errorShown in *. rewrite Herr, Hdetail.
    apply andb_prop in Hshown as [_ ->]. done. }
  destruct (step_prev (step s ClickNext).1 here Hshown1)
    as (Hi2 & He2 & Hf2 & Href2 & _ & _ & _ & Hcalls2).
  { lia. }
  { rewrite Hi, He. by replace (currentIndex s + 1 - 1) with (currentIndex s) by lia. }
  unfold r. rewrite run_eq, run_single. cbn [fst snd].
  rewrite Hcalls, Hcalls2, Hi2, He2, Hf2, Href2, Hi, He, Href.
  split_and!; [lia | done | done | lia | |].
  - by replace (entryDetailReqRef s + 1 + 1) with (entryDetailReqRef s + 2) by lia.
  - intros fetched. apply step_stale. rewrite Href2, Href. lia.
Qed.

(** ** Search results *)

Lemma step_search_fulfilled (s : State) fetched (results : list SearchEntry.t) :
  apiGet fetched = Fulfilled results ->
  let r := step s (SearchSettled fetched) in
  searchResults r.1 = results /\ searchOpen r.1 = true /\
  searchLoading r.1 = false /\ searchQuery r.1 = searchQuery s /\ r.2 = [].
Proof.
  intros Hget r. subst r. unfold step. cbn [handle]. unfold searchSettled.
  rewrite Hget. rewrite commit_same_deps; by explode_state s.
Qed.

Lemma step_search_input (s : State) (value : string) :
  searchQuery (step s (SearchInput value)).1 = value.
Proof.
  destruct (searchClock_eq _ _ (step_searchClock s (SearchInput value))) as [-> _].
  cbn [handle]. by explode_state s.
Qed.

(** X8. A search response is adopted whatever the search box holds by then:
    the results it brings fill the dropdown and open it, and nothing else is
    requested.  So when the user has emptied the box in the meantime, which
    clears and closes the dropdown, the response to the earlier search opens
    it again with its results. *)
Theorem late_search_response_is_adopted :
  (forall (s : State) fetched (results : list SearchEntry.t),
     apiGet fetched = Fulfilled results ->
     let r := step s (SearchSettled fetched) in
     searchResults r.1 = results /\ searchOpen r.1 = true /\
     searchLoading r.1 = false /\ searchQuery r.1 = searchQuery s /\ r.2 = []) /\
  (forall (s : State) (value : string) fetched (results : list SearchEntry.t),
     searchQuery s ≠ value -> nonEmpty (trim value) = false ->
     apiGet fetched = Fulfilled results ->
     let emptied := (step s (SearchInput value)).1 in
     let r := run s [SearchInput value; SearchSettled fetched] in
     searchResults emptied = [] /\ searchOpen emptied = false /\
     searchTimer emptied = None /\
     searchQuery r.1 = value /\ searchResults r.1 = results /\ searchOpen r.1 = true).
Proof.
  split; [exact step_search_fulfilled|].
  intros s value fetched results Hedit Hblank Hget emptied r.
  pose proof (step_search_input s value) as Hvalue. fold emptied in Hvalue.
  destruct (step_query_changed s (SearchInput value)) as ([_ Htimer] & _ & Hcleared).
  { fold emptied. by rewrite Hvalue. }
  fold emptied in Htimer, Hcleared. rewrite Hvalue in Hcleared.
  destruct (Hcleared Hblank) as [Hresults Hopen].
  unfold debounceTimer in Htimer. rewrite Hvalue, Hblank in Htimer.
  destruct (step_search_fulfilled emptied fetched results Hget)
    as (Hr & Ho & _ & Hq & _).
  unfold r. rewrite run_eq, run_single. cbn [fst snd]. fold emptied.
  rewrite Hq, Hvalue. done.
Qed.

(** ** The jump to a search result *)

Lemma findIndex_found {A : Type} (p : A -> bool) (xs : list A) :
  0 ≤ findIndex p xs ->
  exists x, at_index xs (findIndex p xs) = Some x /\ p x = true.
Proof.
  unfold at_index. induction xs as [|y xs IH]; cbn [findIndex]; [lia|].
  destruct (p y) eqn:Hy; [intros _; by exists y|].
  destruct (Z.ltb_spec (findIndex p xs) 0) as [|Hpos]; [lia|]. intros _.
  destruct (IH Hpos) as (x & Hx & Hp). exists x. split; [|done].
  destruct (Z.ltb_spec (findIndex p xs) 0); [lia|].
  destruct (Z.ltb_spec (findIndex p xs + 1) 0); [lia|].
  replace (Z.to_nat (findIndex p xs + 1)) with (S (Z.to_nat (findIndex p xs))) by lia.
  exact Hx.
Qed.

Lemma findIndex_missing {A : Type} (p : A -> bool) (xs : list A) :
  findIndex p xs < 0 <-> forall x, x ∈ xs -> p x = false.
Proof.
  induction xs as [|y xs IH]; cbn [findIndex].
  - split; [by intros _ x ?%not_elem_of_nil | lia].
  - destruct (p y) eqn:Hy.
    + split; [lia|]. intros Hall. specialize (Hall y). rewrite Hy in Hall.
      discriminate Hall. left.
    + destruct (Z.ltb_spec (findIndex p xs) 0) as [Hneg|Hpos].
      * split; [|lia]. intros _ x [->|Hx]%elem_of_cons; [done|]. by apply IH.
      * split; [lia|]. intros Hall.
        assert (findIndex p xs < 0); [|lia].
        apply IH. intros x Hx. apply Hall. by right.
Qed.

Lemma effectJump_found (render : State) (x : Z) :
  pendingJumpEntryId render = Some x -> x ≠ 0 ->
  0 ≤ findIndex (fun e => EntryOut.id e =? x) (entries render) ->
  effectJump render =
    (setIsFlipped false >>
     setCurrentIndex (findIndex (fun e => EntryOut.id e =? x) (entries render)) >>
     setPendingJumpEntryId None).
Proof.
  intros Hpending Hx Hidx. unfold effectJump. rewrite Hpending. cbn [ifTruthy].
  destruct (Z.eqb_spec x 0); [done|].
  rewrite bool_decide_eq_false_2.
  - apply Z.leb_le in Hidx. by rewrite Hidx.
  - intros Hnil. rewrite Hnil in Hidx. cbn in Hidx. lia.
Qed.

(** The effects after new entries arrived: the jump effect and the detail
    effect. *)
Lemma runEffects_entries_changed (prev cur acc : State) :
  selectedTopicId prev = selectedTopicId cur ->
  searchQuery prev = searchQuery cur ->
  entriesRef prev ≠ entriesRef cur ->
  runEffects prev cur acc = (effectJump cur >> effectDetail cur) acc.
Proof.
  intros Hsel Hquery Href. unfold runEffects.
  assert (Hch : changed entriesRef prev cur = true).
  { unfold changed. by rewrite bool_decide_eq_false_2. }
  rewrite Hch, (changed_same selectedTopicId), (changed_same searchQuery) by done.
  rewrite orb_true_r. cbn [orb].
  rewrite !andThen_eq. cbn [skip fst snd]. by rewrite app_nil_r.
Qed.

(** The effects when no jump is pending and neither the topic, the list nor
    the query changed: the detail effect, if the index changed. *)
Lemma runEffects_jump_done (prev cur : State) :
  selectedTopicId prev = selectedTopicId cur ->
  searchQuery prev = searchQuery cur ->
  entriesRef prev = entriesRef cur ->
  truthy (pendingJumpEntryId cur) = false ->
  runEffects prev cur cur =
    if changed currentIndex prev cur then effectDetail cur cur else (cur, []).
Proof.
  intros Hsel Hquery Href Hidle. unfold runEffects.
  rewrite (changed_same selectedTopicId), (changed_same searchQuery),
    (changed_same entriesRef) by done.
  rewrite orb_false_r. cbn [orb]. rewrite !andThen_eq. cbn [skip fst snd].
  assert (Hjump : (if changed pendingJumpEntryId prev cur then effectJump cur else skip) cur
                  = (cur, [])).
  { destruct (changed _ _ _); [by apply effectJump_idle | done]. }
  rewrite Hjump. cbn [fst snd].
  destruct (changed currentIndex prev cur); cbn [skip fst snd];
    [|done]. rewrite app_nil_r. by destruct (effectDetail cur cur).
Qed.

Lemma effectDetail_keeps_jumpState (render : State) :
  respects (keeps jumpState) (effectDetail render).
Proof. unfold effectDetail, jumpState. frame. Qed.

Lemma effectSearch_keeps_jumpState (prev cur : State) :
  respects (keeps jumpState)
    (if changed searchQuery prev cur then window_clearTimeout >> effectSearch cur
     else skip).
Proof. unfold effectSearch, jumpState. frame. Qed.

Lemma effectEntries_keeps_jumpState (render : State) :
  respects (keeps jumpState) (effectEntries render).
Proof. unfold effectEntries, jumpState. frame. Qed.

Lemma jumpState_eq (a b : State) :
  jumpState a = jumpState b ->
  entries a = entries b /\ currentIndex a = currentIndex b /\
  pendingJumpEntryId a = pendingJumpEntryId b.
Proof. unfold jumpState. by intros [= -> -> ->]. Qed.

Lemma effectDetail_at (render s : State) (e : EntryOut.t) :
  at_index (entries render) (currentIndex render) = Some e ->
  (effectDetail render s).2 = [cardDetailCall (EntryOut.id e) (entryDetailReqRef s + 1)] /\
  entryDetailReqRef (effectDetail render s).1 = entryDetailReqRef s + 1 /\
  isFlipped (effectDetail render s).1 = isFlipped s.
Proof.
  intros He. unfold effectDetail, cardDetailCall. rewrite He. by explode_state s.
Qed.

(** When the entries of the topic arrive while a jump to entry [x] is
    pending and [x] is in the list at [idx]. *)
Lemma step_entries_jump (s : State) (list : list EntryOut.t) (x : Z) (e : EntryOut.t) :
  pendingJumpEntryId s = Some x -> x ≠ 0 ->
  0 ≤ findIndex (fun e => EntryOut.id e =? x) list ->
  at_index list (findIndex (fun e => EntryOut.id e =? x) list) = Some e ->
  let r := step s (EntriesSettled (respond list)) in
  entries r.1 = list /\
  currentIndex r.1 = findIndex (fun e => EntryOut.id e =? x) list /\
  pendingJumpEntryId r.1 = None /\ isFlipped r.1 = false /\
  last r.2 = Some (cardDetailCall (EntryOut.id e) (entryDetailReqRef r.1)).
Proof.
  intros Hpending Hx Hidx He r. subst r.
  set (idx := findIndex (fun e => EntryOut.id e =? x) list) in *.
  rewrite step_eq. cbn [fst snd handle].
  destruct (entriesSettled_respond list s) as (Hent & Hzero & _ & _ & Hp & Hnone).
  assert (Href : entriesRef (entriesSettled (respond list) s).1 = S (entriesRef s))
    by by explode_state s.
  assert (Hsel : selectedTopicId s = selectedTopicId (entriesSettled (respond list) s).1)
    by by explode_state s.
  assert (Hquery : searchQuery s = searchQuery (entriesSettled (respond list) s).1)
    by by explode_state s.
  rewrite Hnone. cbn [app].
  revert Hent Hzero Hp Href Hsel Hquery.
  generalize (entriesSettled (respond list) s).1. intros s1 Hent Hzero Hp Href Hsel Hquery.
  rewrite Hpending in Hp.
  (* the first round: the jump, and the detail of the first card *)
  rewrite rerender_eq. cbn [fst snd].
  rewrite runEffects_entries_changed by (done || lia).
  rewrite andThen_eq. cbn [fst snd].
  rewrite (effectJump_found s1 x) by (by rewrite ?Hent).
  rewrite Hent. fold idx.
  set (jumped := ((setIsFlipped false >> setCurrentIndex idx >>
                   setPendingJumpEntryId None) s1).1).
  assert (Hjumped : selectedTopicId jumped = selectedTopicId s1 /\
                    searchQuery jumped = searchQuery s1 /\
                    entriesRef jumped = entriesRef s1 /\
                    entries jumped = list /\ currentIndex jumped = idx /\
                    pendingJumpEntryId jumped = None /\ isFlipped jumped = false /\
                    entryDetailReqRef jumped = entryDetailReqRef s1).
  { unfold jumped. rewrite <- Hent. by explode_state s1. }
  assert (Hcalls : ((setIsFlipped false >> setCurrentIndex idx >>
                     setPendingJumpEntryId None) s1).2 = []) by by explode_state s1.
  rewrite Hcalls. cbn [app]. clearbody jumped.
  destruct Hjumped as (Hj1 & Hj2 & Hj3 & Hj4 & Hj5 & Hj6 & Hj7 & Hj8).
  assert (Hfirst : exists first, at_index (entries s1) (currentIndex s1) = Some first).
  { rewrite Hent, Hzero. unfold at_index in *.
    destruct (Z.ltb_spec idx 0); [lia|]. cbn.
    destruct list; [by rewrite lookup_nil in He | by eexists]. }
  destruct Hfirst as [first Hfirst].
  destruct (effectDetail_at s1 jumped first Hfirst) as (Hc1 & Hr1 & Hf1).
  destruct (jumpState_eq _ _ (effectDetail_keeps_jumpState s1 jumped)) as (He2 & Hi2 & Hp2).
  pose proof (effectDetail_deps s1 jumped) as Hd2. unfold deps in Hd2.
  injection Hd2 as Hs2 _ Href2 _ Hq2.
  rewrite Hc1.
  revert Hr1 Hf1 He2 Hi2 Hp2 Hs2 Href2 Hq2.
  generalize (effectDetail s1 jumped).1. intros s2 Hr1 Hf1 He2 Hi2 Hp2 Hs2 Href2 Hq2.
  (* the second round: the detail of the card jumped to *)
  rewrite rerender_eq. cbn [fst snd rerender]. rewrite app_nil_r.
  rewrite runEffects_jump_done; [| congruence | congruence | congruence | by rewrite Hp2, Hj6].
  unfold changed. rewrite Hzero, Hi2, Hj5.
  case_bool_decide as Hsame; cbn [negb fst snd].
  - (* it was the first card *)
    rewrite <- Hsame, Hzero, Hent in *.
    assert (first = e) by congruence. subst first.
    split_and!; [congruence | congruence | congruence | congruence |].
    cbn. by rewrite Hr1.
  - assert (Hat : at_index (entries s2) (currentIndex s2) = Some e)
      by (by rewrite He2, Hi2, Hj4, Hj5).
    destruct (effectDetail_at s2 s2 e Hat) as (Hc3 & Hr3 & Hf3).
    destruct (jumpState_eq _ _ (effectDetail_keeps_jumpState s2 s2)) as (He3 & Hi3 & Hp3).
    rewrite Hc3.
    split_and!; [congruence | congruence | congruence | congruence |].
    cbn. by rewrite Hr3.
Qed.

(** The click on a search result whose topic is not the selected one, up to
    the effects. *)
Lemma handle_result_other_topic (s : State) (item : SearchEntry.t)
    (target : Z) (name : string) :
  resultOnScreen s item ->
  SearchEntry.primary_topic item = Some (target, name) ->
  target ≠ 0 -> selectedTopicId s ≠ Some target ->
  let h := handle (ClickSearchResult item) s s in
  h.2 = [] /\
  selectedTopicId h.1 = Some target /\
  pendingJumpEntryId h.1 = Some (SearchEntry.id item) /\
  entries h.1 = entries s /\ currentIndex h.1 = currentIndex s /\
  entriesRef h.1 = entriesRef s /\
  searchQuery h.1 = "" /\ searchOpen h.1 = false /\
  isFlipped h.1 = false /\ entryDetail h.1 = None /\
  entryDetailReqRef h.1 = entryDetailReqRef s + 1 /\
  target ∈ yourTopicIds h.1 /\ topics h.1 = topics s.
Proof.
  intros (Hopen & Hloading & Hin) Htopic Ht Hsel h. subst h. cbn [handle].
  rewrite Hopen, Hloading, bool_decide_eq_true_2 by done. cbn [orb andb negb].
  unfold selectSearchResult. rewrite Htopic.
  cbn [fmap option_fmap option_map fst truthy].
  destruct (Z.eqb_spec target 0); [done|].
  rewrite bool_decide_eq_true_2 by congruence. cbn [negb andb].
  clear Hopen Hloading Hin.
  explode_state s. unfold_actions.
  destruct (includes _ target) eqn:Hknown; unfold_actions; split_and!; try done.
  - by apply bool_decide_eq_true_1 in Hknown.
  - apply elem_of_app. right. by apply list_elem_of_singleton.
Qed.

(** The effects leave the index and the pending jump alone when no jump is
    pending, the list is empty, or the entry to jump to is not in it. *)
Lemma effectJump_keeps_jumpState (render : State) :
  truthy (pendingJumpEntryId render) = false \/ entries render = [] \/
  (exists x, pendingJumpEntryId render = Some x /\
             findIndex (fun e => EntryOut.id e =? x) (entries render) < 0) ->
  respects (keeps jumpState) (effectJump render).
Proof.
  intros Hcase s. unfold keeps.
  destruct Hcase as [Hidle | [Hnil | (x & Hpending & Hmiss)]].
  - by rewrite effectJump_idle.
  - unfold effectJump, ifTruthy. rewrite Hnil.
    destruct (pendingJumpEntryId render) as [x|]; [|done].
    by destruct (x =? 0).
  - unfold effectJump, ifTruthy. rewrite Hpending.
    destruct (x =? 0); [done|]. case_bool_decide; [done|].
    apply Z.leb_gt in Hmiss. rewrite Hmiss. unfold jumpState. by explode_state s.
Qed.

Lemma runEffects_keeps_jumpState (prev cur : State) :
  truthy (pendingJumpEntryId cur) = false \/ entries cur = [] \/
  (exists x, pendingJumpEntryId cur = Some x /\
             findIndex (fun e => EntryOut.id e =? x) (entries cur) < 0) ->
  respects (keeps jumpState) (runEffects prev cur).
Proof.
  intros Hcase. unfold runEffects. split_action.
  all: first [ by apply effectJump_keeps_jumpState
             | apply effectEntries_keeps_jumpState
             | apply effectDetail_keeps_jumpState
             | unfold effectSearch, jumpState; frame ].
Qed.

Lemma step_keeps_jumpState (s : State) (ev : Event) :
  let h := (handle ev s s).1 in
  truthy (pendingJumpEntryId h) = false \/ entries h = [] \/
  (exists x, pendingJumpEntryId h = Some x /\
             findIndex (fun e => EntryOut.id e =? x) (entries h) < 0) ->
  jumpState (step s ev).1 = jumpState h.
Proof.
  intros h Hcase. rewrite step_eq. cbn [fst snd]. fold h.
  rewrite rerender_eq. cbn [fst snd].
  pose proof (runEffects_keeps_jumpState s h Hcase h) as Hfirst. unfold keeps in Hfirst.
  set (s1 := (runEffects s h h).1) in *.
  rewrite rerender_eq. cbn [fst snd rerender].
  rewrite <- Hfirst. apply (runEffects_keeps_jumpState h s1).
  destruct (jumpState_eq _ _ Hfirst) as (He & _ & Hp). by rewrite He, Hp.
Qed.

Lemma runEffects_keeps_closed (prev cur : State) :
  respects (maintains (fun s => searchOpen s = false)) (runEffects prev cur).
Proof.
  unfold runEffects. split_action.
  all: unfold effectEntries, effectJump, effectDetail, effectSearch; split_action.
  all: intros s; unfold maintains; by run_action.
Qed.

Lemma step_keeps_closed (s : State) (ev : Event) :
  searchOpen (handle ev s s).1 = false -> searchOpen (step s ev).1 = false.
Proof.
  intros Hclosed. rewrite step_eq. cbn [fst snd].
  by apply (respects_rerender (maintains (fun s => searchOpen s = false))
              runEffects_keeps_closed).
Qed.

(** What the click on a search result of another topic does, whatever the
    list on screen holds. *)
Lemma step_result_other_topic (s : State) (item : SearchEntry.t)
    (target : Z) (name : string) :
  resultOnScreen s item ->
  SearchEntry.primary_topic item = Some (target, name) ->
  target ≠ 0 -> selectedTopicId s ≠ Some target ->
  let r := step s (ClickSearchResult item) in
  selectedTopicId r.1 = Some target /\ entriesCall target ∈ r.2 /\
  target ∈ yourTopicIds r.1 /\ searchQuery r.1 = "" /\ searchOpen r.1 = false.
Proof.
  intros Hshown Htopic Ht Hsel r. subst r.
  destruct (handle_result_other_topic s item target name Hshown Htopic Ht Hsel)
    as (_ & Hs & _ & _ & _ & _ & Hq & Ho & _ & _ & _ & Hy & _).
  pose proof (step_topicChoice s (ClickSearchResult item)) as Hc.
  unfold topicChoice in Hc.
  assert (Hsel' : selectedTopicId (step s (ClickSearchResult item)).1
                  = selectedTopicId (handle (ClickSearchResult item) s s).1)
    by congruence.
  assert (Hyours : yourTopicIds (step s (ClickSearchResult item)).1
                   = yourTopicIds (handle (ClickSearchResult item) s s).1)
    by congruence.
  clear Hc.
  destruct (searchClock_eq _ _ (step_searchClock s (ClickSearchResult item))) as [Hquery _].
  assert (Hnew : selectedTopicId (step s (ClickSearchResult item)).1 = Some target)
    by congruence.
  destruct (step_topic_changed s (ClickSearchResult item) target Ht Hsel Hnew) as [Hcall _].
  split_and!; [done | done | congruence | congruence | by apply step_keeps_closed].
Qed.

Lemma step_entries_idle (s : State) (list : list EntryOut.t) :
  truthy (pendingJumpEntryId s) = false ->
  jumpState (step s (EntriesSettled (respond list))).1 = (list, 0, pendingJumpEntryId s).
Proof.
  intros Hidle.
  destruct (entriesSettled_respond list s) as (Hent & Hzero & _ & _ & Hp & _).
  rewrite step_keeps_jumpState; cbn [handle].
  - unfold jumpState. by rewrite Hent, Hzero, Hp.
  - left. by rewrite Hp.
Qed.

Lemma shownCard_eq (a b : State) :
  shownCard a = shownCard b ->
  deps a = deps b /\ entryDetail a = entryDetail b /\ entries a = entries b /\
  pendingJumpEntryId a = pendingJumpEntryId b /\ currentIndex a = currentIndex b.
Proof. unfold shownCard, deps. intros [= ? ? ? ? ? ? ?]. split_and!; congruence. Qed.

(** The effects after a click that changed the topic and the pending jump,
    the list and the index being as they were. *)
Lemma runEffects_topic_and_jump (prev cur acc : State) :
  selectedTopicId prev ≠ selectedTopicId cur ->
  pendingJumpEntryId prev ≠ pendingJumpEntryId cur ->
  entriesRef prev = entriesRef cur -> currentIndex prev = currentIndex cur ->
  runEffects prev cur acc =
    (effectEntries cur >> effectJump cur >>
     (if changed searchQuery prev cur then window_clearTimeout >> effectSearch cur
      else skip)) acc.
Proof.
  intros Hsel Hpending Href Hindex. unfold runEffects.
  assert (Hch1 : changed selectedTopicId prev cur = true).
  { unfold changed. by rewrite bool_decide_eq_false_2. }
  assert (Hch2 : changed pendingJumpEntryId prev cur = true).
  { unfold changed. by rewrite bool_decide_eq_false_2. }
  rewrite Hch1, Hch2, (changed_same entriesRef), (changed_same currentIndex) by done.
  cbn [orb]. rewrite !andThen_eq. cbn [skip fst snd app]. reflexivity.
Qed.

Lemma effectEntries_at (render acc : State) (t : Z) :
  selectedTopicId render = Some t -> t ≠ 0 ->
  let a := effectEntries render acc in
  a.2 = [entriesCall t] /\ shownCard a.1 = shownCard acc /\
  loading a.1 = true /\ errMsg a.1 = None /\
  entryDetailReqRef a.1 = entryDetailReqRef acc.
Proof.
  intros Hsel Ht. cbv zeta. unfold effectEntries. rewrite Hsel. cbn [ifTruthy].
  destruct (Z.eqb_spec t 0); [done|]. by explode_state acc.
Qed.

(** The jump effect when the entry is not in a list that is not empty. *)
Lemma effectJump_missing_at (render acc : State) (x : Z) :
  pendingJumpEntryId render = Some x -> x ≠ 0 -> entries render ≠ [] ->
  findIndex (fun e => EntryOut.id e =? x) (entries render) < 0 ->
  let a := effectJump render acc in
  a.2 = [jumpFallbackCall x (entryDetailReqRef acc + 1)] /\
  shownCard a.1 = shownCard acc /\
  loading a.1 = true /\ errMsg a.1 = None /\
  entryDetailReqRef a.1 = entryDetailReqRef acc + 1.
Proof.
  intros Hpending Hx Hlist Hidx. cbv zeta. unfold effectJump. rewrite Hpending.
  cbn [ifTruthy]. destruct (Z.eqb_spec x 0); [done|].
  rewrite bool_decide_eq_false_2 by done.
  apply Z.leb_gt in Hidx. rewrite Hidx. by explode_state acc.
Qed.

Lemma effectJump_empty (render : State) :
  entries render = [] -> effectJump render = skip.
Proof.
  intros Hnil. unfold effectJump, ifTruthy. rewrite Hnil.
  destruct (pendingJumpEntryId render) as [x|]; [|done]. by destruct (x =? 0).
Qed.

Lemma effectSearch_at (prev cur acc : State) :
  let a := (if changed searchQuery prev cur then window_clearTimeout >> effectSearch cur
            else skip) acc in
  a.2 = [] /\ shownCard a.1 = shownCard acc /\
  loading a.1 = loading acc /\ errMsg a.1 = errMsg acc /\
  entryDetailReqRef a.1 = entryDetailReqRef acc.
Proof.
  cbv zeta. unfold effectSearch.
  destruct (changed searchQuery prev cur); [|done].
  destruct (negb _); by explode_state acc.
Qed.

(** What the click on a search result of another topic requests: the
    entries of the topic and, the list on screen not being empty and not
    holding the entry, the detail of the entry as well. *)
Lemma step_result_other_topic_calls (s : State) (item : SearchEntry.t)
    (target : Z) (name : string) :
  resultOnScreen s item ->
  SearchEntry.primary_topic item = Some (target, name) ->
  target ≠ 0 -> selectedTopicId s ≠ Some target ->
  SearchEntry.id item ≠ 0 ->
  pendingJumpEntryId s ≠ Some (SearchEntry.id item) ->
  (forall shown, shown ∈ entries s -> EntryOut.id shown ≠ SearchEntry.id item) ->
  let r := step s (ClickSearchResult item) in
  pendingJumpEntryId r.1 = Some (SearchEntry.id item) /\
  entryDetail r.1 = None /\ loading r.1 = true /\ errMsg r.1 = None /\
  entries r.1 = entries s /\ currentIndex r.1 = currentIndex s /\
  (entries s = [] ->
     r.2 = [entriesCall target] /\ entryDetailReqRef r.1 = entryDetailReqRef s + 1) /\
  (entries s ≠ [] ->
     r.2 = [entriesCall target;
            jumpFallbackCall (SearchEntry.id item) (entryDetailReqRef r.1)] /\
     entryDetailReqRef r.1 = entryDetailReqRef s + 2).
Proof.
  intros Hshown Htopic Ht Hsel Hx Hold Hmissing r. subst r.
  destruct (handle_result_other_topic s item target name Hshown Htopic Ht Hsel)
    as (Hcalls & Hs & Hp & Hent & Hi & Href & Hq & _ & _ & Hdetail & Hreq & _).
  assert (Hidx : findIndex (fun e => EntryOut.id e =? SearchEntry.id item) (entries s) < 0).
  { apply findIndex_missing. intros shown Hin. apply Z.eqb_neq. by apply Hmissing. }
  rewrite step_eq. cbn [fst snd]. rewrite Hcalls. cbn [app].
  revert Hs Hp Hent Hi Href Hq Hdetail Hreq.
  generalize (handle (ClickSearchResult item) s s).1.
  intros h Hs Hp Hent Hi Href Hq Hdetail Hreq.
  rewrite rerender_eq. cbn [fst snd].
  rewrite runEffects_topic_and_jump by congruence.
  rewrite (andThen_eq (effectEntries h)). cbn [fst snd].
  destruct (effectEntries_at h h target Hs Ht) as (Hc1 & Hk1 & Hl1 & Hm1 & Hr1).
  revert Hc1 Hk1 Hl1 Hm1 Hr1.
  generalize (effectEntries h h). intros first Hc1 Hk1 Hl1 Hm1 Hr1.
  rewrite (andThen_eq (effectJump h)). cbn [fst snd].
  destruct (decide (entries s = [])) as [Hnil | Hlist].
  - rewrite (effectJump_empty h) by congruence. cbn [skip fst snd app].
    destruct (effectSearch_at s h first.1) as (Hc3 & Hk3 & Hl3 & Hm3 & Hr3).
    revert Hc3 Hk3 Hl3 Hm3 Hr3.
    generalize ((if changed searchQuery s h then window_clearTimeout >> effectSearch h
                 else skip) first.1).
    intros third Hc3 Hk3 Hl3 Hm3 Hr3.
    rewrite Hc1, Hc3. cbn [app].
    assert (Hk : shownCard third.1 = shownCard h) by congruence.
    apply shownCard_eq in Hk as (Hd & He & Hn & Hpd & Hid).
    rewrite rerender_same_deps by (symmetry; exact Hd). cbn [fst snd].
    split_and!; [congruence | congruence | congruence | congruence | congruence
                | congruence | | intros Hne; by destruct Hne].
    intros _. split; [done | congruence].
  - destruct (effectJump_missing_at h first.1 (SearchEntry.id item))
      as (Hc2 & Hk2 & Hl2 & Hm2 & Hr2); [congruence | done | congruence | congruence |].
    revert Hc2 Hk2 Hl2 Hm2 Hr2.
    generalize (effectJump h first.1). intros second Hc2 Hk2 Hl2 Hm2 Hr2.
    destruct (effectSearch_at s h second.1) as (Hc3 & Hk3 & Hl3 & Hm3 & Hr3).
    revert Hc3 Hk3 Hl3 Hm3 Hr3.
    generalize ((if changed searchQuery s h then window_clearTimeout >> effectSearch h
                 else skip) second.1).
    intros third Hc3 Hk3 Hl3 Hm3 Hr3.
    rewrite Hc1, Hc2, Hc3. cbn [app].
    assert (Hk : shownCard third.1 = shownCard h) by congruence.
    apply shownCard_eq in Hk as (Hd & He & Hn & Hpd & Hid).
    rewrite rerender_same_deps by (symmetry; exact Hd). cbn [fst snd].
    split_and!; [congruence | congruence | congruence | congruence | congruence
                | congruence | done |].
    intros _. split; [|lia]. repeat f_equal. lia.
Qed.

(** The answer to the detail request of a pending jump, its request id
    being current: the jump is over, whatever the answer. *)
Lemma step_jump_fallback_current (s : State) fetched :
  let r := step s (DetailSettled JumpFallback (entryDetailReqRef s) fetched) in
  r.2 = [] /\ pendingJumpEntryId r.1 = None /\ loading r.1 = false /\
  jumpState r.1 = (entries s, currentIndex s, None) /\
  match apiGet fetched with
  | Fulfilled detail => entryDetail r.1 = Some detail /\ isFlipped r.1 = false
  | Rejected e => errMsg r.1 = Some (messageOr e "Failed to open entry")
  end.
Proof.
  cbv zeta. unfold step. cbn [handle detailSettled]. unfold jumpDetailSettled, jumpState.
  destruct (apiGet fetched) as [detail|e].
  all: rewrite commit_pending_cleared;
    explode_state s; unfold_actions; rewrite ?bool_decide_eq_true_2 by done; done.
Qed.

(** X9. A search result of another topic is jumped to when the entries of
    its topic arrive while the jump is pending.  The click selects the topic
    of the result, adds it to "Your topics", empties and closes the search,
    remembers the entry and fetches the entries of the topic; when the list
    on screen is not empty and does not hold the entry, it fetches the detail
    of the entry as well.  When the entries arrive while the jump is pending
    and hold the entry, the card of the entry is the current card, unflipped,
    the jump is over, the last request issued is the detail of the entry with
    the request id that is current, and every detail response still under way
    is dropped.  When the response to the detail request of the click arrives
    before the entries, it ends the jump, and the entries then make the first
    card of the topic the current card: the jump is lost. *)
Theorem search_result_of_another_topic_is_jumped_to
    (s : State) (item : SearchEntry.t) (target : Z) (name : string) :
  resultOnScreen s item ->
  SearchEntry.primary_topic item = Some (target, name) ->
  target ≠ 0 -> selectedTopicId s ≠ Some target ->
  SearchEntry.id item ≠ 0 ->
  pendingJumpEntryId s ≠ Some (SearchEntry.id item) ->
  (forall shown, shown ∈ entries s -> EntryOut.id shown ≠ SearchEntry.id item) ->
  let r1 := step s (ClickSearchResult item) in
  (selectedTopicId r1.1 = Some target /\
   target ∈ yourTopicIds r1.1 /\ searchQuery r1.1 = "" /\ searchOpen r1.1 = false /\
   pendingJumpEntryId r1.1 = Some (SearchEntry.id item) /\
   entries r1.1 = entries s /\ currentIndex r1.1 = currentIndex s /\
   (entries s = [] -> r1.2 = [entriesCall target]) /\
   (entries s ≠ [] ->
      r1.2 = [entriesCall target;
              jumpFallbackCall (SearchEntry.id item) (entryDetailReqRef r1.1)])) /\
  (forall (arrival : State) fetched (list : list EntryOut.t) (e : EntryOut.t),
     let idx := findIndex (fun e => EntryOut.id e =? SearchEntry.id item) list in
     let r2 := step arrival (EntriesSettled fetched) in
     apiGet fetched = Fulfilled list ->
     pendingJumpEntryId arrival = Some (SearchEntry.id item) ->
     at_index list idx = Some e ->
     entries r2.1 = list /\ currentIndex r2.1 = idx /\
     EntryOut.id e = SearchEntry.id item /\
     pendingJumpEntryId r2.1 = None /\ isFlipped r2.1 = false /\
     last r2.2 = Some (cardDetailCall (SearchEntry.id item) (entryDetailReqRef r2.1)) /\
     (forall site requestId fetched,
        requestId ≤ entryDetailReqRef arrival ->
        step r2.1 (DetailSettled site requestId fetched) = (r2.1, []))) /\
  (forall fetched arrived (list : list EntryOut.t),
     let r2 := step r1.1 (DetailSettled JumpFallback (entryDetailReqRef r1.1) fetched) in
     let r3 := step r2.1 (EntriesSettled arrived) in
     apiGet arrived = Fulfilled list ->
     r2.2 = [] /\ pendingJumpEntryId r2.1 = None /\ loading r2.1 = false /\
     (forall detail, apiGet fetched = Fulfilled detail -> entryDetail r2.1 = Some detail) /\
     entries r3.1 = list /\ currentIndex r3.1 = 0 /\ pendingJumpEntryId r3.1 = None).
Proof.
  intros Hshown Htopic Ht Hsel Hx Hold Hmissing r1.
  destruct (step_result_other_topic s item target name Hshown Htopic Ht Hsel)
    as (Hs1 & _ & Hy & Hq & Ho).
  destruct (step_result_other_topic_calls s item target name
              Hshown Htopic Ht Hsel Hx Hold Hmissing)
    as (Hp & _ & _ & _ & Hent & Hi & Hnil & Hlist).
  fold r1 in Hs1, Hy, Hq, Ho, Hp, Hent, Hi, Hnil, Hlist.
  split; [|split].
  - split_and!; try done.
    + intros Hempty. by destruct (Hnil Hempty).
    + intros Hsome. by destruct (Hlist Hsome).
  - intros arrival fetched list e idx r2 Hget Hpending He. subst r2.
    destruct (step_entries_fulfilled arrival fetched list Hget) as [-> _].
    set (r2 := step arrival (EntriesSettled (respond list))).
    assert (Hidx : 0 ≤ idx).
    { unfold at_index in He. destruct (Z.ltb_spec idx 0); [done | lia]. }
    destruct (step_entries_jump arrival list (SearchEntry.id item) e Hpending Hx Hidx He)
      as (H1 & H2 & H3 & H4 & H5). fold r2 in H1, H2, H3, H4, H5.
    destruct (findIndex_found _ list Hidx) as (e' & He' & Hid). fold idx in He'.
    assert (e' = e) by congruence. subst e'. apply Z.eqb_eq in Hid.
    rewrite Hid in H5.
    split_and!; [done | done | done | done | done | done |].
    intros site requestId late Hearlier. apply step_stale.
    pose proof (run_handsOutIds [EntriesSettled (respond list)] arrival) as Hasc.
    rewrite run_single in Hasc. fold r2 in Hasc.
    apply ascending_bounds in Hasc as [_ Hall].
    apply last_Some in H5 as [before H5].
    assert (Hin : entryDetailReqRef r2.1 ∈ detailIds r2.2).
    { rewrite H5, detailIds_app. apply elem_of_app. right. cbn. left. }
    specialize (Hall _ Hin). lia.
  - intros fetched arrived list r2 r3 Hget. subst r3.
    destruct (step_entries_fulfilled r2.1 arrived list Hget) as [-> _].
    set (r3 := step r2.1 (EntriesSettled (respond list))).
    destruct (step_jump_fallback_current r1.1 fetched) as (Hc2 & Hp2 & Hl2 & Hj2 & Hd2).
    fold r2 in Hc2, Hp2, Hl2, Hj2, Hd2.
    pose proof (step_entries_idle r2.1 list) as Hidle. fold r3 in Hidle.
    rewrite Hp2 in Hidle. specialize (Hidle eq_refl).
    unfold jumpState in Hidle. injection Hidle as He3 Hi3 Hp3.
    split_and!; try done.
    intros detail Hdetail. rewrite Hdetail in Hd2. by destruct Hd2.
Qed.

(** The first round of effects after such a click when the entry is in the
    list on screen: the jump is made in that list. *)
Lemma runEffects_jump_found (prev cur : State) (x : Z) :
  pendingJumpEntryId cur = Some x -> x ≠ 0 ->
  pendingJumpEntryId prev ≠ Some x ->
  entriesRef prev = entriesRef cur -> currentIndex prev = currentIndex cur ->
  0 ≤ findIndex (fun e => EntryOut.id e =? x) (entries cur) ->
  jumpState (runEffects prev cur cur).1
    = (entries cur, findIndex (fun e => EntryOut.id e =? x) (entries cur), None).
Proof.
  intros Hpending Hx Hprev Href Hindex Hidx. unfold runEffects.
  assert (Hch : changed pendingJumpEntryId prev cur = true).
  { unfold changed. rewrite bool_decide_eq_false_2; [done | congruence]. }
  rewrite Hch, (changed_same entriesRef), (changed_same currentIndex) by done.
  cbn [orb]. rewrite !andThen_eq. cbn [skip fst snd].
  etrans; [apply effectSearch_keeps_jumpState|].
  assert (Hfirst : jumpState
            ((if changed selectedTopicId prev cur then effectEntries cur else skip) cur).1
            = jumpState cur).
  { destruct (changed selectedTopicId prev cur);
      [exact (effectEntries_keeps_jumpState cur cur) | done]. }
  revert Hfirst.
  generalize ((if changed selectedTopicId prev cur then effectEntries cur else skip) cur).1.
  intros first Hfirst.
  rewrite (effectJump_found cur x) by done.
  destruct (jumpState_eq _ _ Hfirst) as (He & _ & _). rewrite <- He.
  unfold jumpState. by explode_state first.
Qed.

(** X10. The jump of a search result of another topic is lost when the entry
    is also in the list on screen: the jump is made at once, in that list,
    and is over before the entries of the new topic arrive; when they do,
    the first card of the new topic is the current card, wherever the entry
    is in the new list. *)
Theorem jump_is_spent_on_the_list_on_screen
    (s : State) (item : SearchEntry.t) (target : Z) (name : string)
    (list : list EntryOut.t) :
  resultOnScreen s item ->
  SearchEntry.primary_topic item = Some (target, name) ->
  target ≠ 0 -> selectedTopicId s ≠ Some target ->
  SearchEntry.id item ≠ 0 ->
  pendingJumpEntryId s ≠ Some (SearchEntry.id item) ->
  let idx := findIndex (fun e => EntryOut.id e =? SearchEntry.id item) (entries s) in
  0 ≤ idx ->
  let r1 := step s (ClickSearchResult item) in
  let r2 := step r1.1 (EntriesSettled (respond list)) in
  selectedTopicId r1.1 = Some target /\ entriesCall target ∈ r1.2 /\
  entries r1.1 = entries s /\ currentIndex r1.1 = idx /\
  pendingJumpEntryId r1.1 = None /\
  entries r2.1 = list /\ currentIndex r2.1 = 0 /\ pendingJumpEntryId r2.1 = None.
Proof.
  intros Hshown Htopic Ht Hsel Hx Hold idx Hidx r1 r2.
  destruct (step_result_other_topic s item target name Hshown Htopic Ht Hsel)
    as (Hs1 & Hcall & _).
  destruct (handle_result_other_topic s item target name Hshown Htopic Ht Hsel)
    as (_ & _ & Hp & Hent & Hi & Href & _).
  assert (Hjump : jumpState r1.1 = (entries s, idx, None)).
  { unfold r1. rewrite step_eq. cbn [fst snd].
    set (h := (handle (ClickSearchResult item) s s).1) in *.
    rewrite rerender_eq. cbn [fst snd].
    pose proof (runEffects_jump_found s h (SearchEntry.id item) Hp Hx Hold
                  (eq_sym Href) (eq_sym Hi)) as Hfirst.
    rewrite Hent in Hfirst. specialize (Hfirst Hidx). fold idx in Hfirst.
    set (s1 := (runEffects s h h).1) in *.
    rewrite rerender_eq. cbn [fst snd rerender].
    rewrite <- Hfirst. apply (runEffects_keeps_jumpState h s1). left.
    unfold jumpState in Hfirst. by injection Hfirst as _ _ ->. }
  unfold jumpState in Hjump. injection Hjump as He1 Hi1 Hp1.
  pose proof (step_entries_idle r1.1 list) as Hidle. fold r2 in Hidle.
  rewrite Hp1 in Hidle. specialize (Hidle eq_refl).
  unfold jumpState in Hidle. injection Hidle as He2 Hi2 Hp2.
  by split_and!.
Qed.

(** ** A search result of the selected topic *)

Lemma searchEffect_deps (prev cur s : State) :
  deps ((if changed searchQuery prev cur then window_clearTimeout >> effectSearch cur
         else skip) s).1 = deps s.
Proof.
  unfold effectSearch.
  destruct (changed _ _ _); [destruct (nonEmpty _)|]; explode_state s; by unfold_actions.
Qed.

Lemma searchEffect_quiet (prev cur s : State) :
  let r := (if changed searchQuery prev cur then window_clearTimeout >> effectSearch cur
            else skip) s in
  r.2 = [] /\ currentIndex r.1 = currentIndex s /\ isFlipped r.1 = isFlipped s /\
  entryDetailReqRef r.1 = entryDetailReqRef s /\ topicAndList r.1 = topicAndList s /\
  (searchOpen s = false -> searchOpen r.1 = false).
Proof.
  unfold effectSearch, topicAndList.
  destruct (changed _ _ _); [destruct (nonEmpty _)|]; explode_state s; by unfold_actions.
Qed.

Lemma effectDetail_keeps_topicAndList (render s : State) :
  topicAndList (effectDetail render s).1 = topicAndList s /\
  currentIndex (effectDetail render s).1 = currentIndex s /\
  searchOpen (effectDetail render s).1 = searchOpen s.
Proof.
  unfold effectDetail, topicAndList.
  destruct (at_index _ _); explode_state s; by unfold_actions.
Qed.

(** After an update that changed the index or the search query only, the
    detail effect runs if the index changed, then the search effect if the
    query changed, and that is all. *)
Lemma rerender_card_and_search (prev cur : State) :
  selectedTopicId prev = selectedTopicId cur ->
  pendingJumpEntryId prev = pendingJumpEntryId cur ->
  entriesRef prev = entriesRef cur ->
  rerender 2 prev cur =
    ((if changed currentIndex prev cur then effectDetail cur else skip) >>
     (if changed searchQuery prev cur then window_clearTimeout >> effectSearch cur
      else skip)) cur.
Proof.
  intros Hsel Hpending Href.
  assert (Hround : runEffects prev cur cur =
    ((if changed currentIndex prev cur then effectDetail cur else skip) >>
     (if changed searchQuery prev cur then window_clearTimeout >> effectSearch cur
      else skip)) cur).
  { unfold runEffects.
    rewrite (changed_same selectedTopicId), (changed_same pendingJumpEntryId),
      (changed_same entriesRef) by done.
    cbn [orb]. rewrite !andThen_eq. cbn [skip fst snd app]. reflexivity. }
  rewrite rerender_eq, Hround. rewrite rerender_same_deps.
  - cbn [fst snd]. rewrite app_nil_r. symmetry. apply surjective_pairing.
  - rewrite andThen_eq. cbn [fst]. rewrite searchEffect_deps.
    destruct (changed currentIndex prev cur); [by rewrite effectDetail_deps | done].
Qed.

(** The click on a search result that stays in the selected topic, up to
    the effects. *)
Lemma handle_result_in_topic (s : State) (item : SearchEntry.t) :
  resultOnScreen s item -> resultInTopic s item ->
  let idx := findIndex (fun e => EntryOut.id e =? SearchEntry.id item) (entries s) in
  let h := handle (ClickSearchResult item) s s in
  selectedTopicId h.1 = selectedTopicId s /\
  pendingJumpEntryId h.1 = pendingJumpEntryId s /\
  entriesRef h.1 = entriesRef s /\
  topicAndList h.1 = topicAndList s /\
  searchQuery h.1 = "" /\ searchOpen h.1 = false /\
  if 0 <=? idx
  then h.2 = [] /\ currentIndex h.1 = idx /\ isFlipped h.1 = false /\
       entryDetailReqRef h.1 = entryDetailReqRef s
  else h.2 = [searchFallbackCall (SearchEntry.id item) (entryDetailReqRef s + 1)] /\
       currentIndex h.1 = currentIndex s /\ isFlipped h.1 = isFlipped s /\
       entryDetailReqRef h.1 = entryDetailReqRef s + 1 /\
       errMsg h.1 = None /\ loading h.1 = true /\ entryDetail h.1 = entryDetail s.
Proof.
  intros (Hopen & Hloading & Hin) Htopic idx h. subst h idx. cbn [handle].
  rewrite Hopen, Hloading, bool_decide_eq_true_2 by done. cbn [orb andb negb].
  unfold selectSearchResult, resultInTopic, topicAndList, searchFallbackCall in *.
  clear Hopen Hloading Hin.
  destruct (SearchEntry.primary_topic item) as [[target name]|];
    cbn [fmap option_fmap option_map fst truthy].
  - assert (Hstay : negb (target =? 0) && bool_decide (Some target ≠ selectedTopicId s)
                    = false).
    { destruct Htopic as [-> | Hsel]; [done|].
      rewrite bool_decide_eq_false_2; [apply andb_false_r | by intros []]. }
    rewrite Hstay. destruct (0 <=? _); explode_state s; by unfold_actions.
  - destruct (0 <=? _); explode_state s; by unfold_actions.
Qed.

(** X11. A search result of the selected topic, or without a topic, is
    shown without a change of topic: the click empties and closes the search
    and leaves the topic, the list, "Your topics" and the storage as they
    are.  When the entry is in the list, its card becomes the current card,
    unflipped, and its detail is fetched unless it was the current card
    already.  When it is not, the index stays and the detail of the entry is
    fetched on its own, with the next request id. *)
Theorem search_result_of_the_selected_topic
    (s : State) (item : SearchEntry.t) :
  resultOnScreen s item -> resultInTopic s item ->
  let idx := findIndex (fun e => EntryOut.id e =? SearchEntry.id item) (entries s) in
  let r := step s (ClickSearchResult item) in
  topicAndList r.1 = topicAndList s /\
  searchQuery r.1 = "" /\ searchOpen r.1 = false /\
  (0 ≤ idx ->
     currentIndex r.1 = idx /\ isFlipped r.1 = false /\
     (idx = currentIndex s -> r.2 = []) /\
     (idx ≠ currentIndex s ->
        exists e, at_index (entries s) idx = Some e /\
                  EntryOut.id e = SearchEntry.id item /\
                  r.2 = [cardDetailCall (SearchEntry.id item) (entryDetailReqRef s + 1)])) /\
  (idx < 0 ->
     currentIndex r.1 = currentIndex s /\
     entryDetailReqRef r.1 = entryDetailReqRef s + 1 /\
     r.2 = [searchFallbackCall (SearchEntry.id item) (entryDetailReqRef s + 1)]).
Proof.
  intros Hshown Htopic idx r.
  destruct (handle_result_in_topic s item Hshown Htopic)
    as (Hsel & Hpending & Href & Hsame & Hquery & Hclosed & Hcase).
  fold idx in Hcase.
  unfold r. rewrite step_eq. cbn [fst snd].
  rewrite rerender_card_and_search by done.
  revert Hsel Hpending Href Hsame Hquery Hclosed Hcase.
  generalize (handle (ClickSearchResult item) s s). intros [h calls]. cbn [fst snd].
  intros Hsel Hpending Href Hsame Hquery Hclosed Hcase.
  rewrite andThen_eq. cbn [fst snd].
  set (detail := (if changed currentIndex s h then effectDetail h else skip) h).
  destruct (searchEffect_quiet s h detail.1) as (Hq1 & Hq2 & Hq3 & Hq4 & Hq5 & Hq6).
  assert (Hdetail : topicAndList detail.1 = topicAndList h /\
                    currentIndex detail.1 = currentIndex h /\
                    searchOpen detail.1 = searchOpen h).
  { unfold detail. destruct (changed currentIndex s h);
      [apply effectDetail_keeps_topicAndList | done]. }
  destruct Hdetail as (Hd1 & Hd2 & Hd3).
  assert (Hquery' : searchQuery
            ((if changed searchQuery s h then window_clearTimeout >> effectSearch h
              else skip) detail.1).1 = "").
  { pose proof (searchEffect_deps s h detail.1) as Hdeps.
    assert (Hdq : searchQuery detail.1 = searchQuery h).
    { unfold detail. destruct (changed currentIndex s h); [|done].
      pose proof (effectDetail_deps h h) as Hd. unfold deps in Hd. congruence. }
    unfold deps in Hdeps. congruence. }
  split_and!; [congruence | done | apply Hq6; congruence | |].
  - intros Hfound. apply Z.leb_le in Hfound as Hfound'. rewrite Hfound' in Hcase.
    destruct Hcase as (-> & Hidx & Hflip & Hreq). cbn [app].
    split_and!; [congruence | | |].
    + rewrite Hq3. unfold detail. destruct (changed currentIndex s h); [|done].
      destruct (at_index (entries h) (currentIndex h)) as [e|] eqn:He.
      * by destruct (effectDetail_at h h e He) as (_ & _ & ->).
      * unfold effectDetail. rewrite He. by explode_state h.
    + intros Hsame'. rewrite Hq1, app_nil_r. unfold detail.
      rewrite changed_same by congruence. done.
    + intros Hmoved.
      destruct (findIndex_found _ (entries s) Hfound) as (e & He & Hid).
      fold idx in He. apply Z.eqb_eq in Hid. exists e. split_and!; [done | done |].
      rewrite Hq1, app_nil_r. unfold detail.
      assert (Hch : changed currentIndex s h = true).
      { unfold changed. rewrite bool_decide_eq_false_2; [done | congruence]. }
      rewrite Hch.
      assert (Hat : at_index (entries h) (currentIndex h) = Some e).
      { unfold topicAndList in Hsame. rewrite Hidx. congruence. }
      destruct (effectDetail_at h h e Hat) as (-> & _ & _). by rewrite Hid, Hreq.
  - intros Hmissing. apply Z.leb_gt in Hmissing as Hmissing'. rewrite Hmissing' in Hcase.
    destruct Hcase as (-> & Hidx & Hflip & Hreq & _).
    assert (Hstays : changed currentIndex s h = false) by by apply changed_same.
    unfold detail in *. rewrite Hstays in *. cbn [skip fst snd] in *.
    rewrite Hq1. split_and!; [congruence | congruence | done].
Qed.

(** ** Adopting a detail response *)

Lemma detail_adopted (s : State) (site : DetailSite) fetched (detail : EntryDetail.t) :
  apiGet fetched = Fulfilled detail ->
  let h := detailSettled site (entryDetailReqRef s) fetched s in
  h.2 = [] /\ entryDetail h.1 = Some detail /\ loading h.1 = false /\
  errMsg h.1 = errMsg s /\
  isFlipped h.1 = (if site is CardDetail then isFlipped s else false) /\
  pendingJumpEntryId h.1
    = (if site is JumpFallback then None else pendingJumpEntryId s) /\
  selectedTopicId h.1 = selectedTopicId s /\ searchQuery h.1 = searchQuery s /\
  entriesRef h.1 = entriesRef s /\ currentIndex h.1 = currentIndex s /\
  entries h.1 = entries s /\ entryDetailReqRef h.1 = entryDetailReqRef s.
Proof.
  intros Hget h. subst h.
  destruct site; cbn [detailSettled];
    unfold cardDetailSettled, jumpDetailSettled, searchDetailSettled; rewrite Hget.
  all: explode_state s; unfold_actions; rewrite !bool_decide_eq_true_2 by done.
  all: by unfold_actions.
Qed.

Lemma effects_keep_detail (prev cur : State) :
  truthy (pendingJumpEntryId cur) = false \/
  pendingJumpEntryId prev = pendingJumpEntryId cur ->
  selectedTopicId prev = selectedTopicId cur ->
  searchQuery prev = searchQuery cur ->
  entriesRef prev = entriesRef cur ->
  currentIndex prev = currentIndex cur ->
  rerender 2 prev cur = (cur, []).
Proof.
  intros Hpending Hsel Hquery Href Hindex.
  assert (Hround : runEffects prev cur cur = (cur, [])).
  { destruct Hpending as [Hidle | Hsame].
    - rewrite runEffects_jump_done by done. by rewrite changed_same.
    - apply runEffects_same_deps. unfold deps. congruence. }
  rewrite rerender_eq, Hround. cbn [fst snd]. by rewrite rerender_same_deps.
Qed.

(** X12. The response to the detail request that is current is adopted:
    when its request id is the value of the counter and the fetch succeeded,
    the entry it brings becomes the entry on the card, whose view is computed
    from it, loading ends, nothing is requested, and the index and the list
    stay as they are; the card keeps its side when the response is that of
    the current card and is unflipped when it is that of a search result,
    whose pending jump, if any, is over. *)
Theorem current_detail_response_is_adopted
    (s : State) (site : DetailSite) fetched (detail : EntryDetail.t) :
  apiGet fetched = Fulfilled detail ->
  let r := step s (DetailSettled site (entryDetailReqRef s) fetched) in
  r.2 = [] /\ entryDetail r.1 = Some detail /\
  cardView r.1 = Some (cardViewOf detail) /\
  loading r.1 = false /\ errMsg r.1 = errMsg s /\
  (errMsg s = None -> cardShown r.1 = true) /\
  currentIndex r.1 = currentIndex s /\ entries r.1 = entries s /\
  entryDetailReqRef r.1 = entryDetailReqRef s /\
  isFlipped r.1 = (if site is CardDetail then isFlipped s else false) /\
  pendingJumpEntryId r.1
    = (if site is JumpFallback then None else pendingJumpEntryId s).
Proof.
  intros Hget r.
  destruct (detail_adopted s site fetched detail Hget)
    as (Hcalls & Hdetail & Hloading & Herr & Hflip & Hpending & Hsel & Hquery
        & Href & Hindex & Hentries & Hreq).
  assert (Hstep : r = detailSettled site (entryDetailReqRef s) fetched s).
  { unfold r. rewrite step_eq. cbn [handle]. rewrite effects_keep_detail; try done.
    - cbn [fst snd]. rewrite app_nil_r. symmetry. apply surjective_pairing.
    - rewrite Hpending. destruct site; auto. }
  rewrite Hstep. unfold cardView, cardShown, errorShown.
  rewrite Hdetail, Herr.
  split_and!; try done. intros ->. by apply bool_decide_eq_true_2.
Qed.

(** ** Errors are not sticky *)

Lemma runEffects_loadingCleanly (prev cur : State) :
  respects (maintains loadingCleanly) (runEffects prev cur).
Proof.
  unfold runEffects. split_action.
  all: unfold effectEntries, effectJump, effectDetail, effectSearch; split_action.
  all: intros s; unfold maintains, loadingCleanly; intros [Herr Hload]; by run_action.
Qed.

Lemma effectEntries_loadingCleanly (cur s : State) (t : Z) :
  selectedTopicId cur = Some t -> t ≠ 0 -> loadingCleanly (effectEntries cur s).1.
Proof.
  intros Hsel Ht. unfold effectEntries, loadingCleanly. rewrite Hsel. cbn [ifTruthy].
  destruct (Z.eqb_spec t 0); [done|]. by explode_state s.
Qed.

(** X13. An error is not sticky: whenever an event changes the selected
    topic to a topic whose id is not 0, by a row of the modal, a reset, a
    search result or the initial load, the step ends with the error banner
    gone and the loading note on, the entries of the topic being fetched. *)
Theorem selecting_a_topic_clears_the_error (s : State) (ev : Event) (t : Z) :
  t ≠ 0 ->
  selectedTopicId s ≠ Some t ->
  selectedTopicId (step s ev).1 = Some t ->
  errMsg (step s ev).1 = None /\ loading (step s ev).1 = true /\
  errorShown (step s ev).1 = false /\
  entriesCall t ∈ (step s ev).2.
Proof.
  intros Ht Hold Hnew.
  destruct (step_topic_changed s ev t Ht Hold Hnew) as [Hcall _].
  assert (Hclean : loadingCleanly (step s ev).1).
  { assert (Hsel : selectedTopicId (handle ev s s).1 = Some t).
    { pose proof (step_topicChoice s ev) as Hc. unfold topicChoice in Hc. congruence. }
    rewrite step_eq. cbn [fst snd]. revert Hsel.
    generalize (handle ev s s).1. intros h Hsel.
    rewrite rerender_eq. cbn [fst snd].
    apply (respects_rerender (maintains loadingCleanly) runEffects_loadingCleanly).
    unfold runEffects.
    assert (Hch : changed selectedTopicId s h = true).
    { unfold changed. rewrite bool_decide_eq_false_2; [done | congruence]. }
    rewrite Hch. rewrite !andThen_eq. cbn [fst snd].
    assert (Hrest : forall a : State, loadingCleanly a ->
      loadingCleanly
        ((if changed searchQuery s h then window_clearTimeout >> effectSearch h else skip)
           ((if changed entriesRef s h || changed currentIndex s h
             then effectDetail h else skip)
              ((if changed pendingJumpEntryId s h || changed entriesRef s h
                then effectJump h else skip) a).1).1).1).
    { intros a Ha.
      assert (Hstep : forall (act : Action) (b : State),
                respects (maintains loadingCleanly) act ->
                loadingCleanly b -> loadingCleanly (act b).1)
        by (intros act b Hact Hb; by apply Hact).
      apply Hstep; [|apply Hstep; [|apply Hstep; [|done]]].
      all: unfold effectJump, effectDetail, effectSearch; split_action.
      all: intros b; unfold maintains, loadingCleanly; intros [Herr Hload];
        by run_action. }
    apply Hrest. by apply (effectEntries_loadingCleanly h h t). }
  destruct Hclean as [Herr Hload].
  split_and!; [done | done | | done]. unfold errorShown. by rewrite Herr.
Qed.

(** ** Request ids *)

Lemma ascending_NoDup (lo hi : Z) (ids : list Z) : ascending lo ids hi -> NoDup ids.
Proof.
  revert lo. induction ids as [|r rest IH]; intros lo; cbn; [constructor|].
  intros [_ Hrest]. constructor; [|by eapply IH].
  intros Hin. destruct (ascending_bounds _ _ _ Hrest) as [_ Hall].
  specialize (Hall r Hin). lia.
Qed.

(** X14. The request ids of the detail fetches are fresh: in every run the
    ids handed out are pairwise different, each one greater than the counter
    was before the run and at most what it is after, and the counter never
    goes down; so an id that equals the counter belongs to no earlier
    request.  After mounting the counter is 0 and every id is positive. *)
Theorem detail_request_ids_are_fresh :
  (forall (s : State) (evs : list Event),
     let ids := detailIds (run s evs).2 in
     NoDup ids /\
     entryDetailReqRef s ≤ entryDetailReqRef (run s evs).1 /\
     (forall id, id ∈ ids ->
        entryDetailReqRef s < id ≤ entryDetailReqRef (run s evs).1)) /\
  (forall (storage : gmap string string) (clock : Z) (evs : list Event),
     entryDetailReqRef (mount storage clock).1 = 0 /\
     detailIds (mount storage clock).2 = [] /\
     forall id, id ∈ detailIds (run (mount storage clock).1 evs).2 -> 0 < id).
Proof.
  assert (Hrun : forall (s : State) (evs : list Event),
            let ids := detailIds (run s evs).2 in
            NoDup ids /\
            entryDetailReqRef s ≤ entryDetailReqRef (run s evs).1 /\
            (forall id, id ∈ ids ->
               entryDetailReqRef s < id ≤ entryDetailReqRef (run s evs).1)).
  { intros s evs ids. pose proof (run_handsOutIds evs s) as Hasc. fold ids in Hasc.
    destruct (ascending_bounds _ _ _ Hasc) as [Hle Hall].
    split_and!; [by eapply ascending_NoDup | done | done]. }
  split; [exact Hrun|]. intros storage clock evs.
  assert (Hzero : entryDetailReqRef (mount storage clock).1 = 0).
  { rewrite mount_eq. cbn [fst]. unfold effectSearch, initialState. by run_action. }
  split_and!; [done | by rewrite mount_eq |].
  intros id Hid. destruct (Hrun (mount storage clock).1 evs) as (_ & _ & Hall).
  specialize (Hall id Hid). lia.
Qed.

(** ** Effects settle *)

(** X15. The effects settle: after an update the effects whose dependencies
    changed run, and those whose dependencies the first round changed run
    once more; a third round would find every dependency as the second
    round left it, so that rendering stops there.  An update that changes no
    dependency runs no effect at all. *)
Theorem effects_settle_after_two_rounds :
  (forall (n : nat) (prev cur : State),
     rerender (S (S n)) prev cur = rerender 2 prev cur) /\
  (forall (prev cur : State),
     let first := (runEffects prev cur cur).1 in
     let second := (runEffects cur first first).1 in
     deps second = deps first /\ runEffects first second second = (second, [])) /\
  (forall (s : State) (ev : Event),
     deps (handle ev s s).1 = deps s -> step s ev = handle ev s s).
Proof.
  split_and!.
  - apply rerender_settles.
  - intros prev cur first second.
    assert (Hsteady : deps second = deps first).
    { destruct (runEffects_jumpSettles cur first first) as [Hd | [Htruthy _]]; [done|].
      destruct (runEffects_jumpSettles prev cur cur) as [Hd | [_ Hnone]].
      - unfold second. by rewrite runEffects_same_deps.
      - fold first in Hnone. by rewrite Hnone in Htruthy. }
    split; [done | by apply runEffects_same_deps].
  - intros s ev Hdeps. unfold step. by apply commit_same_deps.
Qed.

(** ** Reloading the page *)

Lemma JSON_stringify_nonEmpty (ids : list Z) : nonEmpty (JSON_stringify ids) = true.
Proof. reflexivity. Qed.

Lemma filterNumbers_numbers (keep : Z -> bool) (ids : list Z) :
  filterNumbers keep (JArr (JNum <$> ids)) = Some (List.filter keep ids).
Proof.
  cbn [filterNumbers]. f_equal. induction ids as [|id ids IH]; [done|].
  cbn [fmap list_fmap omap list_omap List.filter].
  change (list_fmap Z JSON JNum ids) with (JNum <$> ids).
  destruct (keep id); by rewrite IH.
Qed.

Lemma filter_all {A : Type} (p : A -> bool) (xs : list A) :
  (forall x, x ∈ xs -> p x = true) -> List.filter p xs = xs.
Proof.
  induction xs as [|x xs IH]; [done|]. intros Hall. cbn [List.filter].
  rewrite (Hall x) by left. f_equal. apply IH. intros y Hy. apply Hall. by right.
Qed.

(** X16. "Your topics" survives a reload: when the storage holds the text
    the client wrote for a non-empty list, and the parser reads that text
    back as the array of these numbers, the load after mounting restores the
    list without the ids that are not ids of topics any more, in the same
    order, selects the first id it kept, falling back to the default topic,
    and leaves the storage as it is; when every id is still the id of a topic
    the list is restored as it was and its first topic is selected. *)
Theorem your_topics_survive_a_reload
    (storage : gmap string string) (clock : Z) (ids : list Z)
    (t : list Topic.t) fetched :
  storage !! YOUR_TOPICS_KEY = Some (JSON_stringify ids) ->
  JSON_parse (JSON_stringify ids) = Some (JArr (JNum <$> ids)) ->
  ids ≠ [] ->
  apiGet fetched = Fulfilled t ->
  let s := (run (mount storage clock).1 [TopicsSettled fetched]).1 in
  topics s = t /\
  yourTopicIds s = List.filter (fun id => bool_decide (id ∈ Topic.id <$> t)) ids /\
  selectedTopicId s = orElse (head (yourTopicIds s)) (defaultTopicId t) /\
  localStorage s = storage /\
  ((forall id, id ∈ ids -> id ∈ Topic.id <$> t) ->
     yourTopicIds s = ids /\ selectedTopicId s = head ids).
Proof.
  intros Hstored Hparse Hne Hget s.
  pose proof (mount_topicChoice storage clock) as Hm. unfold topicChoice in Hm.
  assert (Hstore : localStorage (mount storage clock).1 = storage) by congruence.
  clear Hm.
  assert (Hsaved : parseSaved (localStorage (mount storage clock).1 !! YOUR_TOPICS_KEY)
                   = JArr (JNum <$> ids)).
  { rewrite Hstore, Hstored. unfold parseSaved.
    by rewrite JSON_stringify_nonEmpty, Hparse. }
  pose proof (step_topics_loaded t fetched (mount storage clock).1 Hget) as Hc.
  rewrite <- run_single in Hc. fold s in Hc. unfold topicChoice in Hc.
  destruct (topicsLoaded_saved t _ _ Hsaved) as [Hsame Hkept].
  { by destruct ids. }
  destruct (topicsLoaded_array t _ _ Hsaved) as (Ht & Hsel & _ & _).
  rewrite filterNumbers_numbers in Hkept.
  assert (Hyours : yourTopicIds s
                   = List.filter (fun id => bool_decide (id ∈ Topic.id <$> t)) ids)
    by congruence.
  assert (Hselected : selectedTopicId s
                      = orElse (head (yourTopicIds s)) (defaultTopicId t))
    by congruence.
  split_and!; [congruence | done | done | congruence |].
  intros Hknown.
  assert (Hall : yourTopicIds s = ids).
  { rewrite Hyours. apply filter_all. intros id Hid.
    apply bool_decide_eq_true_2. auto. }
  split; [done|]. rewrite Hselected, Hall. by destruct ids.
Qed.


(** ** App: session, sign-in and logout *)

Lemma appScreen_landing (s : AppState) (loading : bool) (error : option string) :
  appScreen s = LandingScreen loading error <->
  checkingSession s = false /\ user s = None /\
  authLoading s = loading /\ authError s = error.
Proof.
  unfold appScreen. destruct (checkingSession s), (user s); split;
    try done; try (by intros (? & ? & ? & ?)).
  - by intros [= <- <-].
  - by intros (_ & _ & -> & ->).
Qed.

Lemma appScreen_main (s : AppState) (name : string) :
  appScreen s = MainScreen name <->
  checkingSession s = false /\ exists u, user s = Some u /\ userName u = name.
Proof.
  unfold appScreen. destruct (checkingSession s), (user s) as [u|]; split;
    try done; try (by intros (? & ? & ? & ?)).
  - intros [= <-]. split; [done | by exists u].
  - by intros (_ & u' & [= <-] & <-).
Qed.

(** X17. A sign-in request needs a credential, and only that: every request
    [App] posts to [/auth/google] answers a callback of Google whose
    credential, trimmed, is not empty, arriving once the session check is
    over; it carries that trimmed credential as its body, is the only request
    of the step, turns the loading note on, clears the error and leaves the
    user as it is, so that the landing screen stays with the loading note and
    no error.  A callback without a credential, or with a blank one, changes
    nothing and sends nothing.  The callback is not tied to the landing
    screen: with a user signed in it posts as well, the main screen staying
    under the same user until the request settles, and then showing the user
    of the response, or the same user again when the request failed. *)
Theorem sign_in_needs_a_credential :
  (forall (s : AppState) (ev : AppEvent) (c : AppCall),
     c ∈ (appStep s ev).2 -> app_continuation c = AfterGoogle ->
     exists text,
       ev = GoogleCallback (Some text) /\ nonEmpty (trim text) = true /\
       app_request c = apiPost_fetch "/auth/google"
                         (Some (JObj [("credential", JStr (trim text))])) /\
       appScreen s ≠ CheckingSession /\
       (appStep s ev).2 = [c] /\
       authLoading (appStep s ev).1 = true /\ authError (appStep s ev).1 = None /\
       user (appStep s ev).1 = user s /\
       (forall loading error,
          appScreen s = LandingScreen loading error ->
          appScreen (appStep s ev).1 = LandingScreen true None)) /\
  (forall (s : AppState), appStep s (GoogleCallback None) = (s, [])) /\
  (forall (s : AppState) (text : string),
     nonEmpty (trim text) = false -> appStep s (GoogleCallback (Some text)) = (s, [])) /\
  (forall (s : AppState) (name text : string) fetched,
     appScreen s = MainScreen name -> nonEmpty (trim text) = true ->
     let r := appRun s [GoogleCallback (Some text); GoogleSettled fetched] in
     app_request <$> r.2
       = [apiPost_fetch "/auth/google" (Some (JObj [("credential", JStr (trim text))]))] /\
     appScreen (appStep s (GoogleCallback (Some text))).1 = MainScreen name /\
     match apiPost fetched with
     | Fulfilled loggedUser => appScreen r.1 = MainScreen (userName loggedUser)
     | Rejected _ => appScreen r.1 = MainScreen name
     end).
Proof.
  split_and!.
  - intros s ev c Hin Hk. destruct ev; cbn [appStep] in Hin |- *.
    + by apply not_elem_of_nil in Hin.
    + destruct (checkingSession s) eqn:Hchecking; cbn [negb] in Hin |- *;
        [by apply not_elem_of_nil in Hin|].
      destruct credential as [text|]; cbn [fmap option_fmap option_map] in Hin |- *;
        [|by apply not_elem_of_nil in Hin].
      destruct (nonEmpty (trim text)) eqn:Hne; [|by apply not_elem_of_nil in Hin].
      cbn [handleGoogleCredential snd fst] in Hin |- *.
      apply list_elem_of_singleton in Hin as ->. exists text.
      split_and!; try done.
      * unfold appScreen. rewrite Hchecking. by destruct (user s).
      * intros loading error (_ & Huser & _)%appScreen_landing.
        by apply appScreen_landing.
    + unfold googleSettled in Hin. destruct (apiPost fetched);
        by apply not_elem_of_nil in Hin.
    + destruct (_ && _); [|by apply not_elem_of_nil in Hin].
      cbn in Hin. by apply list_elem_of_singleton in Hin as ->.
    + by apply not_elem_of_nil in Hin.
  - intros s. cbn. by destruct (negb _).
  - intros s text Hblank. cbn. rewrite Hblank. by destruct (negb _).
  - intros s name text fetched Hscreen Hne r. subst r.
    apply appScreen_main in Hscreen as (Hchecking & u & Huser & Hname).
    cbn [appRun appStep]. rewrite Hchecking. cbn [negb].
    cbn [fmap option_fmap option_map]. rewrite Hne.
    unfold handleGoogleCredential, googleSettled. cbn [fst snd]. unfold appScreen.
    destruct (apiPost fetched);
      cbn [fst snd checkingSession user authLoading authError app fmap list_fmap app_request];
      by rewrite Hchecking, ?Huser, ?Hname.
Qed.

(** X18. The session decides the screen: [App] mounts on the note that the
    session is being checked and asks for [/auth/me] once; until the answer
    arrives neither a sign-in nor a logout goes out.  The answer shows the
    main screen under the name of the user, the e-mail address when the name
    is missing or empty, or the landing screen when the request failed.
    Logging out posts to [/auth/logout] without a body, and when that request
    settles the user is gone and the landing screen is back, whether the
    request succeeded or not. *)
Theorem session_decides_the_screen :
  (appScreen appMount.1 = CheckingSession /\
   app_request <$> appMount.2 = [apiGet_fetch "/auth/me"]) /\
  (forall (s : AppState) (ev : AppEvent),
     appScreen s = CheckingSession ->
     (exists credential, ev = GoogleCallback credential) \/ ev = Logout ->
     appStep s ev = (s, [])) /\
  (forall (s : AppState) fetched,
     let r := appStep s (MeSettled fetched) in
     r.2 = [] /\
     match apiGet fetched with
     | Fulfilled me => appScreen r.1 = MainScreen (userName me)
     | Rejected _ => appScreen r.1 = LandingScreen (authLoading s) (authError s)
     end) /\
  (forall (u : AuthUser.t),
     (AuthUser.name u = None \/ AuthUser.name u = Some "" ->
      userName u = AuthUser.email u) /\
     (forall name, AuthUser.name u = Some name -> name ≠ "" -> userName u = name)) /\
  (forall (s : AppState) (name : string) fetched,
     appScreen s = MainScreen name ->
     let r := appRun s [Logout; LogoutSettled fetched] in
     app_request <$> r.2 = [apiPost_fetch "/auth/logout" None] /\
     appScreen (appStep s Logout).1 = MainScreen name /\
     appScreen r.1 = LandingScreen (authLoading s) (authError s)).
Proof.
  split_and!; try done.
  - intros s ev Hscreen Hev. unfold appScreen in Hscreen.
    destruct (checkingSession s) eqn:Hchecking; [|by destruct (user s)].
    destruct Hev as [[credential ->] | ->]; cbn [appStep]; by rewrite Hchecking.
  - intros s fetched r. subst r. cbn [appStep]. unfold meSettled. cbn [fst snd].
    split; [done|]. by destruct (apiGet fetched).
  - intros u. unfold userName. split.
    + by intros [-> | ->].
    + intros name -> Hname. unfold nonEmpty.
      by destruct (String.eqb_spec name "").
  - intros s name fetched Hscreen r. subst r.
    apply appScreen_main in Hscreen as (Hchecking & u & Huser & Hname).
    cbn [appRun appStep]. rewrite Hchecking, Huser. cbn [negb andb].
    rewrite bool_decide_eq_true_2 by by eexists.
    cbn [handleLogout logoutSettled fst snd app fmap list_fmap app_request].
    unfold appScreen. cbn [checkingSession user authLoading authError].
    rewrite Hchecking, Huser, Hname. done.
Qed.

(** X19. A sign-in that fails leaves the user on the landing screen with
    the fixed error text, one that succeeds shows the main screen; either
    way the loading note is gone, exactly one request was sent, and a new
    attempt clears the error. *)
Theorem failed_sign_in_shows_an_error
    (s : AppState) (loading : bool) (error : option string) (text : string) fetched :
  appScreen s = LandingScreen loading error ->
  nonEmpty (trim text) = true ->
  let r := appRun s [GoogleCallback (Some text); GoogleSettled fetched] in
  app_request <$> r.2
    = [apiPost_fetch "/auth/google" (Some (JObj [("credential", JStr (trim text))]))] /\
  appScreen (appStep s (GoogleCallback (Some text))).1 = LandingScreen true None /\
  match apiPost fetched with
  | Fulfilled loggedUser => appScreen r.1 = MainScreen (userName loggedUser)
  | Rejected _ =>
      appScreen r.1
        = LandingScreen false (Some "Could not sign in with Google. Please try again.")
  end.
Proof.
  intros Hscreen Hne r. subst r.
  apply appScreen_landing in Hscreen as (Hchecking & Huser & _ & _).
  cbn [appRun appStep]. rewrite Hchecking. cbn [negb].
  cbn [fmap option_fmap option_map].
  rewrite Hne. unfold handleGoogleCredential, googleSettled.
  cbn [fst snd]. unfold appScreen.
  destruct (apiPost fetched);
    cbn [fst snd checkingSession user authLoading authError app fmap list_fmap app_request];
    by rewrite Hchecking, ?Huser.
Qed.

End Properties.


(** * The properties on concrete sessions

    Each property is instantiated on the sessions of module [Session]; the
    sentences of the interface that do not hold as written are refuted on
    one of them. *)

#[local] Existing Instance Sample.platform.
Import Session.

(** A decidable fact about concrete data, by evaluation. *)
Ltac evaluated :=
  match goal with
  | |- ?P =>
      let d := constr:(_ : Decision P) in
      apply (@bool_decide_eq_true_1 P d); vm_compute; reflexivity
  end.

(** C1 on a session: the response to request 2, the detail of the second
    card, arrives after request 3 was issued and is dropped. *)
Lemma stale_detail_response_is_discarded_witness :
  let s' := (run started browsing).1 in
  continuation <$> (run started browsing).2
    = [AfterEntries; AfterDetail CardDetail 1]
        ++ AfterDetail CardDetail 2 :: [AfterDetail CardDetail 3] /\
  AfterDetail CardDetail 3 ∈ [AfterDetail CardDetail 3] /\
  2 ≠ entryDetailReqRef s' /\
  step s' (DetailSettled CardDetail 2 (respond dogDetail)) = (s', []).
Proof.
  assert (Hcalls : continuation <$> (run started browsing).2
            = [AfterEntries; AfterDetail CardDetail 1]
                ++ AfterDetail CardDetail 2 :: [AfterDetail CardDetail 3])
    by (vm_compute; reflexivity).
  assert (Hlater : AfterDetail CardDetail 3 ∈ [AfterDetail CardDetail 3])
    by (apply list_elem_of_singleton; reflexivity).
  destruct stale_detail_response_is_discarded as [_ Hstale].
  destruct (Hstale started browsing CardDetail CardDetail 2 3 _ _
              (respond dogDetail) Hcalls Hlater) as (Hne & Hstep & _).
  split_and!; [exact Hcalls | exact Hlater | exact Hne | exact Hstep].
Defined.

(** C2 on a session: the first card of topic 1 is on screen and the user
    picks topic 2 in the modal; the entries of topic 2 are fetched and the
    card is unflipped.  When they arrive next, the first card is current and
    unflipped; when the user flips the card of topic 1, still on screen, before
    they arrive, the first card is current and flipped. *)
Lemma selecting_topic_resets_index_witness :
  let s := (run shown [ClickSelectTopicButton; ModalClickAdd 2]).1 in
  let s1 := (step s (ModalClickYourTopic 2)).1 in
  let s2 := (step s1 (EntriesSettled (respond [dog]))).1 in
  let s2' := (run s1 [ClickFlip; EntriesSettled (respond [dog])]).1 in
  2 ≠ 0 /\ selectedTopicId s ≠ Some 2 /\ selectedTopicId s1 = Some 2 /\
  apiGet (respond [dog]) = Fulfilled [dog] /\
  entriesCall 2 ∈ (step s (ModalClickYourTopic 2)).2 /\ isFlipped s1 = false /\
  entries s2 = [dog] /\ isFlipped s2 = false /\ currentIndex s2 = 0 /\
  cardShown s1 = true /\ truthy (pendingJumpEntryId s1) = false /\
  entries s2' = [dog] /\ currentIndex s2' = 0 /\ isFlipped s2' = true.
Proof.
  intros s s1 s2 s2'.
  assert (Hid : (2 : Z) ≠ 0) by lia.
  assert (Hold : selectedTopicId s ≠ Some 2) by (vm_compute; discriminate).
  assert (Hnew : selectedTopicId (step s (ModalClickYourTopic 2)).1 = Some 2)
    by (vm_compute; reflexivity).
  assert (Hshown : cardShown s1 = true) by (vm_compute; reflexivity).
  assert (Hidle : truthy (pendingJumpEntryId s1) = false) by (vm_compute; reflexivity).
  destruct (selecting_topic_resets_index s (ModalClickYourTopic 2) 2 Hid Hold Hnew)
    as ((Hcall & Hunflipped) & _ & Hnext & Hbetween).
  destruct (Hnext (respond [dog]) [dog] eq_refl) as (Hentries & Hflip & Hindex).
  destruct (Hbetween (respond [dog]) [dog] eq_refl Hshown Hidle)
    as (_ & Hentries' & Hindex' & Hflip').
  split_and!;
    [exact Hid | exact Hold | exact Hnew | reflexivity | exact Hcall | exact Hunflipped
    | exact Hentries | exact Hflip | exact (Hindex Hidle)
    | exact Hshown | exact Hidle | exact Hentries' | exact Hindex' | exact Hflip'].
Defined.

(** C2 as written fails for the topic id 0: it becomes the selected topic,
    which is not null, and no entries are fetched for it. *)
Lemma topic_zero_is_selected_but_not_fetched :
  selectedTopicId started = None /\
  selectedTopicId (step started zeroArrives).1 = Some 0 /\
  (step started zeroArrives).2 = [] /\
  entriesCall 0 ∉ (step started zeroArrives).2.
Proof.
  assert (Hcalls : (step started zeroArrives).2 = []) by (vm_compute; reflexivity).
  split_and!; [vm_compute; reflexivity | vm_compute; reflexivity | exact Hcalls |].
  rewrite Hcalls. apply not_elem_of_nil.
Qed.

(** C3 on a session: the user types "cat" and waits; the timeout fires once
    250 ms later, and the second tick of the timer fetches nothing. *)
Lemma search_is_debounced_witness :
  let s := (step started (SearchInput "cat")).1 in
  searchQuery s ≠ searchQuery started /\
  inWindow 0 false s /\ queryStays s waiting /\
  (length (searchCalls (run s waiting).2) ≤ 1)%nat /\
  searchCalls (run s waiting).2 = [searchCall "cat"].
Proof.
  assert (Hedit : searchQuery (step started (SearchInput "cat")).1 ≠ searchQuery started)
    by (vm_compute; discriminate).
  destruct search_is_debounced as (Hopen & _ & _ & Hwindow).
  destruct (Hopen started (SearchInput "cat") Hedit) as (Hin & _).
  assert (Hstays : queryStays (step started (SearchInput "cat")).1 waiting)
    by (vm_compute; repeat split).
  destruct (Hwindow _ 0 false waiting Hin Hstays) as (Honce & _).
  split_and!; [exact Hedit | exact Hin | exact Hstays | exact Honce |].
  vm_compute. reflexivity.
Defined.



(** C5 on a session: the server answers the topics request with status 500,
    and the banner shows "API error 500"; had the request failed with
    an error of empty message, no banner would be shown. *)
Lemma fetch_failures_surface_witness :
  let res : Response (list Topic.t) :=
    {| ok := false; status := 500;
       json := Rejected (Error "Unexpected end of JSON input") |} in
  let e := Error ("API error " +:+ toString 500) in
  let silent : Settled (Response (list Topic.t)) := Rejected (Error "") in
  ok res = false /\
  apiGet (Fulfilled res) = Rejected e /\
  message e = Some "API error 500" /\ message e ≠ Some "" /\
  messageOr e "Failed to load topics" = "API error 500" /\
  errMsg (step started (TopicsSettled (Fulfilled res))).1
    = Some (messageOr e "Failed to load topics") /\
  errorShown (step started (TopicsSettled (Fulfilled res))).1 = true /\
  apiGet silent = Rejected (Error "") /\ message (Error "") = Some "" /\
  errMsg (step started (TopicsSettled silent)).1 = Some "" /\
  errorShown (step started (TopicsSettled silent)).1 = false.
Proof.
  intros res e silent.
  assert (Hok : ok res = false) by reflexivity.
  assert (Hmsg : message e = Some "API error 500") by (vm_compute; reflexivity).
  assert (Htold : message e ≠ Some "") by (vm_compute; discriminate).
  assert (Hsilent : apiGet silent = Rejected (Error "")) by reflexivity.
  assert (Hempty : message (Error "") = Some "") by reflexivity.
  destruct fetch_failures_surface as (Hstatus & _ & _ & Htext & Htopics & _).
  destruct (Hstatus _ res Hok) as [Hget _].
  destruct (Htopics started (Fulfilled res) e Hget) as (Herr & _ & _ & _ & Hbanner & _).
  destruct (Htopics started silent (Error "") Hsilent)
    as (Herr' & _ & _ & _ & _ & Hnone).
  split_and!;
    [exact Hok | exact Hget | exact Hmsg | exact Htold
    | exact (Htext e _ "Failed to load topics" Hmsg)
    | exact Herr | exact (Hbanner Htold) | exact Hsilent | exact Hempty
    | exact Herr' | exact (Hnone Hempty)].
Defined.

(** C5 as written fails for the search: the search request is answered with
    status 500, [apiGet] rejects with "API error 500", and no error message
    is set; the dropdown opens on an empty list.  [apiGet] also rejects when
    the response is ok and its body is not JSON. *)
Lemma search_failure_sets_no_error_message :
  let failed : Settled (Response (list SearchEntry.t)) := respondError 500 in
  let s := (run loaded searchFails).1 in
  let garbled : Response (list Topic.t) :=
    {| ok := true; status := 200;
       json := Rejected (Error "Unexpected token < in JSON at position 0") |} in
  apiGet failed = Rejected (Error "API error 500") /\
  errMsg s = None /\ errorShown s = false /\
  searchResults s = [] /\ searchOpen s = true /\
  ok garbled = true /\
  apiGet (Fulfilled garbled)
    = Rejected (Error "Unexpected token < in JSON at position 0").
Proof. vm_compute. by split_and!. Qed.

(** C6 on a session: the user searches for "take off"; the blank is encoded
    in the request.  The request for the topics, which the component issues
    when it mounts, goes to a listed endpoint. *)
Lemma consumed_endpoints_are_the_listed_ones_witness :
  " take off " ≠ "" /\ nonEmpty (trim " take off ") = true /\
  encodeURIComponent (trim " take off ") = Some "take%20off" /\
  (exists r, issued r /\ consumes r (GET_entries_search "take%20off" 20)) /\
  issued (apiGet_fetch "/topics") /\
  (exists e, consumes (apiGet_fetch "/topics") e).
Proof.
  assert (Htext : " take off " ≠ "") by discriminate.
  assert (Hne : nonEmpty (trim " take off ") = true) by (vm_compute; reflexivity).
  assert (Henc : encodeURIComponent (trim " take off ") = Some "take%20off")
    by (vm_compute; reflexivity).
  assert (Hmount : issued (apiGet_fetch "/topics")).
  { left. exists ∅, 0, []. vm_compute. left. }
  destruct consumed_endpoints_are_the_listed_ones as (Hlisted & _ & _ & _ & _ & _ & Hsearch).
  destruct (Hsearch " take off " "take%20off" Htext Hne Henc) as [Hfound _].
  split_and!;
    [exact Htext | exact Hne | exact Henc | exact Hfound | exact Hmount
    | exact (Hlisted _ Hmount)].
Defined.

(** C7 on a session: the user opens a search result of topic 2, a topic of
    the list; it is added to "Your topics", all of them known topics. *)
Lemma your_topics_are_known_topics_witness :
  let found := ClickSearchResult trip in
  let s := (run loaded (searching "trip" [trip])).1 in
  yoursAreKnown loaded /\
  ~ isTopicsLoad found /\ resultTopicKnown s found /\
  yoursAreKnown s /\
  yoursAreKnown (step s found).1 /\
  yourTopicIds (step s found).1 = [1; 2].
Proof.
  intros found s.
  destruct your_topics_are_known_topics as (_ & Hload & Hkeep).
  assert (Hloaded : yoursAreKnown loaded).
  { generalize (Hload ∅ 0 (respond [mixed; travel])).
    generalize (run_single (mount ∅ 0).1 (TopicsSettled (respond [mixed; travel]))).
    intros -> Hrun. exact Hrun. }
  assert (Hev : ~ isTopicsLoad found) by (intros [fetched Heq]; discriminate).
  assert (Hsearch : forall base : State,
            yoursAreKnown base -> yoursAreKnown (run base (searching "trip" [trip])).1).
  { intros base Hbase. unfold searching. rewrite !run_cons_fst, run_nil.
    repeat (apply Hkeep; [| intros [fetched Heq]; discriminate | exact I]).
    exact Hbase. }
  assert (Hknown : resultTopicKnown s found).
  { change (2 ∈ Topic.id <$> topics s). evaluated. }
  assert (Hyours : yourTopicIds (step s found).1 = [1; 2]) by (vm_compute; reflexivity).
  exact (conj Hloaded (conj Hev (conj Hknown (conj (Hsearch loaded Hloaded)
           (conj (Hkeep s found (Hsearch loaded Hloaded) Hev Hknown) Hyours))))).
Defined.

(** C7 as written fails for a search result: its primary topic 7 is not in
    the list of topics the page loaded, and opening the result adds 7 to
    "Your topics". *)
Lemma search_result_adds_unknown_topic :
  let s := (run loaded (searching "cat nap" [idiom])).1 in
  let s' := (step s (ClickSearchResult idiom)).1 in
  Topic.id <$> topics s = [1; 2] /\ yourTopicIds s = [1] /\
  searchResults s = [idiom] /\ searchOpen s = true /\
  Topic.id <$> topics s' = [1; 2] /\ yourTopicIds s' = [1; 7] /\
  ~ yoursAreKnown s'.
Proof.
  intros s s'.
  assert (Htopics : Topic.id <$> topics s' = [1; 2]) by (vm_compute; reflexivity).
  assert (Hyours : yourTopicIds s' = [1; 7]) by (vm_compute; reflexivity).
  split_and!;
    [vm_compute; reflexivity | vm_compute; reflexivity | vm_compute; reflexivity
    | vm_compute; reflexivity | exact Htopics | exact Hyours |].
  clearbody s'. clear s. unfold yoursAreKnown. rewrite Htopics, Hyours. intros Hall.
  assert (Hin : (7 : Z) ∈ [1; 7]) by evaluated.
  apply Hall in Hin. revert Hin. change (7 ∉ [1; 2]). evaluated.
Qed.

(** C8 on a session: topic 2 is new and is appended once; topic 1 is in the
    list already and adding it changes nothing.  The storage remembers the
    topics 2 and 1, each once, and the list has no duplicates after the load
    and after the user added a topic and reset the list. *)
Lemma addToYourTopics_idempotent_witness :
  let s' := (addToYourTopics 2 loaded).1 in
  let later := [ClickSelectTopicButton; ModalClickAdd 2; ModalClickReset] in
  1 ∈ yourTopicIds loaded /\ (2 ∉ yourTopicIds loaded) /\
  NoDup (yourTopicIds loaded) /\
  addToYourTopics 1 loaded = (loaded, []) /\
  yourTopicIds s' = yourTopicIds loaded ++ [2] /\
  localStorage s' !! YOUR_TOPICS_KEY = Some (JSON_stringify (yourTopicIds s')) /\
  addToYourTopics 2 s' = (s', []) /\
  NoDup (yourTopicIds s') /\
  yourTopicIds s' = [1; 2] /\
  savedWithoutDuplicates reordered /\
  Forall (fun ev => ~ isTopicsLoad ev) later /\
  yourTopicIds (run (mount reordered 0).1 [topicsArrive]).1 = [2; 1] /\
  NoDup (yourTopicIds (run (mount reordered 0).1 (topicsArrive :: later)).1).
Proof.
  intros s' later.
  assert (Hin : 1 ∈ yourTopicIds loaded) by evaluated.
  assert (Hnew : 2 ∉ yourTopicIds loaded) by evaluated.
  assert (Hnodup : NoDup (yourTopicIds loaded)) by evaluated.
  assert (Hsaved : savedWithoutDuplicates reordered) by evaluated.
  assert (Hlater : Forall (fun ev => ~ isTopicsLoad ev) later).
  { repeat constructor; intros [fetched Heq]; discriminate. }
  destruct addToYourTopics_idempotent as (Hadd & _ & _ & _ & Hrun).
  destruct (Hadd 1 loaded) as (Hsame & _).
  destruct (Hadd 2 loaded) as (_ & Happend & Htwice & Hkeep).
  destruct (Happend Hnew) as [Hlist Hstored].
  split_and!;
    [exact Hin | exact Hnew | exact Hnodup | exact (Hsame Hin) | exact Hlist
    | exact Hstored | exact Htwice | exact (Hkeep Hnodup) | vm_compute; reflexivity
    | exact Hsaved | exact Hlater | vm_compute; reflexivity
    | exact (Hrun reordered 0 (respond [mixed; travel]) later Hsaved Hlater)].
Defined.

(** C8 as written fails for a list that was saved with a duplicate: the
    storage remembers topic 1 twice, the load keeps both, and adding topic 2
    stores the duplicate again. *)
Lemma saved_duplicates_are_kept :
  let s := (step (mount doubled 0).1 topicsArrive).1 in
  let s' := (addToYourTopics 2 s).1 in
  yourTopicIds (mount doubled 0).1 = [] /\
  yourTopicIds s = [1; 1] /\ ~ NoDup (yourTopicIds s) /\
  yourTopicIds s' = [1; 1; 2] /\
  localStorage s' !! YOUR_TOPICS_KEY = Some "[1,1,2]".
Proof.
  intros s s'.
  assert (Hyours : yourTopicIds s = [1; 1]) by (vm_compute; reflexivity).
  split_and!;
    [vm_compute; reflexivity | exact Hyours | | vm_compute; reflexivity
    | vm_compute; reflexivity].
  rewrite Hyours. intros Hnd. apply NoDup_cons in Hnd as [Hnotin _].
  apply Hnotin. left.
Qed.

(** C9 on a session: two cards, the user went to the second one and back;
    the first card is shown, Prev does nothing and Next goes to the second
    card. *)
Lemma navigation_keeps_index_in_bounds_witness :
  let s := (run (mount ∅ 0).1 browsing).1 in
  entries s ≠ [] /\ currentIndex s = 0 /\
  currentIndex s ≠ Z.of_nat (length (entries s)) - 1 /\
  0 ≤ currentIndex (goNext s s).1 ≤ Z.of_nat (length (entries s)) - 1 /\
  goPrev s s = (s, []) /\
  currentIndex (goNext s s).1 = currentIndex s + 1 /\
  isFlipped (goNext s s).1 = false.
Proof.
  intros s.
  assert (Hentries : entries s ≠ []) by (vm_compute; discriminate).
  assert (Hfirst : currentIndex s = 0) by (vm_compute; reflexivity).
  assert (Hlast : currentIndex s ≠ Z.of_nat (length (entries s)) - 1)
    by (vm_compute; discriminate).
  destruct (navigation_keeps_index_in_bounds ∅ 0 browsing Hentries)
    as (_ & _ & Hnext & _ & _ & Hprev & _ & _ & Hforward).
  destruct (Hforward Hlast) as [Hindex Hflip].
  exact (conj Hentries (conj Hfirst (conj Hlast (conj Hnext
           (conj (Hprev Hfirst) (conj Hindex Hflip)))))).
Defined.

(** C10 on a session: nothing is stored, and of the topics "Travel" and
    "Mixed" the second one becomes the one topic of "Your topics". *)
Lemma default_topic_initialization_witness :
  let t := [travel; mixed] in
  let s' := (step started (TopicsSettled (respond t))).1 in
  apiGet (respond t) = Fulfilled t /\ nothingSaved started /\
  defaultTopicId t = Some 1 /\ 1 ≠ 0 /\
  topics s' = t /\ singleDefault 1 s' /\
  yourTopicIds s' = [1].
Proof.
  intros t s'.
  assert (Hget : apiGet (respond t) = Fulfilled t) by reflexivity.
  assert (Hnone : nothingSaved started) by (left; vm_compute; reflexivity).
  assert (Hdefault : defaultTopicId t = Some 1) by (vm_compute; reflexivity).
  assert (Hid : (1 : Z) ≠ 0) by lia.
  destruct default_topic_initialization as (Hinit & _).
  destruct (Hinit started t (respond t) 1 Hget Hnone Hdefault Hid) as [Htopics Hsingle].
  split_and!;
    [exact Hget | exact Hnone | exact Hdefault | exact Hid | exact Htopics
    | exact Hsingle | exact (proj1 Hsingle)].
Defined.

(** C10 as written fails when the default topic has id 0: nothing is stored,
    the topic is selected, and "Your topics" stays empty. *)
Lemma default_topic_zero_is_not_added :
  let t := [Topic.mk 0 "Mixed" false] in
  let s' := (step started zeroArrives).1 in
  nothingSaved started /\ defaultTopicId t = Some 0 /\
  selectedTopicId s' = Some 0 /\
  yourTopicIds s' = [] /\ localStorage s' !! YOUR_TOPICS_KEY = None /\
  ~ singleDefault 0 s'.
Proof.
  intros t s'.
  assert (Hyours : yourTopicIds s' = []) by (vm_compute; reflexivity).
  split_and!;
    [left; vm_compute; reflexivity | vm_compute; reflexivity | vm_compute; reflexivity
    | exact Hyours | vm_compute; reflexivity |].
  intros (Hsingle & _). rewrite Hyours in Hsingle. discriminate.
Qed.

(** * More properties on concrete sessions *)

(** X1 on an entry with three examples: the first example of rank 1 is on
    the front, the other one on the back. *)
Lemma card_shows_lowest_ranked_examples_witness :
  let before := [ExampleOut.mk 11 "He naps at noon." 2] in
  let m := ExampleOut.mk 12 "A short nap helps." 1 in
  let after := [ExampleOut.mk 13 "Cats nap a lot." 1] in
  EntryDetail.examples napDetail = before ++ m :: after /\
  (forall e, e ∈ before -> ExampleOut.rank m < ExampleOut.rank e) /\
  (forall e, e ∈ after -> ExampleOut.rank m ≤ ExampleOut.rank e) /\
  CardView.exampleFront (cardViewOf napDetail) = quotedIfAny "A short nap helps." /\
  CardView.exampleBack (cardViewOf napDetail) = quotedIfAny "Cats nap a lot.".
Proof.
  intros before m after.
  assert (Hex : EntryDetail.examples napDetail = before ++ m :: after) by reflexivity.
  assert (Hbefore : forall e, e ∈ before -> ExampleOut.rank m < ExampleOut.rank e).
  { intros e Hin. apply list_elem_of_singleton in Hin as ->. cbn. lia. }
  assert (Hafter : forall e, e ∈ after -> ExampleOut.rank m ≤ ExampleOut.rank e).
  { intros e Hin. apply list_elem_of_singleton in Hin as ->. cbn. lia. }
  destruct (card_shows_lowest_ranked_examples napDetail) as (_ & Hfront & _ & _).
  split_and!; [exact Hex | exact Hbefore | exact Hafter
              | exact (Hfront before m after Hex Hbefore Hafter) | vm_compute; reflexivity].
Defined.

(** X2 on the same entry: what is read aloud for the front of the card is
    the text of the example, without the double quotes. *)
Lemma listen_example_reads_the_example_text_witness :
  bareEnds "A short nap helps." /\
  stripQuotes (quoted "A short nap helps.") = "A short nap helps." /\
  spokenFront (flashcardOf (cardViewOf napDetail)) = "A short nap helps.".
Proof.
  assert (Hbare : bareEnds "A short nap helps.") by (split; vm_compute; discriminate).
  destruct listen_example_reads_the_example_text as (_ & Hquoted & _ & _ & Hspoken).
  destruct (Hspoken napDetail [ExampleOut.mk 11 "He naps at noon." 2]
              (ExampleOut.mk 12 "A short nap helps." 1)
              [ExampleOut.mk 13 "Cats nap a lot." 1] eq_refl) as [_ Hfront].
  { intros e Hin. apply list_elem_of_singleton in Hin as ->. cbn. lia. }
  { intros e Hin. apply list_elem_of_singleton in Hin as ->. cbn. lia. }
  split_and!; [exact Hbare | exact (Hquoted _ Hbare) | exact (Hfront Hbare)].
Defined.

(** X3 on the modal: the user added topic 2 before topic 1, and an id 9
    that is no topic is skipped; a search for "TRA" keeps "Travel". *)
Lemma modal_rows_follow_your_topics_witness :
  nonEmpty (toLowerCase (trim "")) = false /\
  nonEmpty (toLowerCase (trim " TRA ")) = true /\
  Topic.id <$> yourTopics [mixed; travel] [2; 9; 1] "" = [2; 1] /\
  yourTopics [mixed; travel] [2; 9; 1] " TRA " = [travel] /\
  byId [mixed; travel] !! 2 = Some travel.
Proof.
  assert (Hblank : nonEmpty (toLowerCase (trim "")) = false) by reflexivity.
  assert (Hquery : nonEmpty (toLowerCase (trim " TRA ")) = true) by reflexivity.
  destruct (modal_rows_follow_your_topics [mixed; travel] [2; 9; 1] "")
    as (Hrows & _ & _ & Hlast).
  destruct (modal_rows_follow_your_topics [mixed; travel] [2; 9; 1] " TRA ")
    as (_ & Hsearch & _ & _).
  split_and!; [exact Hblank | exact Hquery | | | ].
  - rewrite (Hrows Hblank). vm_compute. reflexivity.
  - rewrite (Hsearch "" Hblank Hquery). vm_compute. reflexivity.
  - apply (Hlast 2 [mixed] travel []); [reflexivity | reflexivity |].
    intros x Hx. by apply not_elem_of_nil in Hx.
Defined.

(** X4 on the modal: "Travel" is suggested, and a click on its button adds
    it behind "Mixed". *)
Lemma add_buttons_offer_new_topics_witness :
  let r := step choosing (ModalClickAdd 2) in
  isTopicModalOpen choosing = true /\
  travel ∈ addButtons (topics choosing) (yourTopicIds choosing) (modal choosing) /\
  yourTopicIds r.1 = yourTopicIds choosing ++ [2] /\
  yourTopicIds r.1 = [1; 2] /\
  localStorage r.1 !! YOUR_TOPICS_KEY = Some (JSON_stringify (yourTopicIds r.1)) /\
  travel ∉ addButtons (topics r.1) (yourTopicIds r.1) (modal r.1).
Proof.
  intros r.
  assert (Hopen : isTopicModalOpen choosing = true) by (vm_compute; reflexivity).
  assert (Hbutton : travel ∈ addButtons (topics choosing) (yourTopicIds choosing)
                                        (modal choosing)) by evaluated.
  destruct add_buttons_offer_new_topics as (_ & _ & _ & Hadd).
  destruct (Hadd choosing travel Hopen Hbutton) as (Hyours & Hstored & _ & _ & _ & Hgone).
  split_and!; [exact Hopen | exact Hbutton | exact Hyours | vm_compute; reflexivity
              | exact Hstored | exact Hgone].
Defined.

(** X5 on a session: after the load topic 1, "Mixed", is selected; the user
    adds topic 2 and picks it from the rows of the modal. *)
Lemma selected_topic_is_known_witness :
  let added := (step choosing (ModalClickAdd 2)).1 in
  let r := step added (ModalClickYourTopic 2) in
  selectionKnown loaded /\ selectedTopicId loaded = Some 1 /\
  selectedTopic loaded = Some mixed /\ topicBadge loaded = "Mixed" /\
  isTopicModalOpen added = true /\
  2 ∈ Topic.id <$> yourTopics (topics added) (yourTopicIds added) (modal_q (modal added)) /\
  selectedTopicId r.1 = Some 2 /\ isTopicModalOpen r.1 = false /\
  selectionKnown r.1.
Proof.
  intros added r.
  destruct selected_topic_is_known as (Hload & Hkeep & Hbadge & Hrow).
  assert (Hloaded : selectionKnown loaded).
  { generalize (Hload ∅ 0 (respond [mixed; travel])).
    generalize (run_single (mount ∅ 0).1 (TopicsSettled (respond [mixed; travel]))).
    intros -> Hrun. exact Hrun. }
  assert (Hsel : selectedTopicId loaded = Some 1) by (vm_compute; reflexivity).
  destruct (Hbadge loaded 1 Hloaded Hsel) as (topic & Htopic & _ & _ & Hname).
  assert (Hmixed : selectedTopic loaded = Some mixed) by (vm_compute; reflexivity).
  assert (Hopen : isTopicModalOpen added = true) by (vm_compute; reflexivity).
  assert (Hin : 2 ∈ Topic.id <$> yourTopics (topics added) (yourTopicIds added)
                                            (modal_q (modal added))) by evaluated.
  destruct (Hrow added 2 Hopen Hin) as (Hpicked & Hclosed & _ & _).
  assert (Hnot : forall ev, (exists id, ev = ModalClickAdd id) \/
                            (exists id, ev = ModalClickYourTopic id) \/
                            ev = ClickSelectTopicButton -> ~ isTopicsLoad ev).
  { intros ev [[id ->] | [[id ->] | ->]] [fetched Heq]; discriminate. }
  assert (Hchoosing : selectionKnown choosing).
  { apply Hkeep; [exact Hloaded | apply Hnot; by right; right | exact I]. }
  assert (Hadded : selectionKnown added).
  { apply Hkeep; [exact Hchoosing | apply Hnot; left; by eexists | exact I]. }
  assert (Hlast : selectionKnown r.1).
  { apply Hkeep; [exact Hadded | apply Hnot; right; left; by eexists | exact I]. }
  assert (Hbadged : topicBadge loaded = "Mixed").
  { rewrite Hname. rewrite Hmixed in Htopic. by injection Htopic as <-. }
  exact (conj Hloaded (conj Hsel (conj Hmixed (conj Hbadged (conj Hopen (conj Hin
          (conj Hpicked (conj Hclosed Hlast)))))))).
Defined.

(** X6 on a session: the card of the first entry is flipped and shows the
    Spanish meaning; two clicks on "Flip" show the same side again, the
    Spanish meaning hidden.  Before the user asked for the Spanish meaning,
    two clicks changed nothing. *)
Lemma flipping_twice_hides_spanish_witness :
  let once := screenStep reading (OfMain ClickFlip) in
  let twice := screenStep once.1 (OfMain ClickFlip) in
  let back := screenStep (screenStep onScreen (OfMain ClickFlip)).1 (OfMain ClickFlip) in
  cardMounted reading /\ cardShown (main reading) = true /\
  isFlipped (main reading) = true /\ spanishShown reading = Some true /\
  isFlipped (main once.1) = false /\ spanishShown once.1 = Some false /\
  main twice.1 = main reading /\ spanishShown twice.1 = Some false /\
  twice.1 ≠ reading /\
  cardMounted onScreen /\ spanishShown onScreen ≠ Some true /\ back.1 = onScreen.
Proof.
  intros once twice back.
  assert (Hmounted : cardMounted reading) by (vm_compute; reflexivity).
  assert (Hshown : cardShown (main reading) = true) by (vm_compute; reflexivity).
  assert (Hflipped : isFlipped (main reading) = true) by (vm_compute; reflexivity).
  assert (Hspanish : spanishShown reading = Some true) by (vm_compute; reflexivity).
  assert (Hmounted' : cardMounted onScreen) by (vm_compute; reflexivity).
  assert (Hhidden : spanishShown onScreen ≠ Some true) by (vm_compute; discriminate).
  destruct (flipping_twice_hides_spanish reading Hmounted)
    as ((Hmain & _) & _ & Hflip & _ & Hlost).
  destruct (Hflip Hshown) as (Hside & _ & _ & Honce & _).
  destruct (Hlost Hspanish) as [Hdiffers Htwice].
  destruct (flipping_twice_hides_spanish onScreen Hmounted') as (_ & _ & _ & Hsame & _).
  split_and!; [exact Hmounted | exact Hshown | exact Hflipped | exact Hspanish
              | unfold once; rewrite Hside, Hflipped; reflexivity | exact Honce
              | exact Hmain | exact Htwice | exact Hdiffers
              | exact Hmounted' | exact Hhidden | exact (Hsame Hhidden)].
Defined.

(** X7 on a session: from the first of two cards, "Next" and "Prev" fetch
    the details of entry 6 and of entry 5 with the request ids 2 and 3. *)
Lemma next_then_prev_returns_witness :
  let r := run shown [ClickNext; ClickPrev] in
  cardShown shown = true /\
  at_index (entries shown) (currentIndex shown) = Some cat /\
  at_index (entries shown) (currentIndex shown + 1) = Some dog /\
  currentIndex r.1 = currentIndex shown /\ isFlipped r.1 = false /\
  entryDetailReqRef r.1 = entryDetailReqRef shown + 2 /\
  continuation <$> r.2 = [AfterDetail CardDetail 2; AfterDetail CardDetail 3].
Proof.
  intros r.
  assert (Hshown : cardShown shown = true) by (vm_compute; reflexivity).
  assert (Hhere : at_index (entries shown) (currentIndex shown) = Some cat)
    by (vm_compute; reflexivity).
  assert (Hnext : at_index (entries shown) (currentIndex shown + 1) = Some dog)
    by (vm_compute; reflexivity).
  destruct (next_then_prev_returns shown cat dog Hshown Hhere Hnext)
    as (Hindex & _ & Hflip & Href & _ & _).
  split_and!; [exact Hshown | exact Hhere | exact Hnext | exact Hindex | exact Hflip
              | exact Href | vm_compute; reflexivity].
Defined.

(** X8 on a session: the user typed "trip", the search went out, the user
    emptied the box, and the response opens the dropdown again. *)
Lemma late_search_response_is_adopted_witness :
  let asked := (run shown [SearchInput "trip"; TimePasses 250; TimerFires]).1 in
  let emptied := (step asked (SearchInput "")).1 in
  let r := run asked [SearchInput ""; SearchSettled (respond [trip])] in
  searchQuery asked ≠ "" /\ nonEmpty (trim "") = false /\
  apiGet (respond [trip]) = Fulfilled [trip] /\
  searchResults emptied = [] /\ searchOpen emptied = false /\
  searchQuery r.1 = "" /\ searchResults r.1 = [trip] /\ searchOpen r.1 = true.
Proof.
  intros asked emptied r.
  assert (Hedit : searchQuery asked ≠ "") by (vm_compute; discriminate).
  assert (Hblank : nonEmpty (trim "") = false) by reflexivity.
  assert (Hget : apiGet (respond [trip]) = Fulfilled [trip]) by reflexivity.
  destruct late_search_response_is_adopted as [_ Hlate].
  destruct (Hlate asked "" (respond [trip]) [trip] Hedit Hblank Hget)
    as (Hcleared & Hclosed & _ & Hquery & Hresults & Hopen).
  split_and!; [exact Hedit | exact Hblank | exact Hget | exact Hcleared | exact Hclosed
              | exact Hquery | exact Hresults | exact Hopen].
Defined.

(** X9 on a session: "trip", an entry of topic 2, is not in the list of
    topic 1 on screen; the click selects topic 2 and fetches its entries and
    the detail of "trip".  When the entries arrive first, the second card,
    "trip", is the current card.  When the detail arrives first, "trip" is
    shown, and the entries then make the first card, "dog", the current
    card. *)
Lemma search_result_of_another_topic_is_jumped_to_witness :
  let list := [dog; SearchEntry.entry trip] in
  let r1 := step found (ClickSearchResult trip) in
  let r2 := step r1.1 (EntriesSettled (respond list)) in
  let early := step r1.1 (DetailSettled JumpFallback (entryDetailReqRef r1.1)
                                        (respond tripDetail)) in
  let r3 := step early.1 (EntriesSettled (respond list)) in
  resultOnScreen found trip /\
  selectedTopicId found = Some 1 /\
  pendingJumpEntryId found ≠ Some (SearchEntry.id trip) /\
  (forall shown, shown ∈ entries found -> EntryOut.id shown ≠ SearchEntry.id trip) /\
  entries found ≠ [] /\
  at_index list (findIndex (fun e => EntryOut.id e =? SearchEntry.id trip) list)
    = Some (SearchEntry.entry trip) /\
  selectedTopicId r1.1 = Some 2 /\ pendingJumpEntryId r1.1 = Some 8 /\
  yourTopicIds r1.1 = [1; 2] /\
  r1.2 = [entriesCall 2; jumpFallbackCall 8 (entryDetailReqRef r1.1)] /\
  currentIndex r2.1 = 1 /\ pendingJumpEntryId r2.1 = None /\
  last r2.2 = Some (cardDetailCall 8 (entryDetailReqRef r2.1)) /\
  apiGet (respond tripDetail) = Fulfilled tripDetail /\
  entryDetail early.1 = Some tripDetail /\ pendingJumpEntryId early.1 = None /\
  entries r3.1 = list /\ currentIndex r3.1 = 0.
Proof.
  intros list r1 r2 early r3.
  assert (Hscreen : resultOnScreen found trip).
  { split_and!; [vm_compute; reflexivity | vm_compute; reflexivity | evaluated]. }
  assert (Htopic : SearchEntry.primary_topic trip = Some (2, "Travel")) by reflexivity.
  assert (Ht : (2 : Z) ≠ 0) by lia.
  assert (Hsel : selectedTopicId found ≠ Some 2) by (vm_compute; discriminate).
  assert (Hx : SearchEntry.id trip ≠ 0) by (vm_compute; discriminate).
  assert (Hold : pendingJumpEntryId found ≠ Some (SearchEntry.id trip))
    by (vm_compute; discriminate).
  assert (Hmissing : forall shown, shown ∈ entries found ->
                       EntryOut.id shown ≠ SearchEntry.id trip).
  { replace (entries found) with [cat; dog] by (vm_compute; reflexivity).
    intros shown Hin. apply elem_of_cons in Hin as [-> | Hin];
      [vm_compute; discriminate|].
    apply list_elem_of_singleton in Hin as ->. vm_compute. discriminate. }
  assert (Hlist : entries found ≠ []) by (vm_compute; discriminate).
  assert (He : at_index list
                 (findIndex (fun e => EntryOut.id e =? SearchEntry.id trip) list)
               = Some (SearchEntry.entry trip)) by (vm_compute; reflexivity).
  assert (Hget : apiGet (respond tripDetail) = Fulfilled tripDetail) by reflexivity.
  destruct (search_result_of_another_topic_is_jumped_to found trip 2 "Travel"
              Hscreen Htopic Ht Hsel Hx Hold Hmissing)
    as ((Hs1 & _ & _ & _ & Hp1 & _ & _ & _ & Hcalls) & Hjump & Hlost).
  destruct (Hjump r1.1 (respond list) list (SearchEntry.entry trip) eq_refl Hp1 He)
    as (_ & Hi2 & _ & Hp2 & _ & Hlast & _).
  destruct (Hlost (respond tripDetail) (respond list) list eq_refl)
    as (_ & Hp3 & _ & Hshown & He3 & Hi3 & _).
  split_and!; [exact Hscreen | vm_compute; reflexivity | exact Hold | exact Hmissing
              | exact Hlist | exact He
              | exact Hs1 | exact Hp1 | vm_compute; reflexivity | exact (Hcalls Hlist)
              | exact Hi2 | exact Hp2 | exact Hlast | exact Hget
              | exact (Hshown tripDetail Hget) | exact Hp3 | exact He3 | exact Hi3].
Defined.

(** X10 on a session: "trip" is in the list of topic 1 on screen as well;
    the click jumps to it there, and when the entries of topic 2 arrive the
    first card, "dog", is the current card. *)
Lemma jump_is_spent_on_the_list_on_screen_witness :
  let list := [dog; SearchEntry.entry trip] in
  let r1 := step foundOnScreen (ClickSearchResult trip) in
  let r2 := step r1.1 (EntriesSettled (respond list)) in
  resultOnScreen foundOnScreen trip /\
  pendingJumpEntryId foundOnScreen ≠ Some (SearchEntry.id trip) /\
  0 ≤ findIndex (fun e => EntryOut.id e =? SearchEntry.id trip) (entries foundOnScreen) /\
  selectedTopicId r1.1 = Some 2 /\ currentIndex r1.1 = 1 /\
  pendingJumpEntryId r1.1 = None /\
  entries r2.1 = list /\ currentIndex r2.1 = 0 /\
  at_index (entries r2.1) (currentIndex r2.1) = Some dog.
Proof.
  intros list r1 r2.
  assert (Hscreen : resultOnScreen foundOnScreen trip).
  { split_and!; [vm_compute; reflexivity | vm_compute; reflexivity | evaluated]. }
  assert (Htopic : SearchEntry.primary_topic trip = Some (2, "Travel")) by reflexivity.
  assert (Ht : (2 : Z) ≠ 0) by lia.
  assert (Hsel : selectedTopicId foundOnScreen ≠ Some 2) by (vm_compute; discriminate).
  assert (Hx : SearchEntry.id trip ≠ 0) by (vm_compute; discriminate).
  assert (Hold : pendingJumpEntryId foundOnScreen ≠ Some (SearchEntry.id trip))
    by (vm_compute; discriminate).
  assert (Hidx : 0 ≤ findIndex (fun e => EntryOut.id e =? SearchEntry.id trip)
                               (entries foundOnScreen)) by (vm_compute; discriminate).
  destruct (jump_is_spent_on_the_list_on_screen foundOnScreen trip 2 "Travel" list
              Hscreen Htopic Ht Hsel Hx Hold Hidx)
    as (Hs1 & _ & _ & Hi1 & Hp1 & He2 & Hi2 & _).
  split_and!; [exact Hscreen | exact Hold | exact Hidx | exact Hs1
              | unfold r1; rewrite Hi1; vm_compute; reflexivity | exact Hp1 | exact He2
              | exact Hi2 | unfold r2, r1; rewrite He2, Hi2; reflexivity].
Defined.

(** X11 on a session: "dog" is a result of the selected topic and is the
    second card, which becomes the current card; "owl" has no topic and is
    not in the list, so that its detail is fetched on its own. *)
Lemma search_result_of_the_selected_topic_witness :
  let r := step foundBoth (ClickSearchResult dogResult) in
  let r' := step foundBoth (ClickSearchResult owlResult) in
  resultOnScreen foundBoth dogResult /\ resultInTopic foundBoth dogResult /\
  resultOnScreen foundBoth owlResult /\ resultInTopic foundBoth owlResult /\
  currentIndex r.1 = 1 /\ searchQuery r.1 = "" /\
  r.2 = [cardDetailCall 6 (entryDetailReqRef foundBoth + 1)] /\
  currentIndex r'.1 = currentIndex foundBoth /\
  r'.2 = [searchFallbackCall 7 (entryDetailReqRef foundBoth + 1)].
Proof.
  intros r r'.
  assert (Hdog : resultOnScreen foundBoth dogResult).
  { split_and!; [vm_compute; reflexivity | vm_compute; reflexivity | evaluated]. }
  assert (Howl : resultOnScreen foundBoth owlResult).
  { split_and!; [vm_compute; reflexivity | vm_compute; reflexivity | evaluated]. }
  assert (Hsame : resultInTopic foundBoth dogResult) by (right; vm_compute; reflexivity).
  assert (Hnone : resultInTopic foundBoth owlResult) by exact I.
  destruct (search_result_of_the_selected_topic foundBoth dogResult Hdog Hsame)
    as (_ & Hquery & _ & Hfound & _).
  destruct Hfound as (Hindex & _ & _ & Hmoved); [vm_compute; discriminate|].
  destruct Hmoved as (e & _ & _ & Hcalls); [vm_compute; discriminate|].
  destruct (search_result_of_the_selected_topic foundBoth owlResult Howl Hnone)
    as (_ & _ & _ & _ & Hmissing).
  destruct Hmissing as (Hstays & _ & Hfallback); [vm_compute; reflexivity|].
  split_and!; [exact Hdog | exact Hsame | exact Howl | exact Hnone
              | unfold r; rewrite Hindex; vm_compute; reflexivity | exact Hquery | exact Hcalls
              | exact Hstays | exact Hfallback].
Defined.

(** X12 on a session: the detail of the first card arrives while its
    request, the first one, is current, and the card is shown. *)
Lemma current_detail_response_is_adopted_witness :
  let waiting := (run started [topicsArrive; EntriesSettled (respond [cat; dog])]).1 in
  let r := step waiting (DetailSettled CardDetail (entryDetailReqRef waiting)
                                       (respond catDetail)) in
  entryDetailReqRef waiting = 1 /\
  apiGet (respond catDetail) = Fulfilled catDetail /\ errMsg waiting = None /\
  entryDetail r.1 = Some catDetail /\ cardView r.1 = Some (cardViewOf catDetail) /\
  loading r.1 = false /\ cardShown r.1 = true /\ r.2 = [].
Proof.
  intros waiting r.
  assert (Href : entryDetailReqRef waiting = 1) by (vm_compute; reflexivity).
  assert (Hget : apiGet (respond catDetail) = Fulfilled catDetail) by reflexivity.
  assert (Herr : errMsg waiting = None) by (vm_compute; reflexivity).
  destruct (current_detail_response_is_adopted waiting CardDetail (respond catDetail)
              catDetail Hget) as (Hcalls & Hdetail & Hview & Hloading & _ & Hshown & _).
  split_and!; [exact Href | exact Hget | exact Herr | exact Hdetail | exact Hview
              | exact Hloading | exact (Hshown Herr) | exact Hcalls].
Defined.

(** X13 on a session: the entries of topic 1 fail to load and the banner
    shows the error; the user picks topic 2 in the modal and the banner is
    gone. *)
Lemma selecting_a_topic_clears_the_error_witness :
  let failed := (run loaded [EntriesSettled (respondError 500); ClickSelectTopicButton;
                             ModalClickAdd 2]).1 in
  let r := step failed (ModalClickYourTopic 2) in
  errMsg failed = Some "API error 500" /\ errorShown failed = true /\
  2 ≠ 0 /\ selectedTopicId failed ≠ Some 2 /\ selectedTopicId r.1 = Some 2 /\
  errMsg r.1 = None /\ loading r.1 = true /\ errorShown r.1 = false /\
  entriesCall 2 ∈ r.2.
Proof.
  intros failed r.
  assert (Ht : (2 : Z) ≠ 0) by lia.
  assert (Hold : selectedTopicId failed ≠ Some 2) by (vm_compute; discriminate).
  assert (Hnew : selectedTopicId (step failed (ModalClickYourTopic 2)).1 = Some 2)
    by (vm_compute; reflexivity).
  destruct (selecting_a_topic_clears_the_error failed (ModalClickYourTopic 2) 2
              Ht Hold Hnew) as (Herr & Hload & Hbanner & Hcall).
  split_and!; [vm_compute; reflexivity | vm_compute; reflexivity | exact Ht | exact Hold
              | exact Hnew | exact Herr | exact Hload | exact Hbanner | exact Hcall].
Defined.

(** X14 on a session: the three detail requests of the browsing session
    carry the ids 1, 2 and 3. *)
Lemma detail_request_ids_are_fresh_witness :
  detailIds (run started browsing).2 = [1; 2; 3] /\
  2 ∈ detailIds (run started browsing).2 /\
  NoDup (detailIds (run started browsing).2) /\
  entryDetailReqRef started < 2 ≤ entryDetailReqRef (run started browsing).1 /\
  0 < 2.
Proof.
  assert (Hids : detailIds (run started browsing).2 = [1; 2; 3])
    by (vm_compute; reflexivity).
  assert (Hin : 2 ∈ detailIds (run started browsing).2) by evaluated.
  destruct detail_request_ids_are_fresh as [Hrun Hmount].
  destruct (Hrun started browsing) as (Hnodup & _ & Hbounds).
  destruct (Hmount ∅ 0 browsing) as (_ & _ & Hpositive).
  exact (conj Hids (conj Hin (conj Hnodup (conj (Hbounds 2 Hin) (Hpositive 2 Hin))))).
Defined.

(** X15 on a session: flipping the card changes no dependency, and the step
    is the handler alone. *)
Lemma effects_settle_after_two_rounds_witness :
  deps (handle ClickFlip shown shown).1 = deps shown /\
  step shown ClickFlip = handle ClickFlip shown shown /\
  rerender 5 started shown = rerender 2 started shown.
Proof.
  assert (Hdeps : deps (handle ClickFlip shown shown).1 = deps shown)
    by (vm_compute; reflexivity).
  destruct effects_settle_after_two_rounds as (Hsettle & _ & Hquiet).
  split_and!; [exact Hdeps | exact (Hquiet shown ClickFlip Hdeps)
              | exact (Hsettle 3%nat started shown)].
Defined.

(** X16 on a session: the storage remembers the topics 2 and 1; after the
    page is loaded again "Your topics" is 2 and 1, and topic 2 is selected. *)
Lemma your_topics_survive_a_reload_witness :
  let s := (run (mount reordered 0).1 [topicsArrive]).1 in
  reordered !! YOUR_TOPICS_KEY = Some (JSON_stringify [2; 1]) /\
  JSON_parse (JSON_stringify [2; 1]) = Some (JArr (JNum <$> [2; 1])) /\
  (forall id, id ∈ [2; 1] -> id ∈ Topic.id <$> [mixed; travel]) /\
  yourTopicIds s = [2; 1] /\ selectedTopicId s = head [2; 1] /\
  localStorage s = reordered.
Proof.
  intros s.
  assert (Hstored : reordered !! YOUR_TOPICS_KEY = Some (JSON_stringify [2; 1]))
    by (vm_compute; reflexivity).
  assert (Hparse : JSON_parse (JSON_stringify [2; 1]) = Some (JArr (JNum <$> [2; 1])))
    by (vm_compute; reflexivity).
  assert (Hknown : forall id, id ∈ [2; 1] -> id ∈ Topic.id <$> [mixed; travel]).
  { intros id Hin. apply elem_of_cons in Hin as [-> | Hin]; [evaluated|].
    apply list_elem_of_singleton in Hin as ->. evaluated. }
  destruct (your_topics_survive_a_reload reordered 0 [2; 1] [mixed; travel]
              (respond [mixed; travel]) Hstored Hparse ltac:(discriminate) eq_refl)
    as (_ & _ & _ & Hstorage & Hrestored).
  destruct (Hrestored Hknown) as [Hyours Hsel].
  split_and!; [exact Hstored | exact Hparse | exact Hknown | exact Hyours | exact Hsel
              | exact Hstorage].
Defined.

(** X17 on a session: on the landing screen Google hands over a credential
    with blanks around it, and the request carries it without them; the same
    callback arriving while Ana is signed in posts as well, and when the
    server refuses it Ana stays on the main screen. *)
Lemma sign_in_needs_a_credential_witness :
  let ev := GoogleCallback (Some " token ") in
  let c := {| app_request := apiPost_fetch "/auth/google"
                               (Some (JObj [("credential", JStr "token")]));
              app_continuation := AfterGoogle |} in
  let r := appRun signedIn [ev; GoogleSettled (respondError 401)] in
  c ∈ (appStep landing ev).2 /\ app_continuation c = AfterGoogle /\
  appScreen landing = LandingScreen false None /\
  (appStep landing ev).2 = [c] /\
  appScreen (appStep landing ev).1 = LandingScreen true None /\
  nonEmpty (trim "   ") = false /\
  appStep landing (GoogleCallback (Some "   ")) = (landing, []) /\
  appScreen signedIn = MainScreen "Ana" /\ nonEmpty (trim " token ") = true /\
  app_request <$> r.2 = [app_request c] /\
  appScreen (appStep signedIn ev).1 = MainScreen "Ana" /\
  appScreen r.1 = MainScreen "Ana".
Proof.
  intros ev c r.
  assert (Hin : c ∈ (appStep landing ev).2).
  { replace (appStep landing ev).2 with [c] by (vm_compute; reflexivity).
    apply list_elem_of_singleton. reflexivity. }
  assert (Hk : app_continuation c = AfterGoogle) by reflexivity.
  assert (Hblank : nonEmpty (trim "   ") = false) by reflexivity.
  assert (Hlanding : appScreen landing = LandingScreen false None)
    by (vm_compute; reflexivity).
  assert (Hmain : appScreen signedIn = MainScreen "Ana") by (vm_compute; reflexivity).
  assert (Hne : nonEmpty (trim " token ") = true) by reflexivity.
  destruct sign_in_needs_a_credential as (Hsent & _ & Hnothing & Hscreen).
  destruct (Hsent landing ev c Hin Hk)
    as (text & _ & _ & _ & _ & Hcalls & _ & _ & _ & Hafter).
  destruct (Hscreen signedIn "Ana" " token " (respondError 401) Hmain Hne)
    as (Hposted & Hflight & Hrefused).
  split_and!; [exact Hin | exact Hk | exact Hlanding | exact Hcalls
              | exact (Hafter false None Hlanding)
              | exact Hblank | exact (Hnothing landing "   " Hblank)
              | exact Hmain | exact Hne | exact Hposted | exact Hflight | exact Hrefused].
Defined.

(** X18 on a session: Ana is signed in and logs out; the request fails with
    status 500 and the landing screen is back all the same. *)
Lemma session_decides_the_screen_witness :
  let r := appRun signedIn [Logout; LogoutSettled (respondError 500)] in
  appScreen appMount.1 = CheckingSession /\
  appStep appMount.1 Logout = (appMount.1, []) /\
  appScreen signedIn = MainScreen "Ana" /\
  app_request <$> r.2 = [apiPost_fetch "/auth/logout" None] /\
  appScreen r.1 = LandingScreen (authLoading signedIn) (authError signedIn) /\
  userName (AuthUser.mk 2 "bo@example.com" (Some "") None) = "bo@example.com".
Proof.
  intros r.
  assert (Hchecking : appScreen appMount.1 = CheckingSession) by reflexivity.
  assert (Hmain : appScreen signedIn = MainScreen "Ana") by (vm_compute; reflexivity).
  destruct session_decides_the_screen as (_ & Hwait & _ & Hname & Hlogout).
  destruct (Hlogout signedIn "Ana" (respondError 500) Hmain) as (Hcalls & _ & Hback).
  destruct (Hname (AuthUser.mk 2 "bo@example.com" (Some "") None)) as [Hemail _].
  split_and!; [exact Hchecking | exact (Hwait appMount.1 Logout Hchecking (or_intror eq_refl))
              | exact Hmain | exact Hcalls | exact Hback
              | exact (Hemail (or_intror eq_refl))].
Defined.

(** X19 on a session: the server refuses the credential with status 401,
    and the landing screen shows the error. *)
Lemma failed_sign_in_shows_an_error_witness :
  let r := appRun landing [GoogleCallback (Some " token ");
                           GoogleSettled (respondError 401)] in
  appScreen landing = LandingScreen false None /\
  nonEmpty (trim " token ") = true /\
  appScreen (appStep landing (GoogleCallback (Some " token "))).1
    = LandingScreen true None /\
  appScreen r.1
    = LandingScreen false (Some "Could not sign in with Google. Please try again.").
Proof.
  intros r.
  assert (Hscreen : appScreen landing = LandingScreen false None)
    by (vm_compute; reflexivity).
  assert (Hne : nonEmpty (trim " token ") = true) by reflexivity.
  destruct (failed_sign_in_shows_an_error landing false None " token "
              (respondError 401) Hscreen Hne) as (_ & Hflight & Hafter).
  split_and!; [exact Hscreen | exact Hne | exact Hflight | exact Hafter].
Defined.
